(** * jira-mcp: the cross-reference aggregation engine of [index.js]

    A shallow embedding of the rich-text codec ([extractText],
    [parseInlineFormatting], [buildCommentADF]), the reference extractor
    ([findJiraTicketKeys], [findFigmaUrls], [parseFigmaUrl]), the
    rate-limit aware fetcher ([figmaFetchWithRetry]), the design export
    ([fetchFigmaDesign], [downloadAttachment]) and the aggregation
    traversal ([getTicket]).

    JavaScript strings are modelled as [string]: a sequence of code units
    below 256 (the Latin-1 range), which covers every character class the
    regular expressions of the source mention. *)

From Stdlib Require Import String Ascii List ZArith Lia Bool Arith DecimalString.
From stdpp Require Import base option list gmap sets strings.
Import ListNotations.
Local Open Scope list_scope.
Local Open Scope string_scope.
Set Warnings "-register-all".

(* ================================================================= *)
(** ** Code units and the character classes of the regular expressions *)

Definition code (c : ascii) : nat := nat_of_ascii c.

Definition between (lo hi : nat) (c : ascii) : bool :=
  (lo <=? code c)%nat && (code c <=? hi)%nat.

(** [[A-Z]], [[a-z]], [\d] *)
Definition isUpper (c : ascii) : bool := between 65 90 c.
Definition isLower (c : ascii) : bool := between 97 122 c.
Definition isDigit (c : ascii) : bool := between 48 57 c.
Definition isAlnum (c : ascii) : bool := isUpper c || isLower c || isDigit c.

(** [\w] is [[A-Za-z0-9_]]. *)
Definition isWord (c : ascii) : bool := isAlnum c || (code c =? 95)%nat.

(** [\s], and the characters [trim] strips: TAB, LF, VT, FF, CR, SPACE and
    NBSP are the ones below 256. *)
Definition isSpace (c : ascii) : bool :=
  between 9 13 c || (code c =? 32)%nat || (code c =? 160)%nat.

(** [.] matches everything but the line terminators LF and CR. *)
Definition isLineTerminator (c : ascii) : bool :=
  (code c =? 10)%nat || (code c =? 13)%nat.

Definition LF : ascii := ascii_of_nat 10.
Definition nl : string := String LF "".

(** JavaScript truthiness of a string and of a possibly missing string. *)
Definition truthy (s : string) : bool := negb (s =? "").

Definition truthy_opt (o : option string) : bool :=
  match o with Some s => truthy s | None => false end.

(** [o || d] for a possibly missing string [o]. *)
Definition or_else (o : option string) (d : string) : string :=
  match o with
  | Some s => if truthy s then s else d
  | None => d
  end.

(** [s.startsWith(p)] *)
Fixpoint startsWith (p s : string) : bool :=
  match p, s with
  | "", _ => true
  | String a p', String b s' => Ascii.eqb a b && startsWith p' s'
  | String _ _, "" => false
  end.

(** [s.includes(p)] *)
Fixpoint includes (p s : string) : bool :=
  startsWith p s ||
  match s with
  | "" => false
  | String _ s' => includes p s'
  end.

(** The characters of [s] from index [n] on: [s.substring(n)]. *)
Fixpoint drop_chars (n : nat) (s : string) : string :=
  match n, s with
  | O, _ => s
  | S n', String _ s' => drop_chars n' s'
  | S _, "" => ""
  end.

(** [s.substring(0, n)] *)
Fixpoint take_chars (n : nat) (s : string) : string :=
  match n, s with
  | O, _ => ""
  | S n', String c s' => String c (take_chars n' s')
  | S _, "" => ""
  end.

(** [s.trimStart()], [s.trimEnd()] and [s.trim()] *)
Fixpoint trimStart (s : string) : string :=
  match s with
  | String c s' => if isSpace c then trimStart s' else s
  | "" => ""
  end.

Fixpoint trimEnd (s : string) : string :=
  match s with
  | "" => ""
  | String c s' =>
      match trimEnd s' with
      | "" => if isSpace c then "" else String c ""
      | t => String c t
      end
  end.

Definition trim (s : string) : string := trimEnd (trimStart s).

(** [s.split(sep)] for a one-character separator. *)
Fixpoint split_on (sep : ascii) (s : string) : list string :=
  match s with
  | "" => [""]
  | String c s' =>
      if Ascii.eqb c sep then "" :: split_on sep s'
      else match split_on sep s' with
           | p :: ps => String c p :: ps
           | [] => [String c ""]
           end
  end.

(** [parts.join(sep)] *)
Fixpoint join (sep : string) (parts : list string) : string :=
  match parts with
  | [] => ""
  | [p] => p
  | p :: ps => p ++ sep ++ join sep ps
  end.

(** [s.replace(/c/g, r)] for the pattern classes used in the source: every
    character satisfying [p] is replaced by [r]. *)
Fixpoint replace_all (p : ascii -> bool) (r : ascii) (s : string) : string :=
  match s with
  | "" => ""
  | String c s' => String (if p c then r else c) (replace_all p r s')
  end.

(** Every character of [s] satisfies [p]. *)
Fixpoint all_chars (p : ascii -> bool) (s : string) : bool :=
  match s with
  | "" => true
  | String c s' => p c && all_chars p s'
  end.

(** Template-literal rendering of integers. *)
Definition show_Z (z : Z) : string := NilZero.string_of_int (Z.to_int z).
Definition show_nat (n : nat) : string := show_Z (Z.of_nat n).

(** [new Set(xs)] followed by a spread keeps the first occurrence of every
    element, in insertion order. *)
Definition set_add (keys : list string) (k : string) : list string :=
  if existsb (String.eqb k) keys then keys else (keys ++ [k])%list.

Definition dedupe (xs : list string) : list string :=
  fold_left set_add xs [].

(* ================================================================= *)
(** ** The rich-text document tree and [extractText] *)

(** A mark of a text node: [mark.type] and [mark.attrs?.href]. *)
Record mark := Mark { mark_type : string; mark_href : option string }.

(** [node.attrs]: the fields the code reads or writes. *)
Record attrs := Attrs {
  attrs_text : option string;
  attrs_url : option string;
  attrs_id : option string
}.

(** A node of the document as the backend sends it: [type], [text],
    [marks], [attrs] and [content]. *)
Inductive node : Type :=
  Node (type : string) (text : option string)
       (marks : option (list mark)) (attributes : option attrs)
       (content : option (list node)).

Definition node_type (n : node) : string :=
  match n with Node t _ _ _ _ => t end.
Definition node_text (n : node) : option string :=
  match n with Node _ t _ _ _ => t end.
Definition node_marks (n : node) : option (list mark) :=
  match n with Node _ _ m _ _ => m end.
Definition node_attrs (n : node) : option attrs :=
  match n with Node _ _ _ a _ => a end.
Definition node_content (n : node) : option (list node) :=
  match n with Node _ _ _ _ c => c end.

(** [node.attrs?.text] and [node.attrs?.url] *)
Definition attr_text (n : node) : option string :=
  match node_attrs n with Some a => attrs_text a | None => None end.
Definition attr_url (n : node) : option string :=
  match node_attrs n with Some a => attrs_url a | None => None end.

(** What a description or comment body can be: missing, a plain string, or
    a document object. *)
Inductive adf := AdfNull | AdfString (s : string) | AdfDoc (n : node).

Record extraction := Extraction { ex_text : string; ex_urls : list string }.

(** The inner loop over [node.marks]: pushes the href of every link mark
    whose href is truthy. *)
Definition link_hrefs (ms : option (list mark)) : list string :=
  match ms with
  | None => []
  | Some l =>
      flat_map (fun m =>
        if (mark_type m =? "link") && truthy_opt (mark_href m)
        then match mark_href m with Some h => [h] | None => [] end
        else []) l
  end.

Definition isMedia (t : string) : bool :=
  (t =? "mediaGroup") || (t =? "mediaSingle").

Definition isCard (t : string) : bool :=
  (t =? "inlineCard") || (t =? "blockCard") || (t =? "embedCard").

(** One iteration of the loop [for (const node of content.content)]: the
    running [text] and [urls] before the node, and after it.  [rec] is the
    recursive call [extractText(node, urls)]. *)
Definition visit (rec : node -> list string -> extraction)
    (acc : extraction) (n : node) : extraction :=
  let text := ex_text acc in
  let urls := ex_urls acc in
  if node_type n =? "text" then
    Extraction (text ++ or_else (node_text n) "")
               (urls ++ link_hrefs (node_marks n))%list
  else if node_type n =? "paragraph" then
    let result := rec n urls in
    Extraction (text ++ ex_text result ++ nl) (ex_urls result)
  else if node_type n =? "hardBreak" then
    Extraction (text ++ nl) urls
  else if node_type n =? "mention" then
    Extraction (text ++ "@" ++ or_else (attr_text n) "user") urls
  else if isMedia (node_type n) then
    Extraction (text ++ "[image attachment]" ++ nl) urls
  else if isCard (node_type n) then
    match attr_url n with
    | Some url =>
        if truthy url
        then Extraction (text ++ url ++ nl) (urls ++ [url])%list
        else acc
    | None => acc
    end
  else
    match node_content n with
    | Some _ =>
        let result := rec n urls in
        Extraction (text ++ ex_text result) (ex_urls result)
    | None => acc
    end.

(** [extractText] on an object.  The array [urls] is only ever appended to,
    and every caller passes an array of its own, so the accumulator is
    threaded as a value. *)
Fixpoint extractText_obj (content : node) (urls : list string)
  : extraction :=
  match node_content content with
  | None => Extraction "" urls
  | Some children =>
      fold_left (visit extractText_obj) children (Extraction "" urls)
  end.

Definition extractText (content : adf) (urls : list string) : extraction :=
  match content with
  | AdfNull => Extraction "" urls
  | AdfString s => Extraction s urls
  | AdfDoc n => extractText_obj n urls
  end.

Definition extractTextSimple (content : adf) : string :=
  ex_text (extractText content []).

(** *** The URLs a document carries, read off the tree

    The reference the walk is compared with: the truthy hrefs of the link
    marks of every text node and the truthy URL of every card node, of all
    the descendants of the root, in document order. *)
Definition own_urls (n : node) : list string :=
  if node_type n =? "text" then link_hrefs (node_marks n)
  else if isCard (node_type n) then
    match attr_url n with
    | Some url => if truthy url then [url] else []
    | None => []
    end
  else [].

Fixpoint node_urls (n : node) : list string :=
  (own_urls n ++
   match node_content n with
   | Some children => flat_map node_urls children
   | None => []
   end)%list.

Definition doc_urls (d : node) : list string :=
  match node_content d with
  | Some children => flat_map node_urls children
  | None => []
  end.

(** The node types whose children the loop never looks at. *)
Definition notDescended (t : string) : bool :=
  (t =? "text") || (t =? "hardBreak") || (t =? "mention")
  || isMedia t || isCard t.

(** No URL sits below a node whose children the loop does not look at. *)
Fixpoint reachable_urls_only (n : node) : bool :=
  match node_content n with
  | None => true
  | Some children =>
      if notDescended (node_type n)
      then match flat_map node_urls children with [] => true | _ => false end
      else forallb reachable_urls_only children
  end.

Definition doc_reachable_urls_only (d : node) : bool :=
  match node_content d with
  | None => true
  | Some children => forallb reachable_urls_only children
  end.

(** A caption with a link inside a [mediaSingle]. *)
Definition leaf (t : string) : node := Node t None None None None.

Definition linked_text (s href : string) : node :=
  Node "text" (Some s) (Some [Mark "link" (Some href)]) None None.

Definition media_caption_doc : node :=
  Node "doc" None None None (Some [
    Node "mediaSingle" None None None (Some [
      leaf "media";
      Node "caption" None None None
           (Some [linked_text "mockup" "https://www.figma.com/file/abc/x"])])]).

(* ================================================================= *)
(** ** Regular expressions with the [g] flag

    Each regular expression of the source is given as the function that
    tries it at the start of a string.  The quantifiers of these patterns
    are followed by characters outside their own class, so a greedy
    quantifier takes the longest run and backtracking into it never yields
    another match; the two exceptions, [[^\s]+] before [/browse/] and the
    lazy [.+?], are searched in the order the engine tries them. *)

(** The longest prefix of [s] made of characters satisfying [p], and what
    follows it. *)
Fixpoint span (p : ascii -> bool) (s : string) : string * string :=
  match s with
  | "" => ("", "")
  | String c s' =>
      if p c then let (a, b) := span p s' in (String c a, b) else ("", s)
  end.

(** [s] without the literal prefix [p], when it starts with it. *)
Fixpoint strip_prefix (p s : string) : option string :=
  match p, s with
  | "", _ => Some s
  | String a p', String b s' =>
      if Ascii.eqb a b then strip_prefix p' s' else None
  | String _ _, "" => None
  end.

(** [\b] between the previous character (none at index 0) and the next
    one (none at the end). *)
Definition wordBoundary (prev next : option ascii) : bool :=
  let w o := match o with Some c => isWord c | None => false end in
  xorb (w prev) (w next).

Definition head_char (s : string) : option ascii :=
  match s with String c _ => Some c | "" => None end.

Fixpoint last_char (s : string) : option ascii :=
  match s with
  | "" => None
  | String c "" => Some c
  | String _ s' => last_char s'
  end.

Definition isHyphen (c : ascii) : bool := Ascii.eqb c "-".

(** The characters a matched key is made of. *)
Definition isKeyChar (c : ascii) : bool := isUpper c || isDigit c || isHyphen c.

(** [regex.exec] repeated from [lastIndex] until it fails: the captures of
    the successive matches.  [at_start prev s] tries the pattern where the
    rest of the text is [s] and the character before it is [prev]; it
    returns the capture and the length of the whole match.  [skip] counts
    the characters of the last match still to be passed. *)
Fixpoint exec_all (at_start : option ascii -> string -> option (string * nat))
    (prev : option ascii) (s : string) (skip : nat) : list string :=
  match s with
  | "" => []
  | String c s' =>
      match skip with
      | S k => exec_all at_start (Some c) s' k
      | O =>
          match at_start prev s with
          | Some (capture, len) =>
              capture :: exec_all at_start (Some c) s' (len - 1)
          | None => exec_all at_start (Some c) s' 0
          end
      end
  end.

(* ================================================================= *)
(** ** The reference extractor *)

(** [[A-Z][A-Z0-9]+-\d+] at the start of [s]: the key and the rest. *)
Definition match_key (s : string) : option (string * string) :=
  match s with
  | String c s1 =>
      if isUpper c then
        let (proj, s2) := span (fun c => isUpper c || isDigit c) s1 in
        match proj, s2 with
        | String _ _, String dash s3 =>
            if Ascii.eqb dash "-" then
              let (num, s4) := span isDigit s3 in
              match num with
              | String _ _ => Some (String c proj ++ "-" ++ num, s4)
              | "" => None
              end
            else None
        | _, _ => None
        end
      else None
  | "" => None
  end.

(** [[^\s]+\/browse\/([A-Z][A-Z0-9]+-\d+)]: the key and the number of
    characters matched.  The longest run of non-blank characters is tried
    first. *)
Fixpoint browse_tail (s : string) : option (string * nat) :=
  match s with
  | "" => None
  | String c s' =>
      if isSpace c then None
      else match browse_tail s' with
           | Some (key, n) => Some (key, S n)
           | None =>
               match strip_prefix "/browse/" s' with
               | Some s'' =>
                   match match_key s'' with
                   | Some (key, _) => Some (key, 9 + String.length key)
                   | None => None
                   end
               | None => None
               end
           end
  end.

(** [/https?:\/\/[^\s]+\/browse\/([A-Z][A-Z0-9]+-\d+)/g] *)
Definition urlRegex (prev : option ascii) (s : string)
  : option (string * nat) :=
  match strip_prefix "http" s with
  | Some s1 =>
      let (s2, n) := match strip_prefix "s" s1 with
                     | Some r => (r, 5)
                     | None => (s1, 4)
                     end in
      match strip_prefix "://" s2 with
      | Some s3 =>
          match browse_tail s3 with
          | Some (key, m) => Some (key, n + 3 + m)
          | None => None
          end
      | None => None
      end
  | None => None
  end.

(** [/\b([A-Z][A-Z0-9]+-\d+)\b/g].  A shorter run of digits would end
    between two digits, where there is no word boundary, so the longest
    run is the only one that can be followed by [\b]. *)
Definition keyRegex (prev : option ascii) (s : string)
  : option (string * nat) :=
  if wordBoundary prev (head_char s) then
    match match_key s with
    | Some (key, rest) =>
        if wordBoundary (last_char key) (head_char rest)
        then Some (key, String.length key)
        else None
    | None => None
    end
  else None.

(** The two [while] loops: a key is added unless it is [currentKey]. *)
Definition add_unless (currentKey : option string)
    (keys : list string) (k : string) : list string :=
  match currentKey with
  | Some cur => if k =? cur then keys else set_add keys k
  | None => set_add keys k
  end.

Definition findJiraTicketKeys (text : string) (currentKey : option string)
  : list string :=
  if truthy text then
    let keys := fold_left (add_unless currentKey)
                          (exec_all urlRegex None text 0) [] in
    fold_left (add_unless currentKey) (exec_all keyRegex None text 0) keys
  else [].

(** The pattern of [findFigmaUrls]: [https://], an optional [www.],
    [figma.com/], one of [file], [design], [proto], a slash, a run of
    letters and digits, a slash, and then every character up to the first
    blank, closing parenthesis, closing angle or square bracket, double or
    single quote.  The capture kept is the whole match. *)
Definition figmaTailChar (c : ascii) : bool :=
  negb (isSpace c || (code c =? 41)%nat || (code c =? 62)%nat
        || (code c =? 93)%nat || (code c =? 34)%nat || (code c =? 39)%nat).

Definition figmaRegex (prev : option ascii) (s : string)
  : option (string * nat) :=
  match strip_prefix "https://" s with
  | Some s1 =>
      let s2 := match strip_prefix "www." s1 with
                | Some r => r
                | None => s1
                end in
      match strip_prefix "figma.com/" s2 with
      | Some s3 =>
          let kind := match strip_prefix "file" s3 with
                      | Some r => Some r
                      | None =>
                          match strip_prefix "design" s3 with
                          | Some r => Some r
                          | None => strip_prefix "proto" s3
                          end
                      end in
          match kind with
          | Some s4 =>
              match strip_prefix "/" s4 with
              | Some s5 =>
                  let (key, s6) := span isAlnum s5 in
                  match key, strip_prefix "/" s6 with
                  | String _ _, Some s7 =>
                      let (_, rest) := span figmaTailChar s7 in
                      let len := String.length s - String.length rest in
                      Some (take_chars len s, len)
                  | _, _ => None
                  end
              | None => None
              end
          | None => None
          end
      | None => None
      end
  | None => None
  end.

Definition findFigmaUrls (text : string) : list string :=
  if truthy text then dedupe (exec_all figmaRegex None text 0) else [].

(** *** [parseFigmaUrl]

    [new URL(url)] is the platform's parser, not code of the repository:
    the functions below take it as [URL_new], which returns the [pathname]
    and the decoded query pairs, or nothing when the constructor throws
    its [TypeError]. *)
Record URL := MkURL {
  pathname : string;
  searchParams : list (string * string)
}.

(** [searchParams.get(name)]: the value of the first pair called [name]. *)
Fixpoint searchParams_get (name : string) (ps : list (string * string))
  : option string :=
  match ps with
  | [] => None
  | (k, v) :: ps' => if k =? name then Some v else searchParams_get name ps'
  end.

Record DesignRef := MkDesignRef {
  fileKey : string;
  nodeId : option string
}.

Definition isKeyword (part : string) : bool :=
  (part =? "file") || (part =? "design") || (part =? "proto").

(** The [for] loop: [pathParts[i + 1]] at the first keyword, which is
    [undefined] when the keyword is the last part. *)
Fixpoint part_after_keyword (pathParts : list string) : option string :=
  match pathParts with
  | [] => None
  | part :: rest =>
      if isKeyword part then head rest else part_after_keyword rest
  end.

(** The body of [parseFigmaUrl] once [urlObj] is built. *)
Definition parseFigmaUrl_of (urlObj : URL) : option DesignRef :=
  let pathParts := split_on "/" (pathname urlObj) in
  match part_after_keyword pathParts with
  | Some fileKey =>
      if truthy fileKey then
        let rawNodeId := searchParams_get "node-id" (searchParams urlObj) in
        let nodeId := match rawNodeId with
                      | Some raw =>
                          if truthy raw
                          then Some (replace_all isHyphen ":" raw)
                          else None
                      | None => None
                      end in
        Some (MkDesignRef fileKey nodeId)
      else None
  | None => None
  end.

(** What a call can do: return a value or throw an error with a message. *)
Inductive outcome (A : Type) : Type :=
| Returns (a : A)
| Throws (message : string).
Arguments Returns {A} a.
Arguments Throws {A} message.

Definition parseFigmaUrl (URL_new : string -> option URL) (url : string)
  : outcome (option DesignRef) :=
  match URL_new url with
  | Some urlObj => Returns (parseFigmaUrl_of urlObj)
  | None => Throws "Invalid URL"
  end.

(* ================================================================= *)
(** ** User lookup and the comment builder *)

Record user := MkUser { accountId : string; displayName : string }.

(** [toLowerCase] on code units below 256: the letters [A-Z] and the
    accented capitals from 192 to 222, the multiplication sign apart. *)
Definition lower_char (c : ascii) : ascii :=
  if isUpper c || (between 192 222 c && negb (code c =? 215)%nat)
  then ascii_of_nat (code c + 32) else c.

Fixpoint toLowerCase (s : string) : string :=
  match s with
  | "" => ""
  | String c s' => String (lower_char c) (toLowerCase s')
  end.

(** Code that reads and extends [userCache], the map kept for the life of
    the process. *)
Definition Cached (A : Type) : Type := gmap string user -> A * gmap string user.

Definition cret {A} (a : A) : Cached A := fun cache => (a, cache).

Definition cbind {A B} (m : Cached A) (k : A -> Cached B) : Cached B :=
  fun cache => let (a, cache') := m cache in k a cache'.

Section Comments.

#[local] Notation "'do' x <- m ; k" := (cbind m (fun x => k))
  (at level 10, x name, m at level 100, k at level 200).

(** [fetchJira] on [/user/search]: the users found for a query, or nothing
    when the request fails. *)
Variable userSearch : string -> option (list user).

Definition searchUser (query : string) : Cached (option user) :=
  fun userCache =>
    let cacheKey := toLowerCase query in
    match userCache !! cacheKey with
    | Some cached => (Some cached, userCache)
    | None =>
        match userSearch query with
        | Some ((first :: _) as users) =>
            let exactMatch :=
              find (fun u => toLowerCase (displayName u) =? toLowerCase query)
                   users in
            let startsWithMatch :=
              find (fun u => startsWith (toLowerCase query)
                                        (toLowerCase (displayName u)))
                   users in
            let found :=
              match exactMatch, startsWithMatch with
              | Some u, _ => u
              | None, Some u => u
              | None, None => first
              end in
            let result := MkUser (accountId found) (displayName found) in
            (Some result, <[cacheKey := result]> userCache)
        | _ => (None, userCache)
        end
    end.

(** The lazy [(.+?)] followed by the literal [close]: the shortest run of
    one or more characters other than line terminators after which [close]
    stands.  The capture and the length of the run. *)
Fixpoint lazy_until (close : string) (s : string) : option string :=
  match s with
  | "" => None
  | String c s' =>
      if isLineTerminator c then None
      else if startsWith close s' then Some (String c "")
      else match lazy_until close s' with
           | Some capture => Some (String c capture)
           | None => None
           end
  end.

(** [[a-zA-Z] and the accented letters from 224 to 255]. *)
Definition isNameChar (c : ascii) : bool :=
  isUpper c || isLower c || between 224 255 c.

(** The rest of a mention after its first capital: letters, and any number
    of groups made of one blank and a capitalised word. *)
Fixpoint name_tail (s : string) : string :=
  match s with
  | "" => ""
  | String c s' =>
      if isNameChar c then String c (name_tail s')
      else if isSpace c then
        match s' with
        | String d s'' =>
            if isUpper d then String c (String d (name_tail s'')) else ""
        | "" => ""
        end
      else ""
  end.

(** Which alternative of the pattern matched, with its capture. *)
Inductive inline_match :=
| InlineCode (capture : string)
| Bold (capture : string)
| Italic (capture : string)
| MentionToken (capture : string).

(** The pattern of [parseInlineFormatting] tried at the start of [s]: a
    backtick span, then a double-asterisk span, then a single-asterisk
    span, then an at-sign followed by capitalised words.  Returns the
    alternative and the length of the whole match. *)
Definition inlineRegex (s : string) : option (inline_match * nat) :=
  let span_of (open : string) (mk : string -> inline_match) :=
    match strip_prefix open s with
    | Some r =>
        match lazy_until open r with
        | Some capture =>
            Some (mk capture, 2 * String.length open + String.length capture)
        | None => None
        end
    | None => None
    end in
  match span_of "`" InlineCode with
  | Some m => Some m
  | None =>
      match span_of "**" Bold with
      | Some m => Some m
      | None =>
          match span_of "*" Italic with
          | Some m => Some m
          | None =>
              match s with
              | String at_sign (String c r) =>
                  if Ascii.eqb at_sign "@" && isUpper c then
                    let name := String c (name_tail r) in
                    Some (MentionToken name, 1 + String.length name)
                  else None
              | _ => None
              end
          end
      end
  end.

Definition text_node (s : string) (ms : option (list mark)) : node :=
  Node "text" (Some s) ms None None.

(** The node pushed for a match; [whole] is [match[0]]. *)
Definition node_of_match (m : inline_match) (whole : string)
  : Cached node :=
  match m with
  | InlineCode capture => cret (text_node capture (Some [Mark "code" None]))
  | Bold capture => cret (text_node capture (Some [Mark "strong" None]))
  | Italic capture => cret (text_node capture (Some [Mark "em" None]))
  | MentionToken capture =>
      do found <- searchUser (trim capture) ;
      match found with
      | Some u =>
          cret (Node "mention" None None
                     (Some (Attrs (Some ("@" ++ displayName u)) None
                                  (Some (accountId u))))
                     None)
      | None => cret (text_node whole None)
      end
  end.

(** The text between [lastIndex] and the next match, pushed when it is not
    empty. *)
Definition plain_run (plain : string) : list node :=
  if truthy plain then [text_node plain None] else [].

(** The [while] loop over the matches.  [skip] counts the characters of
    the last match still to be passed, [plain] is the text read since
    [lastIndex]. *)
Fixpoint inline_loop (s : string) (skip : nat) (plain : string)
  : Cached (list node) :=
  match s with
  | "" => cret (plain_run plain)
  | String c s' =>
      match skip with
      | S k => inline_loop s' k ""
      | O =>
          match inlineRegex s with
          | Some (m, len) =>
              do n <- node_of_match m (take_chars len s) ;
              do rest <- inline_loop s' (len - 1) "" ;
              cret (plain_run plain ++ n :: rest)%list
          | None => inline_loop s' 0 (plain ++ String c "")
          end
      end
  end.

Definition parseInlineFormatting (text : string) : Cached (list node) :=
  do nodes <- inline_loop text 0 "" ;
  cret (match nodes with
        | [] => [text_node text None]
        | _ => nodes
        end).

(** [text.split(/\n\n+/)]: the pieces between the runs of two or more line
    feeds.  [in_run] holds while such a run is being passed. *)
Definition cons_head (c : ascii) (pieces : list string) : list string :=
  match pieces with
  | p :: ps => String c p :: ps
  | [] => [String c ""]
  end.

Fixpoint split_blank_lines (s : string) (in_run : bool) : list string :=
  match s with
  | "" => [""]
  | String c s' =>
      if in_run && Ascii.eqb c LF then split_blank_lines s' true
      else if Ascii.eqb c LF && startsWith nl s'
           then "" :: split_blank_lines s' true
           else cons_head c (split_blank_lines s' false)
  end.

Definition isBulletList (lines : list string) : bool :=
  forallb (fun l => startsWith "- " (trimStart l)) lines.

Definition hardBreak : node := Node "hardBreak" None None None None.

Definition paragraph (children : list node) : node :=
  Node "paragraph" None None None (Some children).

(** The list items of a bullet block. *)
Fixpoint bullet_items (lines : list string) : Cached (list node) :=
  match lines with
  | [] => cret []
  | line :: rest =>
      let itemText := drop_chars 2 (trimStart line) in
      do inlineContent <- parseInlineFormatting itemText ;
      do items <- bullet_items rest ;
      cret (Node "listItem" None None None (Some [paragraph inlineContent])
            :: items)
  end.

(** The content of a paragraph block: [first] holds at [i = 0]. *)
Fixpoint paragraph_lines (lines : list string) (first : bool)
  : Cached (list node) :=
  match lines with
  | [] => cret []
  | line :: rest =>
      do inlineNodes <- parseInlineFormatting line ;
      do more <- paragraph_lines rest false ;
      cret ((if first then [] else [hardBreak]) ++ inlineNodes ++ more)%list
  end.

Fixpoint blocks_content (blocks : list string) : Cached (list node) :=
  match blocks with
  | [] => cret []
  | block :: rest =>
      let trimmed := trim block in
      if truthy trimmed then
        let lines := split_on LF trimmed in
        if isBulletList lines then
          do listItems <- bullet_items lines ;
          do more <- blocks_content rest ;
          cret (Node "bulletList" None None None (Some listItems) :: more)
        else
          do paragraphContent <- paragraph_lines lines true ;
          do more <- blocks_content rest ;
          cret (paragraph paragraphContent :: more)
      else blocks_content rest
  end.

Definition buildCommentADF (text : string) : Cached (list node) :=
  do content <- blocks_content (split_blank_lines text false) ;
  cret (match content with
        | [] => [paragraph [text_node text None]]
        | _ => content
        end).

End Comments.

(** The body posted for a comment: [{ version: 1, type: "doc", content }]. *)
Definition comment_doc (content : list node) : adf :=
  AdfDoc (Node "doc" None None None (Some content)).

(* ================================================================= *)
(** ** The outside world: network, clock and file system *)

(** The [retry-after] header of a response: missing, present but not a
    number, or a number of seconds (taken as an integer). *)
Inductive header := Missing | NotNumeric (raw : string) | Numeric (n : Z).

(** A JavaScript number as far as the header is concerned. *)
Inductive number := NaN | Num (z : Z).

(** [Number(response.headers.get("retry-after"))]: [get] gives [null] for a
    missing header, and [Number(null)] is 0. *)
Definition Number_of (h : header) : number :=
  match h with
  | Missing => Num 0
  | NotNumeric _ => NaN
  | Numeric n => Num n
  end.

(** [x || d]: [NaN] and 0 are falsy. *)
Definition number_or (x : number) (d : Z) : Z :=
  match x with
  | NaN => d
  | Num z => if (z =? 0)%Z then d else z
  end.

(** [Math.round(a / b)] for integers [a] and [b > 0]: halves go up. *)
Definition round_div (a b : Z) : Z := ((2 * a + b) / (2 * b))%Z.

Record bbox := MkBbox { width : Z; height : Z }.

Record child := MkChild {
  child_id : string;
  child_name : option string;
  child_type : string;
  child_bbox : option bbox
}.

Record document := MkDocument {
  doc_name : option string;
  absoluteBoundingBox : option bbox;
  children : option (list child)
}.

(** The fields the code reads from the JSON bodies of the design service:
    [name], [lastModified], [nodes[id].document] and [images[id]]. *)
Record json := MkJson {
  json_name : option string;
  json_lastModified : option string;
  json_nodes : option (gmap string (option document));
  json_images : option (gmap string (option string))
}.

Record response := MkResponse {
  status : Z;
  retry_after : header;
  json_body : option json;   (* nothing when [json()] throws *)
  buffer : string
}.

(** [response.ok] *)
Definition ok (r : response) : bool :=
  (200 <=? status r)%Z && (status r <=? 299)%Z.

Inductive fetch_result := Responds (r : response) | Rejects (message : string).

(** The part of an issue the report is built from. *)
Record comment := MkComment {
  comment_id : string;
  comment_author : option string;
  comment_created : string;
  comment_body : adf
}.

Record attachment := MkAttachment {
  att_filename : string;
  att_mimeType : option string;
  att_size : Z;
  att_content : string
}.

Record issue_ref := MkIssueRef {
  ref_key : string;
  ref_summary : option string;
  ref_status : option string;
  ref_issuetype : option string
}.

Record issuelink := MkIssueLink {
  link_inward : string;
  link_outward : string;
  outwardIssue : option issue_ref;
  inwardIssue : option issue_ref
}.

Record issue := MkIssue {
  summary : string;
  status_name : option string;
  issuetype_name : option string;
  priority_name : option string;
  assignee : option string;
  reporter : option string;
  sprint : option string;
  parent : option issue_ref;
  subtasks : option (list issue_ref);
  description : adf;
  comments : option (list comment);
  attachments : option (list attachment);
  issuelinks : option (list issuelink)
}.

(** A call [fetchJira(`/issue/${key}`)], with or without
    [?expand=renderedFields]. *)
Record jira_request := JiraGet { req_key : string; req_expand : bool }.

Definition endpoint (r : jira_request) : string :=
  "/issue/" ++ req_key r ++ (if req_expand r then "?expand=renderedFields" else "").

Record world := World {
  requested : list string;            (* the URLs passed to [fetch] *)
  slept : list Z;                     (* the arguments of [sleep] *)
  files : gmap string string;         (* the files and their content *)
  dirs : gset string;                 (* the directories *)
  jira_log : list jira_request        (* the calls of [fetchJira] *)
}.

Definition IO (A : Type) : Type := world -> outcome A * world.

Definition ret {A} (a : A) : IO A := fun w => (Returns a, w).

Definition throw {A} (message : string) : IO A := fun w => (Throws message, w).

Definition bind {A B} (m : IO A) (k : A -> IO B) : IO B :=
  fun w => match m w with
           | (Returns a, w') => k a w'
           | (Throws e, w') => (Throws e, w')
           end.

(** [try { m } catch (e) { handler(e.message) }] *)
Definition try_catch {A} (m : IO A) (handler : string -> IO A) : IO A :=
  fun w => match m w with
           | (Returns a, w') => (Returns a, w')
           | (Throws e, w') => handler e w'
           end.

(** What [figmaFetchWithRetry] resolves to: the response, or the object
    [{ rateLimited: true, retryAfter }]. *)
Inductive fetched := Response (r : response) | RateLimited (retryAfter : string).

(** [fetched.ok]: missing on the rate-limit object, hence falsy. *)
Definition fetched_ok (f : fetched) : bool :=
  match f with
  | Response r => ok r
  | RateLimited _ => false
  end.

(** [Number(response.headers.get("retry-after")) || 60] *)
Definition retryAfterSec (response : response) : Z :=
  number_or (Number_of (retry_after response)) 60.

Definition waitTime (retryAfterSec : Z) : string :=
  if (3600 <? retryAfterSec)%Z
  then show_Z (round_div retryAfterSec 3600) ++ " hours (monthly limit reached)"
  else show_Z retryAfterSec ++ " seconds".

Record image := MkImage {
  image_buffer : string;
  image_path : string;
  image_name : option string
}.

Record design := MkDesign {
  design_name : option string;
  design_lastModified : option string;
  design_url : string;
  design_nodeId : option string;
  design_nodeName : option string;
  design_images : list image
}.

Inductive design_result := DesignError (error : string) | Design (d : design).

(** *** Paths and the disk

    [path.join] of Node on POSIX.  One step of its [normalizeString]:
    [kept] holds the segments kept so far, the last one first.  An empty
    segment and a dot are skipped; two dots drop the last segment kept,
    or are kept themselves, when [allowAboveRoot], if there is none or it
    is two dots already; any other segment is kept. *)
Definition normalize_segment (allowAboveRoot : bool) (kept : list string)
    (segment : string) : list string :=
  if (segment =? "") || (segment =? ".") then kept
  else if segment =? ".." then
    match kept with
    | last :: before =>
        if last =? ".." then (if allowAboveRoot then ".." :: kept else kept)
        else before
    | [] => if allowAboveRoot then [".."] else []
    end
  else segment :: kept.

Definition normalizeString (path : string) (allowAboveRoot : bool) : string :=
  join "/" (rev (fold_left (normalize_segment allowAboveRoot)
                           (split_on "/" path) [])).

(** The last character of [s] is [c]. *)
Fixpoint ends_in (c : ascii) (s : string) : bool :=
  match s with
  | "" => false
  | String a "" => Ascii.eqb a c
  | String _ s' => ends_in c s'
  end.

(** [path.normalize(path)] *)
Definition path_normalize (path : string) : string :=
  if path =? "" then "."
  else
    let isAbsolute := startsWith "/" path in
    let trailingSeparator := ends_in "/" path in
    let normalized := normalizeString path (negb isAbsolute) in
    if normalized =? "" then
      if isAbsolute then "/" else if trailingSeparator then "./" else "."
    else (if isAbsolute then "/" else "") ++ normalized
         ++ (if trailingSeparator then "/" else "").

(** [path.join(dir, name)]: empty arguments are left out. *)
Definition path_join (dir name : string) : string :=
  if dir =? "" then (if name =? "" then "." else path_normalize name)
  else if name =? "" then path_normalize dir
  else path_normalize (dir ++ "/" ++ name).

(** The directory that holds the entry [path], for a path as [path.join]
    returns it: the text before its last slash, the root for an entry of
    the root, and the current directory for a path without slash. *)
Definition parent_dir (path : string) : string :=
  let above := join "/" (removelast (split_on "/" path)) in
  if above =? "" then (if startsWith "/" path then "/" else ".") else above.

(** The directories above [path], the outermost first: what
    [mkdirSync(path, { recursive: true })] creates before [path]. *)
Fixpoint segment_prefixes (done : list string) (segments : list string)
  : list string :=
  match segments with
  | [] => []
  | segment :: rest =>
      join "/" (done ++ [segment])
      :: segment_prefixes (done ++ [segment]) rest
  end.

Definition dirs_above (path : string) : list string :=
  List.filter (fun d => truthy d)
              (segment_prefixes [] (removelast (split_on "/" path))).

(** The entry a path names: a slash at the end, allowed after the name of
    a directory, is left out. *)
Fixpoint drop_last (s : string) : string :=
  match s with
  | "" => ""
  | String _ "" => ""
  | String a s' => String a (drop_last s')
  end.

Definition entry (path : string) : string :=
  if ends_in "/" path && negb (path =? "/") then drop_last path else path.

(** The directories that are always there: the root, the current
    directory and the directories above it. *)
Definition always_dir (path : string) : bool :=
  (path =? "/")
  || forallb (fun segment => (segment =? ".") || (segment =? ".."))
             (split_on "/" path).

(** The message of an error of [fs]. *)
Definition fs_error (code syscall path : string) : string :=
  code ++ ", " ++ syscall ++ " '" ++ path ++ "'".

(** [id.replace(/[^a-zA-Z0-9-]/g, "_")] *)
Definition sanitize (id : string) : string :=
  replace_all (fun c => negb (isAlnum c || isHyphen c)) "_" id.

Definition export_filename (fileKey id : string) : string :=
  fileKey ++ "_" ++ sanitize id ++ ".png".

Definition isExportable (c : child) : bool :=
  existsb (String.eqb (child_type c)) ["FRAME"; "COMPONENT"; "GROUP"; "SECTION"].

Definition hasSize (c : child) : bool :=
  match child_bbox c with
  | Some cbb => (100 <=? width cbb)%Z && (100 <=? height cbb)%Z
  | None => false
  end.

Definition isLarge (bb : option bbox) : bool :=
  match bb with
  | Some b => (1500 <? width b)%Z || (2000 <? height b)%Z
  | None => false
  end.

(** [images && images[id]], kept when truthy. *)
Definition image_url (images : option (gmap string (option string)))
    (id : string) : option string :=
  match images with
  | Some m =>
      match m !! id with
      | Some (Some url) => if truthy url then Some url else None
      | _ => None
      end
  | None => None
  end.

Section Aggregation.

(** The platform and the two services, as the code sees them:
    [fetch k url] answers the request number [k] of the run, [jira k r] the
    call number [k] of [fetchJira]. *)
Variable fetch : nat -> string -> fetch_result.
Variable jira : nat -> jira_request -> outcome issue.
Variable figmaConfig : option string.
Variable URL_new : string -> option URL.
Variable encodeURIComponent : string -> string.
Variable toLocaleString : string -> string.
Variables attachmentDir figmaExportsDir : string.

#[local] Notation "'do' x <- m ; k" := (bind m (fun x => k))
  (at level 10, x name, m at level 100, k at level 200).

Definition fetch_url (url : string) : IO response :=
  fun w =>
    let w' := World (requested w ++ [url]) (slept w) (files w) (dirs w)
                    (jira_log w) in
    match fetch (length (requested w)) url with
    | Responds r => (Returns r, w')
    | Rejects e => (Throws e, w')
    end.

Definition sleep (ms : Z) : IO unit :=
  fun w => (Returns tt,
            World (requested w) (slept w ++ [ms]) (files w) (dirs w)
                  (jira_log w)).

(** The disk, as the paths the program has written: [path] is a file,
    [path] is a directory.  Paths are compared as texts, so an entry has
    one name; a path that ends with a slash names no file. *)
Definition is_file (w : world) (path : string) : bool :=
  negb (ends_in "/" path) && bool_decide (is_Some (files w !! path)).

Definition is_dir (w : world) (path : string) : bool :=
  always_dir (entry path) || bool_decide (entry path ∈ dirs w).

Definition existsSync (path : string) : IO bool :=
  fun w => (Returns (is_file w path || is_dir w path), w).

(** [fs.mkdirSync(path, { recursive: true })]: creates [path] and the
    directories above it, and fails for the empty path and when one of
    them is a file. *)
Definition mkdirSync (path : string) : IO unit :=
  fun w =>
    if path =? "" then
      (Throws (fs_error "ENOENT: no such file or directory" "mkdir" path), w)
    else if existsb (is_file w) (dirs_above path) then
      (Throws (fs_error "ENOTDIR: not a directory" "mkdir" path), w)
    else if is_file w path then
      (Throws (fs_error "EEXIST: file already exists" "mkdir" path), w)
    else
      (Returns tt,
       World (requested w) (slept w) (files w)
             (list_to_set (dirs_above path ++ [entry path]) ∪ dirs w)
             (jira_log w)).

(** [fs.writeFileSync(path, data)]: fails for the empty path, when [path]
    names a directory, and when the directory that holds it is missing or
    is a file. *)
Definition writeFileSync (path data : string) : IO unit :=
  fun w =>
    if path =? "" then
      (Throws (fs_error "ENOENT: no such file or directory" "open" path), w)
    else if ends_in "/" path || is_dir w path then
      (Throws (fs_error "EISDIR: illegal operation on a directory" "open"
                        path), w)
    else if is_dir w (parent_dir path) then
      (Returns tt,
       World (requested w) (slept w) (<[path := data]> (files w))
             (dirs w) (jira_log w))
    else if is_file w (parent_dir path) then
      (Throws (fs_error "ENOTDIR: not a directory" "open" path), w)
    else
      (Throws (fs_error "ENOENT: no such file or directory" "open" path), w).

Definition fetchJira (r : jira_request) : IO issue :=
  fun w =>
    (jira (length (jira_log w)) r,
     World (requested w) (slept w) (files w) (dirs w) (jira_log w ++ [r])).

(** [response.json()] *)
Definition json_of (r : response) : IO json :=
  match json_body r with
  | Some j => ret j
  | None => throw "invalid json response body"
  end.

(** The [while (true)] loop of [figmaFetchWithRetry]; [fuel] bounds the
    number of iterations, and nothing is returned when it runs out. *)
Fixpoint retry_loop (fuel : nat) (url : string) (maxRetries : nat)
    (maxWaitSec : Z) (attempts : nat) (w : world)
  : option (outcome fetched * world) :=
  match fuel with
  | O => None
  | S fuel' =>
      match figmaConfig with
      | None => Some (Throws "Cannot read properties of null", w)
      | Some _ =>
          match fetch_url url w with
          | (Throws e, w1) => Some (Throws e, w1)
          | (Returns response, w1) =>
              if ok response then Some (Returns (Response response), w1)
              else if (status response =? 429)%Z then
                let retryAfterSec := retryAfterSec response in
                if (maxWaitSec <? retryAfterSec)%Z
                   || (maxRetries <=? attempts)%nat
                then Some (Returns (RateLimited (waitTime retryAfterSec)), w1)
                else
                  match sleep (retryAfterSec * 1000) w1 with
                  | (_, w2) =>
                      retry_loop fuel' url maxRetries maxWaitSec
                                 (S attempts) w2
                  end
              else Some (Returns (Response response), w1)
          end
      end
  end.

(** [figmaFetchWithRetry(url, options, { maxRetries, maxWaitSec })].  The
    loop ends within [maxRetries + 1] iterations, as proved below, so the
    fuel given here is never used up. *)
Definition figmaFetchWithRetry (url : string) (maxRetries : nat)
    (maxWaitSec : Z) : IO fetched :=
  fun w =>
    match retry_loop (S maxRetries) url maxRetries maxWaitSec 0 w with
    | Some r => r
    | None => (Throws "", w)
    end.

(** The default [{ maxRetries = 3, maxWaitSec = 30 }]. *)
Definition figmaFetch (url : string) : IO fetched :=
  figmaFetchWithRetry url 3 30.

(** The download of one image of the batch: [fetch], and when the response
    is ok, [writeFileSync] and the entry pushed on [result.images]. *)
Definition save_image (fileKey id : string) (name : option string)
    (imageUrl : string) : IO (list image) :=
  do downloadRes <- fetch_url imageUrl ;
  if ok downloadRes then
    let buffer := buffer downloadRes in
    let filename := export_filename fileKey id in
    let imagePath := path_join figmaExportsDir filename in
    do _ <- writeFileSync imagePath buffer ;
    ret [MkImage buffer imagePath name]
  else ret [].

(** The loop [for (const childId of childIds)]: a failed download is
    skipped. *)
Fixpoint export_children (fileKey : string) (exportableChildren : list child)
    (images : option (gmap string (option string)))
    (childIds : list string) : IO (list image) :=
  match childIds with
  | [] => ret []
  | childId :: rest =>
      do saved <-
        match image_url images childId with
        | Some imageUrl =>
            let childInfo :=
              find (fun c => child_id c =? childId) exportableChildren in
            let name :=
              match childInfo with
              | Some c => Some (or_else (child_name c) childId)
              | None => Some childId
              end in
            try_catch (save_image fileKey childId name imageUrl)
                      (fun _ => ret [])
        | None => ret []
        end ;
      do more <- export_children fileKey exportableChildren images rest ;
      ret (saved ++ more)%list
  end.

Definition images_endpoint (fileKey ids : string) : string :=
  "https://api.figma.com/v1/images/" ++ fileKey ++ "?ids="
  ++ encodeURIComponent ids ++ "&format=png&scale=2".

(** The export of a node whose document is known. *)
Definition export_node (fileKey nodeId : string) (doc : document)
  : IO (list image) :=
  let exportableChildren :=
    match children doc with
    | Some cs => filter (fun c => isExportable c && hasSize c) cs
    | None => []
    end in
  if isLarge (absoluteBoundingBox doc)
     && (0 <? length exportableChildren)%nat
  then
    let childIds := map child_id (firstn 8 exportableChildren) in
    let idsParam := join "," childIds in
    do imgRes <- figmaFetch (images_endpoint fileKey idsParam) ;
    match imgRes with
    | Response r =>
        if ok r then
          do imgData <- json_of r ;
          export_children fileKey exportableChildren (json_images imgData)
                          childIds
        else ret []
    | RateLimited _ => ret []
    end
  else
    do imgRes <- figmaFetch (images_endpoint fileKey nodeId) ;
    match imgRes with
    | Response r =>
        if ok r then
          do imgData <- json_of r ;
          match image_url (json_images imgData) nodeId with
          | Some imageUrl => save_image fileKey nodeId (doc_name doc) imageUrl
          | None => ret []
          end
        else ret []
    | RateLimited _ => ret []
    end.

(** The body of the [try] block of [fetchFigmaDesign]. *)
Definition fetchFigmaDesign_try (url fileKey : string)
    (nodeId : option string) : IO design_result :=
  do fileRes <-
    figmaFetch ("https://api.figma.com/v1/files/" ++ fileKey ++ "?depth=1") ;
  match fileRes with
  | RateLimited retryAfter =>
      ret (DesignError ("Figma API rate limit exceeded. Try again in "
                        ++ retryAfter ++ " seconds."))
  | Response r =>
      if negb (ok r) then
        if (status r =? 403)%Z then
          ret (DesignError
                 "Figma access denied. Check your token or file permissions.")
        else if (status r =? 404)%Z then
          ret (DesignError "Figma file not found. Check the URL.")
        else ret (DesignError ("Figma API error: " ++ show_Z (status r)))
      else
        do fileData <- json_of r ;
        let result nodeName images :=
          Design (MkDesign (json_name fileData) (json_lastModified fileData)
                           url nodeId nodeName images) in
        do present <- existsSync figmaExportsDir ;
        do _ <- (if present then ret tt else mkdirSync figmaExportsDir) ;
        match nodeId with
        | Some id =>
            if negb (truthy id) then ret (result None []) else
            do nodeRes <-
              figmaFetch ("https://api.figma.com/v1/files/" ++ fileKey
                          ++ "/nodes?ids=" ++ encodeURIComponent id
                          ++ "&depth=2") ;
            match nodeRes with
            | Response nr =>
                if ok nr then
                  do nodeData <- json_of nr ;
                  match json_nodes nodeData with
                  | Some nodes =>
                      match nodes !! id with
                      | Some (Some doc) =>
                          do images <- export_node fileKey id doc ;
                          ret (result (doc_name doc) images)
                      | _ => ret (result None [])
                      end
                  | None => ret (result None [])
                  end
                else ret (result None [])
            | RateLimited _ => ret (result None [])
            end
        | None => ret (result None [])
        end
  end.

Definition fetchFigmaDesign (url : string) : IO design_result :=
  match figmaConfig with
  | None =>
      ret (DesignError
             "Figma not configured. Run: node ~/.config/figma-mcp/setup.js")
  | Some _ =>
      match parseFigmaUrl URL_new url with
      | Throws e => throw e
      | Returns None => ret (DesignError "Invalid Figma URL")
      | Returns (Some parsed) =>
          try_catch
            (fetchFigmaDesign_try url (fileKey parsed) (nodeId parsed))
            (fun message =>
               ret (DesignError ("Figma fetch failed: " ++ message)))
      end
  end.

Definition downloadAttachment (url filename issueKey : string) : IO string :=
  let issueDir := path_join attachmentDir issueKey in
  do present <- existsSync issueDir ;
  do _ <- (if present then ret tt else mkdirSync issueDir) ;
  let localPath := path_join issueDir filename in
  do cached <- existsSync localPath ;
  if cached then ret localPath
  else
    do response <- fetch_url url ;
    if negb (ok response) then
      throw ("Failed to download " ++ filename ++ ": "
             ++ show_Z (status response))
    else
      do _ <- writeFileSync localPath (buffer response) ;
      ret localPath.

(** *** [getTicket] *)

(** The local variables [output], [allText], [allUrls],
    [downloadedImages] and [figmaDesigns]. *)
Record locals := Locals {
  output : string;
  allText : string;
  allUrls : list string;
  downloadedImages : list string;
  figmaDesigns : list design
}.

Definition print (l : locals) (s : string) : locals :=
  Locals (output l ++ s) (allText l) (allUrls l) (downloadedImages l)
         (figmaDesigns l).

(** [allText += " " + text] and [allUrls = allUrls.concat(urls)] *)
Definition pool (l : locals) (text : string) (urls : list string) : locals :=
  Locals (output l) (allText l ++ " " ++ text) (allUrls l ++ urls)
         (downloadedImages l) (figmaDesigns l).

Record ticket := Ticket {
  ticket_text : string;
  jiraImages : list string;
  ticket_designs : list design
}.

(** [for (const x of xs)] with the variables the body updates. *)
Fixpoint for_each {A S : Type} (xs : list A) (body : S -> A -> IO S) (s : S)
  : IO S :=
  match xs with
  | [] => ret s
  | x :: xs' => do s' <- body s x ; for_each xs' body s'
  end.

(** [try { m }] with the error kept as a value for the [catch]. *)
Definition attempt {A} (m : IO A) : IO (outcome A) :=
  fun w => let (o, w') := m w in (Returns o, w').

(** [text && text.trim()] *)
Definition has_text (text : string) : bool := truthy text && truthy (trim text).

(** A template literal prints a missing value as [undefined]. *)
Definition show_opt (o : option string) : string :=
  match o with Some s => s | None => "undefined" end.

Definition nonempty {A} (o : option (list A)) : list A :=
  match o with Some l => l | None => [] end.

Definition status_line (i : issue) : string :=
  "Status: " ++ or_else (status_name i) "Unknown" ++ " | "
  ++ "Type: " ++ or_else (issuetype_name i) "Unknown" ++ " | "
  ++ "Priority: " ++ or_else (priority_name i) "None" ++ nl
  ++ "Assignee: " ++ or_else (assignee i) "Unassigned" ++ nl ++ nl.

(** The comments of a parent, linked or referenced ticket; only the parent
    adds them to [allText]. *)
Definition foreign_comments (l : locals) (cs : list comment) (pooled : bool)
  : locals :=
  fold_left (fun l c =>
    let author := or_else (comment_author c) "Unknown" in
    let created := toLocaleString (comment_created c) in
    let commentText := extractText (comment_body c) [] in
    let l := print l ("**" ++ author ++ "** - " ++ created ++ nl) in
    let l := print l (ex_text commentText ++ nl ++ nl) in
    if pooled then pool l (ex_text commentText) [] else l) cs l.

Definition heading (fields : issue) (issueKey : string) : string :=
  "# " ++ issueKey ++ ": " ++ summary fields ++ nl ++ nl
  ++ "**Status:** " ++ or_else (status_name fields) "Unknown" ++ nl
  ++ "**Type:** " ++ or_else (issuetype_name fields) "Unknown" ++ nl
  ++ "**Priority:** " ++ or_else (priority_name fields) "None" ++ nl
  ++ "**Assignee:** " ++ or_else (assignee fields) "Unassigned" ++ nl
  ++ "**Reporter:** " ++ or_else (reporter fields) "Unknown" ++ nl
  ++ match sprint fields with
     | Some name => "**Sprint:** " ++ name ++ nl
     | None => ""
     end
  ++ match parent fields with
     | Some p => "**Parent:** " ++ ref_key p ++ " - "
                 ++ or_else (ref_summary p) "" ++ nl
     | None => ""
     end
  ++ match nonempty (subtasks fields) with
     | [] => ""
     | sts => "**Subtasks:** " ++ show_nat (length sts) ++ nl
     end.

Definition parent_stage (fields : issue) (l : locals) : IO locals :=
  match parent fields with
  | None => ret l
  | Some p =>
      let l := print l (nl ++ "## Parent Ticket: " ++ ref_key p ++ nl ++ nl) in
      do fetched <- attempt (fetchJira (JiraGet (ref_key p) true)) ;
      match fetched with
      | Returns pf =>
          let l := print l ("**" ++ summary pf ++ "**" ++ nl) in
          let l := print l (status_line pf) in
          let parentDesc := extractText (description pf) [] in
          let l :=
            if has_text (ex_text parentDesc) then
              pool (print l ("### Description" ++ nl ++ ex_text parentDesc
                             ++ nl))
                   (ex_text parentDesc) (ex_urls parentDesc)
            else l in
          let l :=
            match nonempty (comments pf) with
            | [] => l
            | cs =>
                foreign_comments
                  (print l (nl ++ "### Comments (" ++ show_nat (length cs)
                            ++ ")" ++ nl))
                  cs true
            end in
          ret (print l (nl ++ "---" ++ nl ++ nl))
      | Throws message =>
          ret (print l ("_Could not fetch parent details: " ++ message
                        ++ "_" ++ nl ++ nl))
      end
  end.

Definition comments_stage (fields : issue) (l : locals) : locals :=
  match nonempty (comments fields) with
  | [] => l
  | cs =>
      fold_left (fun l c =>
        let author := or_else (comment_author c) "Unknown" in
        let created := toLocaleString (comment_created c) in
        let commentResult := extractText (comment_body c) [] in
        let l := print l ("### " ++ author ++ " - " ++ created ++ " (id: "
                          ++ comment_id c ++ ")" ++ nl) in
        let l := print l (ex_text commentResult ++ nl ++ nl) in
        pool l (ex_text commentResult) (ex_urls commentResult))
        cs
        (print l (nl ++ "## Comments (" ++ show_nat (length cs) ++ ")"
                  ++ nl ++ nl))
  end.

Definition attachments_stage (fields : issue) (issueKey : string)
    (downloadImages : bool) (l : locals) : IO locals :=
  match nonempty (attachments fields) with
  | [] => ret l
  | atts =>
      for_each atts (fun l att =>
        let isImage := match att_mimeType att with
                       | Some m => startsWith "image/" m
                       | None => false
                       end in
        let l := print l ("- **" ++ att_filename att ++ "** ("
                          ++ show_opt (att_mimeType att) ++ ", "
                          ++ show_Z (round_div (att_size att) 1024) ++ "KB)"
                          ++ nl) in
        if downloadImages && isImage then
          do saved <- attempt (downloadAttachment (att_content att)
                                                  (att_filename att) issueKey) ;
          match saved with
          | Returns localPath =>
              let l := print l ("  Local: " ++ localPath ++ nl) in
              ret (Locals (output l) (allText l) (allUrls l)
                          (downloadedImages l ++ [localPath])
                          (figmaDesigns l))
          | Throws message =>
              ret (print l ("  Download failed: " ++ message ++ nl))
          end
        else ret (print l ("  URL: " ++ att_content att ++ nl)))
        (print l (nl ++ "## Attachments (" ++ show_nat (length atts) ++ ")"
                  ++ nl ++ nl))
  end.

Definition subtasks_stage (fields : issue) (l : locals) : IO locals :=
  match nonempty (subtasks fields) with
  | [] => ret l
  | sts =>
      for_each sts (fun l subtask =>
        let l := print l ("### " ++ ref_key subtask ++ ": "
                          ++ or_else (ref_summary subtask) "" ++ nl) in
        let l := print l ("Status: " ++ or_else (ref_status subtask) "Unknown"
                          ++ " | ") in
        let l := print l ("Type: " ++ or_else (ref_issuetype subtask) "Subtask"
                          ++ nl) in
        do fetched <- attempt (fetchJira (JiraGet (ref_key subtask) false)) ;
        match fetched with
        | Returns sf =>
            let l := match assignee sf with
                     | Some name => print l ("Assignee: " ++ name ++ nl)
                     | None => l
                     end in
            let subtaskDesc := extractText (description sf) [] in
            let l :=
              if has_text (ex_text subtaskDesc) then
                let desc :=
                  if (300 <? String.length (ex_text subtaskDesc))%nat
                  then take_chars 300 (ex_text subtaskDesc) ++ "..."
                  else ex_text subtaskDesc in
                print l (nl ++ desc ++ nl)
              else l in
            ret (print l nl)
        | Throws _ => ret (print l nl)
        end)
        (print l (nl ++ "## Subtasks (" ++ show_nat (length sts) ++ ")"
                  ++ nl ++ nl))
  end.

(** A linked issue as collected for the report: key, relation, summary. *)
Record linked := Linked {
  linked_key : string;
  relation : string;
  linked_summary : string
}.

Definition linkedIssues (links : list issuelink) : list linked :=
  flat_map (fun link =>
    (match outwardIssue link with
     | Some o => [Linked (ref_key o) (link_outward link)
                         (or_else (ref_summary o) "")]
     | None => []
     end ++
     match inwardIssue link with
     | Some i => [Linked (ref_key i) (link_inward link)
                         (or_else (ref_summary i) "")]
     | None => []
     end)%list) links.

Definition maxLinkedToFetch : nat := 10.
Definition maxReferencedToFetch : nat := 10.

(** The description and comments of a linked or referenced ticket. *)
Definition foreign_details (l : locals) (f : issue) : locals :=
  let desc := extractText (description f) [] in
  let l :=
    if has_text (ex_text desc)
    then print l ("#### Description" ++ nl ++ ex_text desc ++ nl)
    else l in
  match nonempty (comments f) with
  | [] => l
  | cs =>
      foreign_comments
        (print l (nl ++ "#### Comments (" ++ show_nat (length cs) ++ ")" ++ nl))
        cs false
  end.

Definition linked_stage (fields : issue) (l : locals) : IO locals :=
  match nonempty (issuelinks fields) with
  | [] => ret l
  | links =>
      let l := print l (nl ++ "## Linked Issues (" ++ show_nat (length links)
                        ++ ")" ++ nl ++ nl) in
      let all := linkedIssues links in
      do l <- for_each (firstn maxLinkedToFetch all) (fun l linked =>
        let l := print l ("### " ++ relation linked ++ ": "
                          ++ linked_key linked ++ nl) in
        let l := print l ("**" ++ linked_summary linked ++ "**" ++ nl ++ nl) in
        do fetched <- attempt (fetchJira (JiraGet (linked_key linked) true)) ;
        match fetched with
        | Returns lf =>
            let l := print l (status_line lf) in
            let l := foreign_details l lf in
            ret (print l (nl ++ "---" ++ nl ++ nl))
        | Throws message =>
            ret (print l ("_Could not fetch details: " ++ message ++ "_"
                          ++ nl ++ nl))
        end) l ;
      if (maxLinkedToFetch <? length all)%nat then
        ret (print l (nl ++ "_...and "
                      ++ show_nat (length all - maxLinkedToFetch)
                      ++ " more linked issues_" ++ nl))
      else ret l
  end.

(** The set [alreadyFetched]. *)
Definition alreadyFetched (fields : issue) (issueKey : string) : gset string :=
  {[ issueKey ]}
  ∪ match parent fields with Some p => {[ ref_key p ]} | None => ∅ end
  ∪ list_to_set (map ref_key (nonempty (subtasks fields)))
  ∪ list_to_set
      (flat_map (fun link =>
         (match outwardIssue link with Some o => [ref_key o] | None => [] end
          ++ match inwardIssue link with Some i => [ref_key i] | None => [] end
         )%list) (nonempty (issuelinks fields))).

Definition ticketsToFetch (fields : issue) (issueKey text : string)
  : list string :=
  let referencedKeys := findJiraTicketKeys text (Some issueKey) in
  filter (fun key => negb (bool_decide (key ∈ alreadyFetched fields issueKey)))
         referencedKeys.

Definition referenced_stage (fields : issue) (issueKey : string) (l : locals)
  : IO locals :=
  match ticketsToFetch fields issueKey (allText l) with
  | [] => ret l
  | keys =>
      let l := print l (nl ++ "## Referenced Tickets ("
                        ++ show_nat (length keys) ++ ")" ++ nl ++ nl) in
      let l := print l ("_Auto-detected from description/comments_" ++ nl
                        ++ nl) in
      do l <- for_each (firstn maxReferencedToFetch keys) (fun l refKey =>
        do fetched <- attempt (fetchJira (JiraGet refKey true)) ;
        match fetched with
        | Returns rf =>
            let l := print l ("### " ++ refKey ++ ": " ++ summary rf ++ nl) in
            let l := print l (status_line rf) in
            let l := foreign_details l rf in
            let refDesc := extractText (description rf) [] in
            let refFigmaUrls := findFigmaUrls (ex_text refDesc) in
            let l :=
              match refFigmaUrls with
              | [] => l
              | _ => pool (print l ("**Figma:** " ++ join ", " refFigmaUrls
                                    ++ nl))
                          (ex_text refDesc) []
              end in
            ret (print l (nl ++ "---" ++ nl ++ nl))
        | Throws message =>
            ret (print l ("### " ++ refKey ++ nl ++ "_Could not fetch: "
                          ++ message ++ "_" ++ nl ++ nl))
        end) l ;
      if (maxReferencedToFetch <? length keys)%nat then
        ret (print l ("_...and "
                      ++ show_nat (length keys - maxReferencedToFetch)
                      ++ " more referenced tickets_" ++ nl))
      else ret l
  end.

Definition allFigmaUrls (l : locals) : list string :=
  let textUrls := findFigmaUrls (allText l) in
  let embeddedFigmaUrls :=
    filter (fun u => truthy u && includes "figma.com" u) (allUrls l) in
  dedupe (textUrls ++ embeddedFigmaUrls).

Definition figma_stage (fetchFigma : bool) (l : locals) : IO locals :=
  match figmaConfig with
  | Some _ =>
      if fetchFigma then
        match allFigmaUrls l with
        | [] => ret l
        | urls =>
            for_each urls (fun l url =>
              do result <- fetchFigmaDesign url ;
              match result with
              | DesignError error =>
                  ret (print (print l ("- " ++ url ++ nl))
                             ("  **Error:** " ++ error ++ nl ++ nl))
              | Design d =>
                  if truthy_opt (design_name d) then
                    let l := print l ("### " ++ show_opt (design_name d)
                      ++ (if truthy_opt (design_nodeName d)
                          then " - " ++ show_opt (design_nodeName d) else "")
                      ++ nl) in
                    let l := print l ("- URL: " ++ url ++ nl) in
                    let l := print l ("- Last Modified: "
                      ++ show_opt (design_lastModified d) ++ nl) in
                    let l :=
                      match design_images d with
                      | [] => l
                      | imgs =>
                          let l := print l ("- Exported "
                            ++ show_nat (length imgs) ++ " image(s):" ++ nl) in
                          let l := fold_left (fun l img =>
                            print l ("  - " ++ show_opt (image_name img) ++ ": "
                                     ++ image_path img ++ nl)) imgs l in
                          Locals (output l) (allText l) (allUrls l)
                                 (downloadedImages l) (figmaDesigns l ++ [d])
                      end in
                    ret (print l nl)
                  else ret (print l ("- " ++ url ++ " (could not fetch)" ++ nl
                                     ++ nl))
              end)
              (print l (nl ++ "## Figma Designs (" ++ show_nat (length urls)
                        ++ ")" ++ nl ++ nl))
        end
      else ret l
  | None => ret l
  end.

Definition getTicket (issueKey : string) (downloadImages fetchFigma : bool)
  : IO ticket :=
  do fields <- fetchJira (JiraGet issueKey true) ;
  let descResult := extractText (description fields) [] in
  let l := Locals (heading fields issueKey ++ nl ++ "## Description" ++ nl
                   ++ nl
                   ++ (if truthy (ex_text descResult) then ex_text descResult
                       else "_No description_")
                   ++ nl)
                  (ex_text descResult) (ex_urls descResult) [] [] in
  do l <- parent_stage fields l ;
  let l := comments_stage fields l in
  do l <- attachments_stage fields issueKey downloadImages l ;
  do l <- subtasks_stage fields l ;
  do l <- linked_stage fields l ;
  do l <- referenced_stage fields issueKey l ;
  do l <- figma_stage fetchFigma l ;
  ret (Ticket (output l) (downloadedImages l) (figmaDesigns l)).

End Aggregation.

(* ================================================================= *)
(** ** Reference notions the claims are stated with *)

(** A reading of [new URL(url)] for addresses of the form
    [scheme://host/path?query#fragment]: the path is kept as written (an
    empty one becomes [/]) and the query is cut at [&] and at the first [=]
    of each pair.  A string without a scheme makes the constructor throw.
    Dot segments, escapes and the other normalisations of the platform are
    not modelled, and the reading gives nothing on the shapes it does not
    cover (a scheme that is not followed by [://], an empty host): the
    statements about [parseFigmaUrl] hold for every constructor, and this
    one only serves the examples. *)
Definition isSchemeChar (c : ascii) : bool :=
  isAlnum c || (code c =? 43)%nat || (code c =? 45)%nat || (code c =? 46)%nat.

Definition notIn (stops : string) (c : ascii) : bool :=
  negb (includes (String c "") stops).

Definition query_pair (p : string) : string * string :=
  let (k, v) := span (notIn "=") p in
  (k, match v with String _ v' => v' | "" => "" end).

Definition URL_basic (url : string) : option URL :=
  let (scheme, rest) := span isSchemeChar url in
  match scheme, strip_prefix "://" rest with
  | String c _, Some rest1 =>
      if isUpper c || isLower c then
        let (host, rest2) := span (notIn "/?#") rest1 in
        let (path, rest3) := span (notIn "?#") rest2 in
        let query := match rest3 with
                     | String q r => if Ascii.eqb q "?"
                                     then fst (span (notIn "#") r) else ""
                     | "" => ""
                     end in
        if truthy host then
          Some (MkURL (if truthy path then path else "/")
                      (map query_pair
                           (filter (fun p => truthy p) (split_on "&" query))))
        else None
      else None
  | _, _ => None
  end.

(** [nodeId] as computed from the query. *)
Definition nodeId_of (urlObj : URL) : option string :=
  match searchParams_get "node-id" (searchParams urlObj) with
  | Some raw => if truthy raw then Some (replace_all isHyphen ":" raw) else None
  | None => None
  end.

(** The path has a keyword part, the first one being directly followed by
    the non-empty part [key]. *)
Definition key_follows_first_keyword (pathParts : list string) (key : string)
  : Prop :=
  exists before kw after,
    pathParts = (before ++ kw :: key :: after)%list /\
    Forall (fun p => isKeyword p = false) before /\
    isKeyword kw = true /\ key <> "".

(** The world after further requests and waits. *)
Definition after (w : world) (urls : list string) (waits : list Z) : world :=
  World (requested w ++ urls) (slept w ++ waits) (files w) (dirs w)
        (jira_log w).

(** A service that answers the successive requests with the responses of
    a list, and fails once the list is used up. *)
Definition script (rs : list response) : nat -> string -> fetch_result :=
  fun k _ => match rs !! k with
             | Some r => Responds r
             | None => Rejects "no more responses"
             end.

Definition resp429 (retry : header) : response := MkResponse 429 retry None "".
Definition resp200 : response := MkResponse 200 Missing None "ok".

Definition empty_world : world := World [] [] ∅ ∅ [].

(** The [retry-after] headers for which [|| 60] applies. *)
Definition defaulted (h : header) : bool :=
  match h with
  | Missing => true
  | NotNumeric _ => true
  | Numeric n => (n =? 0)%Z
  end.

(** A 429 response whose header is defaulted, rewritten to carry
    [retry-after: 60]. *)
Definition as_sixty (r : response) : response :=
  if (status r =? 429)%Z && defaulted (retry_after r)
  then MkResponse (status r) (Numeric 60) (json_body r) (buffer r)
  else r.

Definition as_sixty_result (fr : fetch_result) : fetch_result :=
  match fr with
  | Responds r => Responds (as_sixty r)
  | Rejects e => Rejects e
  end.

(** What the loop returns on a response it does not retry. *)
Definition ends_with (r : response) : fetched :=
  if ok r then Response r
  else if (status r =? 429)%Z then RateLimited (waitTime (retryAfterSec r))
  else Response r.

(** The response is a 429 that the loop waits for and retries. *)
Definition retried (maxRetries : nat) (maxWaitSec : Z) (attempts : nat)
    (r : response) : bool :=
  negb (ok r) && (status r =? 429)%Z
  && negb ((maxWaitSec <? retryAfterSec r)%Z || (maxRetries <=? attempts)%nat).

(** [encodeURIComponent] on code units below 256: letters, digits and the
    marks [-_.!~*'()] are kept, every other character becomes the escape
    of its UTF-8 bytes. *)
Definition hex_digit (n : nat) : ascii :=
  ascii_of_nat (if (n <? 10)%nat then 48 + n else 55 + n).

Definition escape_byte (n : nat) : string :=
  String "%" (String (hex_digit (n / 16)) (String (hex_digit (n mod 16)) "")).

Definition isUnreservedMark (c : ascii) : bool :=
  includes (String c "") "-_.!~*'()".

Fixpoint encodeURIComponent_latin1 (s : string) : string :=
  match s with
  | "" => ""
  | String c s' =>
      (if isAlnum c || isUnreservedMark c then String c ""
       else if (code c <? 128)%nat then escape_byte (code c)
       else escape_byte (192 + code c / 64) ++ escape_byte (128 + code c mod 64))
      ++ encodeURIComponent_latin1 s'
  end.

(** A design service with one file, one node of 800 by 600, and its
    rendered image. *)
Definition shop_url : string :=
  "https://www.figma.com/file/abc123/Shop?node-id=1-2".

Definition json_response (j : json) : response := MkResponse 200 Missing (Some j) "".

Definition shop_service : nat -> string -> fetch_result :=
  fun _ url =>
    if url =? "https://api.figma.com/v1/files/abc123?depth=1" then
      Responds (json_response
        (MkJson (Some "Shop") (Some "2024-05-01T10:00:00Z") None None))
    else if url =? "https://api.figma.com/v1/files/abc123/nodes?ids=1%3A2&depth=2" then
      Responds (json_response
        (MkJson None None
           (Some {[ "1:2" := Some (MkDocument (Some "Home")
                                     (Some (MkBbox 800 600)) None) ]})
           None))
    else if url =? "https://api.figma.com/v1/images/abc123?ids=1%3A2&format=png&scale=2" then
      Responds (json_response
        (MkJson None None None
           (Some {[ "1:2" := Some "https://cdn.example.net/img/1" ]})))
    else if url =? "https://cdn.example.net/img/1" then
      Responds (MkResponse 200 Missing None "PNG of today")
    else Responds (MkResponse 404 Missing None "").

Definition exports : string := "/home/dev/.config/figma-mcp/exports".

(** A world in which the export of the node is already on disk. *)
Definition exported_world : world :=
  World [] [] {[ "/home/dev/.config/figma-mcp/exports/abc123_1_2.png"
                 := "PNG of last week" ]}
        {[ exports ]} [].
















(** The computation leaves a component of the world as it finds it,
    whether it returns or throws. *)
Definition preserves {X A : Type} (proj : world -> X) (m : IO A) : Prop :=
  forall w, proj (snd (m w)) = proj w.

(** It leaves the files alone; it makes no call of [fetchJira]. *)
Abbreviation quiet := (preserves files).
Abbreviation silent := (preserves jira_log).

(** The computation always returns, and the calls of [fetchJira] it makes
    are [reqs]. *)
Definition logs {A : Type} (m : IO A) (reqs : list jira_request) : Prop :=
  forall w, exists a w',
    m w = (Returns a, w') /\ jira_log w' = (jira_log w ++ reqs)%list.

(** The requests of the stages that follow declared relations. *)
Definition parent_requests (fields : issue) : list jira_request :=
  match parent fields with
  | Some p => [JiraGet (ref_key p) true]
  | None => []
  end.

Definition subtask_requests (fields : issue) : list jira_request :=
  map (fun s => JiraGet (ref_key s) false) (nonempty (subtasks fields)).

Definition linked_requests (fields : issue) : list jira_request :=
  map (fun l => JiraGet (linked_key l) true)
      (firstn maxLinkedToFetch (linkedIssues (nonempty (issuelinks fields)))).

(** The keys of the declared relations. *)
Definition declared_keys (fields : issue) : list string :=
  (match parent fields with Some p => [ref_key p] | None => [] end
   ++ map ref_key (nonempty (subtasks fields))
   ++ map linked_key (linkedIssues (nonempty (issuelinks fields))))%list.

(** A ticket with one subtask that is also a linked issue, and a
    description that names the subtask and another ticket. *)
Definition text_doc (s : string) : adf :=
  AdfDoc (Node "doc" None None None
               (Some [paragraph [text_node s None]])).

Definition plain_issue (title : string) (body : adf) : issue :=
  MkIssue title (Some "Open") (Some "Task") None None None None None None
          body None None None.

Definition story : issue :=
  MkIssue "Checkout page" (Some "Open") (Some "Story") None None None None
          None
          (Some [MkIssueRef "PROJ-2" (Some "Cart total") None None])
          (text_doc "Needs PROJ-2 and PROJ-3, see PROJ-3.")
          None None
          (Some [MkIssueLink "is blocked by" "blocks"
                   (Some (MkIssueRef "PROJ-2" (Some "Cart total") None None))
                   None]).

Definition tracker : nat -> jira_request -> outcome issue :=
  fun _ r => if req_key r =? "PROJ-1" then Returns story
             else Returns (plain_issue (req_key r) AdfNull).

Definition attachmentsDir : string := "/home/dev/.config/jira-mcp/attachments".

Definition story_run : outcome ticket * world :=
  getTicket shop_service tracker (Some "figd_token") URL_basic
            encodeURIComponent_latin1 (fun created => created)
            attachmentsDir exports "PROJ-1" true true empty_world.

(** A ticket whose description links to a design with an address that has
    no scheme. *)
Definition mockup_issue : issue :=
  plain_issue "Landing page"
    (AdfDoc (Node "doc" None None None
       (Some [paragraph [text_node "See the " None;
                         linked_text "mockup" "figma.com/file/abc123/Shop"]]))).

Definition mockup_tracker : nat -> jira_request -> outcome issue :=
  fun _ r => if req_key r =? "PROJ-9" then Returns mockup_issue
             else Throws "Jira API error: 404 Not Found".

Definition mockup_run : outcome ticket * world :=
  getTicket shop_service mockup_tracker (Some "figd_token") URL_basic
            encodeURIComponent_latin1 (fun created => created)
            attachmentsDir exports "PROJ-9" true true empty_world.

(** The computation returns, whatever the world. *)
Definition returns {A : Type} (m : IO A) : Prop :=
  forall w, exists a w', m w = (Returns a, w').

(** [t] is made of the [pieces], in order, with blanks between them. *)
Inductive glued : list string -> string -> Prop :=
| glued_one p : glued [p] p
| glued_more p sep ps t :
    all_chars isSpace sep = true -> glued ps t ->
    glued (p :: ps) (p ++ sep ++ t).

(** The nodes of a paragraph whose lines have no markup, and the text they
    are read as. *)
Fixpoint line_nodes (lines : list string) (first : bool) : list node :=
  match lines with
  | [] => []
  | line :: rest =>
      ((if first then [] else [hardBreak])
       ++ text_node line None :: line_nodes rest false)%list
  end.

Fixpoint lines_text (lines : list string) (first : bool) : string :=
  match lines with
  | [] => ""
  | line :: rest => (if first then "" else nl) ++ line ++ lines_text rest false
  end.

(** *** Plain text and its normal form

    The text has no backtick, no asterisk, and no at-sign directly
    followed by a capital. *)
Fixpoint no_markup (s : string) : bool :=
  match s with
  | "" => true
  | String c s' =>
      negb (Ascii.eqb c "`") && negb (Ascii.eqb c "*")
      && negb (Ascii.eqb c "@"
               && match s' with String d _ => isUpper d | "" => false end)
      && no_markup s'
  end.

(** The blocks of a text that are not blank, trimmed. *)
Definition nonblank_blocks (T : string) : list string :=
  List.filter truthy (map trim (split_blank_lines T false)).

Definition no_bullet_block (T : string) : bool :=
  forallb (fun b => negb (isBulletList (split_on LF b))) (nonblank_blocks T).

Fixpoint cat (parts : list string) : string :=
  match parts with
  | [] => ""
  | p :: ps => p ++ cat ps
  end.

(** The text with its blank blocks dropped and the others trimmed and
    ended by one line feed. *)
Definition normalized (T : string) : string :=
  match nonblank_blocks T with
  | [] => T ++ nl
  | bs => cat (map (fun b => b ++ nl) bs)
  end.

(** The text without its blanks. *)
Fixpoint strip_blanks (s : string) : string :=
  match s with
  | "" => ""
  | String c s' => if isSpace c then strip_blanks s' else String c (strip_blanks s')
  end.

(** What the comment built for a text reads as. *)
Definition decode_encode (userSearch : string -> option (list user))
    (userCache : gmap string user) (T : string) : string :=
  ex_text (extractText
             (comment_doc (fst (buildCommentADF userSearch T userCache))) []).

(** A paragraph of plain lines. *)
Definition plain_paragraph (b : string) : node :=
  paragraph (line_nodes (split_on LF b) true).

Definition two_paragraphs : string :=
  "  Checkout fails on empty cart " ++ nl ++ "since Monday." ++ nl ++ nl ++ nl
  ++ "Ask @ops for the logs.  ".

Definition bullets : string := "- one" ++ nl ++ "- two".

(** ** Invariants used in the proofs *)

(** What one node contributes to [urls]. *)
Definition contributes (n : node) (l : list string) : Prop :=
  l `sublist_of` node_urls n /\ (reachable_urls_only n = true -> l = node_urls n).

(** What the walk below a node appends to [urls]. *)
Definition walk_spec (n : node) : Prop :=
  forall urls, exists l,
    ex_urls (extractText_obj n urls) = (urls ++ l)%list /\
    l `sublist_of` doc_urls n /\
    (doc_reachable_urls_only n = true -> l = doc_urls n).

Definition visit_spec (n : node) : Prop :=
  forall acc, exists l,
    ex_urls (visit extractText_obj acc n) = (ex_urls acc ++ l)%list /\
    contributes n l.

(** A paragraph with a link, a smart link and a list item with a link that
    occurs twice. *)
Definition linked_doc : node :=
  Node "doc" None None None (Some [
    paragraph [text_node "see " None;
               linked_text "the spec" "https://example.org/spec";
               hardBreak];
    Node "inlineCard" None None
         (Some (Attrs None (Some "https://www.figma.com/file/abc/x") None)) None;
    Node "bulletList" None None None (Some [
      Node "listItem" None None None (Some [
        paragraph [linked_text "again" "https://example.org/spec"]])])]).

(** The invariant of the two loops that fill the set [keys]. *)
Record keys_ok (currentKey : option string) (keys : list string) : Prop := {
  keys_nodup : NoDup keys;
  keys_not_current : forall k, k ∈ keys -> Some k <> currentKey;
  keys_shape : Forall (fun k => all_chars isKeyChar k = true) keys
}.

(** What a run of the loop leaves of the world: requests and waits are
    added, within the bounds, and nothing else changes. *)
Record retry_effect (url : string) (budget : nat) (w w' : world) : Prop := {
  effect_requests :
    exists n, n <= budget + 1 /\ requested w' = (requested w ++ repeat url n)%list;
  effect_waits :
    exists waits, length waits <= budget /\ slept w' = (slept w ++ waits)%list;
  effect_files : files w' = files w;
  effect_dirs : dirs w' = dirs w;
  effect_jira : jira_log w' = jira_log w
}.



(** A user directory with one entry. *)
Definition directory (query : string) : option (list user) :=
  if query =? "Ann Lee" then Some [MkUser "5b10" "Ann Lee"] else Some [].

(* ================================================================= *)
(** ** Further notions: occurrences, documents, sources *)

(** [c] occurs in [s] as a run of consecutive characters. *)
Definition occurs_in (c s : string) : Prop := exists a b, s = a ++ c ++ b.

(** The document whose children are [children]. *)
Definition doc_of (children : list node) : node :=
  Node "doc" None None None (Some children).

(** What one pass of the loop of [extractText] adds for the nodes [cs]. *)
Definition children_text (cs : list node) : string :=
  ex_text (fold_left (visit extractText_obj) cs (Extraction "" [])).

Definition children_urls (cs : list node) : list string :=
  ex_urls (fold_left (visit extractText_obj) cs (Extraction "" [])).

(** The walk below [n] reads the same text whatever [urls] holds, and
    appends to it. *)
Definition appends_only (n : node) : Prop :=
  forall urls,
    extractText_obj n urls
    = Extraction (ex_text (extractText_obj n []))
                 (urls ++ ex_urls (extractText_obj n [])).

(** The shape of an address matched by the pattern of [findFigmaUrls]. *)
Definition design_address (r : string) : Prop :=
  exists www kind key tail,
    r = "https://" ++ www ++ "figma.com/" ++ kind ++ "/" ++ key ++ "/" ++ tail /\
    (www = "" \/ www = "www.") /\
    isKeyword kind = true /\
    key <> "" /\
    all_chars isAlnum key = true /\
    all_chars figmaTailChar tail = true.

(** The time slept over a list of waits, in milliseconds. *)
Definition total_wait (ws : list Z) : Z := fold_right Z.add 0%Z ws.

(** The markdown a node of [parseInlineFormatting] stands for: its text
    between the delimiters of its mark. *)
Definition mark_delimiter (ms : option (list mark)) : string :=
  match ms with
  | Some [m] =>
      if mark_type m =? "code" then "`"
      else if mark_type m =? "strong" then "**"
      else if mark_type m =? "em" then "*"
      else ""
  | _ => ""
  end.

Definition node_source (n : node) : string :=
  match node_text n with
  | Some t => mark_delimiter (node_marks n) ++ t ++ mark_delimiter (node_marks n)
  | None => ""
  end.

Definition nodes_source (ns : list node) : string := cat (map node_source ns).

(** The text a match of the pattern of [parseInlineFormatting] covers. *)
Definition match_source (m : inline_match) : string :=
  match m with
  | InlineCode capture => "`" ++ capture ++ "`"
  | Bold capture => "**" ++ capture ++ "**"
  | Italic capture => "*" ++ capture ++ "*"
  | MentionToken capture => "@" ++ capture
  end.

(** A text node that is not empty. *)
Definition text_nonempty (n : node) : Prop :=
  exists t, node_type n = "text" /\ node_text n = Some t /\ t <> "".

Definition capture_of (m : inline_match) : string :=
  match m with
  | InlineCode capture | Bold capture | Italic capture
  | MentionToken capture => capture
  end.

(** The shape of a comment document: inline nodes are texts, mentions and
    hard breaks; a paragraph holds at least one of them; a block is a
    paragraph or a bullet list whose items hold one paragraph each. *)
Definition inline_node (n : node) : Prop :=
  node_content n = None /\
  (node_type n = "text" \/ node_type n = "mention" \/ node_type n = "hardBreak").

Definition comment_paragraph (n : node) : Prop :=
  exists cs, n = paragraph cs /\ cs <> [] /\ Forall inline_node cs.

Definition comment_item (n : node) : Prop :=
  exists p, n = Node "listItem" None None None (Some [p]) /\
            comment_paragraph p.

Definition comment_block (n : node) : Prop :=
  comment_paragraph n \/
  exists items, n = Node "bulletList" None None None (Some items) /\
                items <> [] /\ Forall comment_item items.

(** A name that [path.join] appends as it is: not empty, without slash,
    and neither a dot nor two dots.  A directory path that [path.join]
    leaves as it is: such names between slashes, after a leading slash or
    not, and no slash at the end. *)
Definition no_slash (s : string) : bool :=
  all_chars (fun c => negb (Ascii.eqb c "/")) s.

Definition plain_segment (s : string) : bool :=
  truthy s && no_slash s && negb (s =? ".") && negb (s =? "..").

Definition clean_dir (d : string) : bool :=
  match split_on "/" d with
  | first :: rest =>
      (if first =? "" then match rest with [] => false | _ => true end
       else plain_segment first)
      && forallb plain_segment rest
  | [] => false
  end.

(** [mkdirSync] cannot make the directory: the path is empty, or a file
    stands where a directory is needed. *)
Definition blocked (w : world) (path : string) : bool :=
  (path =? "") || existsb (is_file w) (dirs_above path ++ [path]).

(** The path of an attachment on disk, and what it is for a path not to
    exist. *)
Definition attachment_path (attachmentDir issueKey filename : string) : string :=
  attachmentDir ++ "/" ++ issueKey ++ "/" ++ filename.

Definition absent (path : string) (w : world) : Prop :=
  files w !! path = None /\ path ∉ dirs w.

(** The computation makes at most [nreq] requests and [nslp] waits, of at
    most thirty seconds each, and what it returns satisfies [post]. *)
Definition costs {A : Type} (nreq nslp : nat) (post : A -> Prop) (m : IO A)
  : Prop :=
  forall w, exists reqs waits,
    requested (m w).2 = (requested w ++ reqs)%list /\
    slept (m w).2 = (slept w ++ waits)%list /\
    length reqs <= nreq /\ length waits <= nslp /\
    Forall (fun ms => (ms <= 30000)%Z) waits /\
    match (m w).1 with
    | Returns a => post a
    | Throws _ => True
    end.

Definition at_most_images (n : nat) (r : design_result) : Prop :=
  match r with
  | Design d => length (design_images d) <= n
  | DesignError _ => True
  end.

(** The request for the file of a design, an answer to it that ends the
    call, and the error reported for such an answer. *)
Definition file_endpoint (fileKey : string) : string :=
  "https://api.figma.com/v1/files/" ++ fileKey ++ "?depth=1".

Definition refused (answer : fetch_result) : Prop :=
  match answer with
  | Responds r => ok r = false /\ status r <> 429%Z
  | Rejects _ => True
  end.

Definition refusal (answer : fetch_result) : string :=
  match answer with
  | Responds r =>
      if (status r =? 403)%Z
      then "Figma access denied. Check your token or file permissions."
      else if (status r =? 404)%Z then "Figma file not found. Check the URL."
      else "Figma API error: " ++ show_Z (status r)
  | Rejects message => "Figma fetch failed: " ++ message
  end.

(** What a run leaves outside the tracker: the requests made, the waits,
    the files and the directories. *)
Definition surroundings (w : world)
  : list string * list Z * gmap string string * gset string :=
  (requested w, slept w, files w, dirs w).

(** The path exists, as a file or as a directory; a computation that
    removes nothing: files stay files and directories stay directories. *)
Definition on_disk (path : string) (w : world) : Prop :=
  is_Some (files w !! path) \/ path ∈ dirs w.

Definition keeps_disk {A : Type} (m : IO A) : Prop :=
  forall w path,
    (is_Some (files w !! path) -> is_Some (files (m w).2 !! path)) /\
    (path ∈ dirs w -> path ∈ dirs (m w).2).

(** A path of [downloadedImages]: it exists on disk, and it is what
    [path.join] makes of the attachment directory, the key of the issue
    and the file name of an image attached to the ticket. *)
Definition is_image_attachment (att : attachment) : bool :=
  match att_mimeType att with
  | Some m => startsWith "image/" m
  | None => false
  end.

Definition downloaded (attachmentDir issueKey : string)
    (atts : list attachment) (w : world) (path : string) : Prop :=
  (is_file w path || is_dir w path) = true /\
  exists att,
    att ∈ atts /\ is_image_attachment att = true /\
    path = path_join (path_join attachmentDir issueKey) (att_filename att).

(** A stage that leaves [downloadedImages] as it is. *)
Definition same_images (l : locals) (m : IO locals) : Prop :=
  forall w l', (m w).1 = Returns l' -> downloadedImages l' = downloadedImages l.

(** A ticket with one image attached, fetched from a service that serves
    the image. *)
Definition photo_issue : issue :=
  MkIssue "Broken banner" (Some "Open") (Some "Bug") None None None None None
          None AdfNull None
          (Some [MkAttachment "shot.png" (Some "image/png") 2048
                              "https://jira.example.net/att/1"])
          None.

Definition photo_run : outcome ticket * world :=
  getTicket (script [resp200]) (fun _ _ => Returns photo_issue) None URL_basic
            encodeURIComponent_latin1 (fun created => created)
            attachmentsDir exports "PROJ-7" true true empty_world.

Definition ticket_of (o : outcome ticket) : ticket :=
  match o with
  | Returns t => t
  | Throws _ => Ticket "" [] []
  end.

(* ================================================================= *)
(** ** The tool handlers: replies and description updates *)

(** [s.replace(needle, "")] for a string [needle]: the first occurrence of
    [needle] is removed. *)
Fixpoint replace_first (needle s : string) : string :=
  if startsWith needle s then drop_chars (String.length needle) s
  else match s with
       | "" => ""
       | String c s' => String c (replace_first needle s')
       end.

(** The two tests of the [filter] of [removeText]: a text node whose text
    is missing, empty or blank, and a paragraph without children. *)
Definition blank_text (n : node) : bool :=
  (node_type n =? "text")
  && negb (match node_text n with
           | Some t => truthy t && truthy (trim t)
           | None => false
           end).

Definition empty_paragraph (n : node) : bool :=
  (node_type n =? "paragraph")
  && match node_content n with
     | Some (_ :: _) => false
     | _ => true
     end.

Definition kept (n : node) : bool :=
  negb (blank_text n) && negb (empty_paragraph n).

(** The function passed to [map] in [removeText], with the recursive call
    on [node.content], and [removeText] itself. *)
Fixpoint removeText_node (needle : string) (n : node) : node :=
  match n with
  | Node type text marks attributes content =>
      let text' :=
        match text with
        | Some t => if (type =? "text") && truthy t
                    then Some (replace_first needle t) else text
        | None => None
        end in
      let content' :=
        match content with
        | Some cs => Some (List.filter kept (map (removeText_node needle) cs))
        | None => None
        end in
      Node type text' marks attributes content'
  end.

Definition removeText (needle : string) (nodes : list node) : list node :=
  List.filter kept (map (removeText_node needle) nodes).

(** A node that [removeText] would keep, with all its descendants; a node
    none of whose texts contains [needle]. *)
Fixpoint clean (n : node) : bool :=
  kept n
  && match node_content n with
     | Some cs => forallb clean cs
     | None => true
     end.

Fixpoint needle_free (needle : string) (n : node) : bool :=
  match node_text n with
  | Some t => negb (includes needle t)
  | None => true
  end
  && match node_content n with
     | Some cs => forallb (needle_free needle) cs
     | None => true
     end.

(** The quote of [jira_reply_comment] and the content of the reply:
    [originalAuthor] is [original.author?.displayName || "Unknown"]. *)
Definition quote_of (originalText : string) : string :=
  if (200 <? String.length originalText)%nat
  then take_chars 200 originalText ++ "..."
  else originalText.

Definition replyContent (authorName originalAccountId : option string)
    (originalBody : adf) (reply : string) : list node :=
  let originalAuthor := or_else authorName "Unknown" in
  let originalText := trim (extractTextSimple originalBody) in
  let quote := quote_of originalText in
  ((if truthy_opt originalAccountId then
      [paragraph [Node "mention" None None
                       (Some (Attrs (Some ("@" ++ originalAuthor)%string) None
                                    originalAccountId))
                       None]]
    else [])
   ++ [Node "blockquote" None None None
            (Some [paragraph [text_node quote None]]);
       paragraph [text_node reply None]])%list.

(* ================================================================= *)
(** ** The tool handlers: status transitions *)

(** A transition as the tracker lists it: [t.id], [t.name] and
    [t.to?.name]. *)
Record transition := MkTransition {
  tr_id : string;
  tr_name : option string;
  tr_to : option string
}.

(** The two calls of [fetchJira] on [/issue/KEY/transitions]: the GET that
    lists the transitions and the POST that executes one. *)
Inductive tracker_call := GetTransitions | PostTransition (id : string).

(** Code that calls the tracker: the calls made so far are threaded. *)
Definition Tracker (A : Type) : Type :=
  list tracker_call -> outcome A * list tracker_call.

Definition tret {A} (a : A) : Tracker A := fun log => (Returns a, log).

Definition tbind {A B} (m : Tracker A) (k : A -> Tracker B) : Tracker B :=
  fun log => match m log with
             | (Returns a, log') => k a log'
             | (Throws e, log') => (Throws e, log')
             end.

(** [x?.toLowerCase() === lower] *)
Definition lower_is (x : option string) (lower : string) : bool :=
  match x with
  | Some s => toLowerCase s =? lower
  | None => false
  end.

(** The test of the two [find] calls. *)
Definition leads_to (lower : string) (t : transition) : bool :=
  lower_is (tr_to t) lower || lower_is (tr_name t) lower.

(** [t.to?.name || t.name], as [join] prints it. *)
Definition target_name (t : transition) : string :=
  or_else (tr_to t) (match tr_name t with Some n => n | None => "" end).

Definition double_quote : string := String (ascii_of_nat 34) "".

Section Transitions.

(** The tracker: [service k c] answers the call number [k].  The answer
    is the field [transitions] of the result, which only the GET reads.
    The separator of the success message is an arrow between two blanks;
    the arrow is not a Latin-1 character, so the separator is left open. *)
Variable service : nat -> tracker_call -> outcome (option (list transition)).
Variable arrow : string.

#[local] Notation "'do' x <- m ; k" := (tbind m (fun x => k))
  (at level 10, x name, m at level 100, k at level 200).

Definition call (c : tracker_call) : Tracker (option (list transition)) :=
  fun log => (service (length log) c, (log ++ [c])%list).

(** The loop [for (let attempt = 0; attempt < 3; attempt++)], with the
    attempts left; the result is the list [transitions] when the loop
    returns, nothing when it is left by [break] or runs out. *)
Fixpoint transition_loop (attempts : nat) (targetLower : string)
    (transitions : list string) : Tracker (option (list string)) :=
  match attempts with
  | O => tret None
  | S attempts' =>
      do result <- call GetTransitions ;
      let available := nonempty result in
      match find (leads_to targetLower) available with
      | Some directMatch =>
          do _ <- call (PostTransition (tr_id directMatch)) ;
          tret (Some (transitions ++ [target_name directMatch])%list)
      | None =>
          match find (leads_to "in progress") available with
          | Some inProgress =>
              do _ <- call (PostTransition (tr_id inProgress)) ;
              transition_loop attempts' targetLower
                (transitions ++ [or_else (tr_to inProgress) "In Progress"])%list
          | None => tret None
          end
      end
  end.

(** [jira_transition] with a [targetStatus]: the text returned. *)
Definition transition_to (issueKey targetStatus : string) : Tracker string :=
  do reached <- transition_loop 3 (toLowerCase targetStatus) [] ;
  match reached with
  | Some transitions =>
      tret ("Transitioned " ++ issueKey ++ " to " ++ join arrow transitions
            ++ ".")
  | None =>
      do result <- call GetTransitions ;
      tret ("Could not transition to " ++ double_quote ++ targetStatus
            ++ double_quote ++ ". Available: "
            ++ join ", " (map target_name (nonempty result)))
  end.

End Transitions.

(** The calls that execute a transition. *)
Definition posts (calls : list tracker_call) : list string :=
  flat_map (fun c => match c with
                     | PostTransition id => [id]
                     | GetTransitions => []
                     end) calls.

(** The calls from number [k] on are listings and hops: a hop is a
    listing followed by the execution of a transition that this listing
    offers and that leads to the target or to In Progress. *)
Inductive offered
    (service : nat -> tracker_call -> outcome (option (list transition)))
    (lower : string) : nat -> list tracker_call -> Prop :=
| offered_nil k : offered service lower k []
| offered_get k rest :
    offered service lower (S k) rest ->
    offered service lower k (GetTransitions :: rest)
| offered_hop k id rest result t :
    service k GetTransitions = Returns result ->
    In t (nonempty result) -> tr_id t = id ->
    leads_to lower t = true \/ leads_to "in progress" t = true ->
    offered service lower (S (S k)) rest ->
    offered service lower k (GetTransitions :: PostTransition id :: rest).

(** A tracker that offers In Progress first and Done after it. *)
Definition board (k : nat) (c : tracker_call)
  : outcome (option (list transition)) :=
  match c with
  | GetTransitions =>
      if (k <? 2)%nat
      then Returns (Some [MkTransition "21" (Some "Start") (Some "In Progress")])
      else Returns (Some [MkTransition "31" (Some "Finish") (Some "Done")])
  | PostTransition _ => Returns None
  end.

(** *** The text and the addresses a run accumulates

    What [getTicket] has in [allText] and [allUrls] when it looks for
    referenced tickets and for designs: the description of the ticket;
    the description of its parent, unless blank, and the text of the
    parent's comments, when the parent was fetched; and the comments of
    the ticket.  Each text after the first is added after a space. *)
Definition pooled_text (cs : list comment) : string :=
  fold_right (fun c rest =>
                " " ++ ex_text (extractText (comment_body c) []) ++ rest)
             "" cs.

Definition pooled_urls (cs : list comment) : list string :=
  flat_map (fun c => ex_urls (extractText (comment_body c) [])) cs.

Definition parent_text (fetched : option (outcome issue)) : string :=
  match fetched with
  | Some (Returns pf) =>
      let parentDesc := extractText (description pf) [] in
      (if has_text (ex_text parentDesc) then " " ++ ex_text parentDesc else "")
      ++ pooled_text (nonempty (comments pf))
  | _ => ""
  end.

Definition parent_urls (fetched : option (outcome issue)) : list string :=
  match fetched with
  | Some (Returns pf) =>
      let parentDesc := extractText (description pf) [] in
      if has_text (ex_text parentDesc) then ex_urls parentDesc else []
  | _ => []
  end.

(** The answer to the fetch of the parent, the second call of a run that
    starts in [w], when there is a parent. *)
Definition parent_answer (jira : nat -> jira_request -> outcome issue)
    (w : world) (fields : issue) : option (outcome issue) :=
  match parent fields with
  | Some p => Some (jira (S (length (jira_log w))) (JiraGet (ref_key p) true))
  | None => None
  end.

Definition accumulated_text (fields : issue)
    (parentFetched : option (outcome issue)) : string :=
  ex_text (extractText (description fields) [])
  ++ parent_text parentFetched ++ pooled_text (nonempty (comments fields)).

Definition accumulated_urls (fields : issue)
    (parentFetched : option (outcome issue)) : list string :=
  (ex_urls (extractText (description fields) [])
   ++ parent_urls parentFetched ++ pooled_urls (nonempty (comments fields)))%list.

(** A stage that leaves [allText] and [allUrls] as they are; a stage that
    leaves [allUrls] as it is. *)
Definition same_pool (l : locals) (m : IO locals) : Prop :=
  forall w l', (m w).1 = Returns l' ->
               allText l' = allText l /\ allUrls l' = allUrls l.

Definition same_urls (l : locals) (m : IO locals) : Prop :=
  forall w l', (m w).1 = Returns l' -> allUrls l' = allUrls l.

(** A ticket with a parent; the text of both, and of their comments,
    names other tickets. *)
Definition epic : issue :=
  MkIssue "Payments" (Some "Open") (Some "Epic") None None None None None None
          (text_doc "Umbrella for PROJ-7.")
          (Some [MkComment "10" (Some "Ana") "2024-05-02"
                           (text_doc "Blocked by PROJ-8")])
          None None.

Definition feature : issue :=
  MkIssue "Card form" (Some "Open") (Some "Story") None None None None
          (Some (MkIssueRef "PROJ-5" (Some "Payments") None None)) None
          (text_doc "Form, as in PROJ-6.")
          (Some [MkComment "11" (Some "Rui") "2024-05-03"
                           (text_doc "After PROJ-9, under PROJ-5")])
          None None.

Definition feature_tracker : nat -> jira_request -> outcome issue :=
  fun _ r => if req_key r =? "PROJ-4" then Returns feature
             else if req_key r =? "PROJ-5" then Returns epic
             else Returns (plain_issue (req_key r) AdfNull).

Definition feature_run : outcome ticket * world :=
  getTicket shop_service feature_tracker (Some "figd_token") URL_basic
            encodeURIComponent_latin1 (fun created => created)
            attachmentsDir exports "PROJ-4" true true empty_world.

(** A ticket whose description links to the design of the shop, and a
    tracker that knows this ticket only. *)
Definition design_issue : issue :=
  plain_issue "Landing page"
    (AdfDoc (Node "doc" None None None
       (Some [paragraph [text_node "See the " None;
                         linked_text "mockup" shop_url]]))).

Definition design_tracker : nat -> jira_request -> outcome issue :=
  fun _ r => if req_key r =? "PROJ-9" then Returns design_issue
             else Throws "Jira API error: 404 Not Found".

(** A design service with a board of 3000 by 1200 and four children: two
    frames, a text, and a group without name that the service renders but
    does not serve. *)
Definition board_url : string :=
  "https://www.figma.com/design/brd9/Board?node-id=7-1".

Definition checkout_board : document :=
  MkDocument (Some "Checkout") (Some (MkBbox 3000 1200))
    (Some [MkChild "7:2" (Some "Cart") "FRAME" (Some (MkBbox 400 300));
           MkChild "7:3" (Some "Note") "TEXT" (Some (MkBbox 400 300));
           MkChild "7:4" None "GROUP" (Some (MkBbox 200 200));
           MkChild "7:5" (Some "Summary") "FRAME" (Some (MkBbox 300 300))]).

Definition board_service : nat -> string -> fetch_result :=
  fun _ url =>
    if url =? "https://api.figma.com/v1/files/brd9?depth=1" then
      Responds (json_response
        (MkJson (Some "Board") (Some "2024-06-01T09:00:00Z") None None))
    else if url =? "https://api.figma.com/v1/files/brd9/nodes?ids=7%3A1&depth=2" then
      Responds (json_response
        (MkJson None None (Some {[ "7:1" := Some checkout_board ]}) None))
    else if url =? "https://api.figma.com/v1/images/brd9?ids=7%3A2%2C7%3A4%2C7%3A5&format=png&scale=2" then
      Responds (json_response
        (MkJson None None None
           (Some {[ "7:2" := Some "https://cdn.example.net/img/72";
                    "7:4" := Some "https://cdn.example.net/img/74";
                    "7:5" := Some "https://cdn.example.net/img/75" ]})))
    else if url =? "https://cdn.example.net/img/72" then
      Responds (MkResponse 200 Missing None "PNG of the cart")
    else if url =? "https://cdn.example.net/img/75" then
      Responds (MkResponse 200 Missing None "PNG of the summary")
    else Responds (MkResponse 404 Missing None "").

Definition board_design (w : world) : outcome design_result * world :=
  fetchFigmaDesign board_service (Some "figd_token") URL_basic
                   encodeURIComponent_latin1 exports board_url w.

Definition board_images : list image :=
  [MkImage "PNG of the cart"
           "/home/dev/.config/figma-mcp/exports/brd9_7_2.png" (Some "Cart");
   MkImage "PNG of the summary"
           "/home/dev/.config/figma-mcp/exports/brd9_7_5.png" (Some "Summary")].

(* ================================================================= *)
(** * Theorems *)

(** Equations of the string operations. *)
Lemma append_cons c (s t : string) : String c s ++ t = String c (s ++ t).
Proof. reflexivity. Qed.

Lemma append_empty_l (t : string) : "" ++ t = t.
Proof. reflexivity. Qed.

Lemma append_empty_r (s : string) : s ++ "" = s.
Proof.
  induction s as [|c s IH]; [reflexivity|]. now rewrite append_cons, IH.
Qed.

Lemma append_assoc (a b c : string) : (a ++ b) ++ c = a ++ b ++ c.
Proof.
  induction a as [|x a IH]; [reflexivity|]. now rewrite !append_cons, IH.
Qed.

Lemma length_append (a b : string) :
  String.length (a ++ b) = String.length a + String.length b.
Proof.
  induction a as [|c a IH]; [reflexivity|]. rewrite append_cons. cbn.
  now rewrite IH.
Qed.

Lemma join_cons sep a b l :
  join sep (a :: b :: l) = a ++ sep ++ join sep (b :: l).
Proof. reflexivity. Qed.

(** The embedding runs: the text read from a document, the comment built
    from a line with a mention and a bold span, and the design addresses
    found in a text. *)
Example extractText_linked_doc :
  ex_text (extractText (AdfDoc linked_doc) [])
  = "see the spec" ++ nl ++ nl ++ "https://www.figma.com/file/abc/x" ++ nl
    ++ "again" ++ nl.
Proof. reflexivity. Qed.

Example buildCommentADF_mention :
  fst (buildCommentADF directory
         ("Ping @Ann Lee about **totals**" ++ nl ++ "today") ∅)
  = [paragraph
       [text_node "Ping " None;
        Node "mention" None None
             (Some (Attrs (Some "@Ann Lee") None (Some "5b10"))) None;
        text_node " about " None;
        text_node "totals" (Some [Mark "strong" None]);
        hardBreak;
        text_node "today" None]].
Proof. vm_compute. reflexivity. Qed.

Example findFigmaUrls_sample :
  findFigmaUrls
    "Mock: https://www.figma.com/design/abc123/Shop?node-id=1-2) and (https://figma.com/file/XY9/) twice https://figma.com/file/XY9/"
  = ["https://www.figma.com/design/abc123/Shop?node-id=1-2";
     "https://figma.com/file/XY9/"].
Proof. vm_compute. reflexivity. Qed.

Example findJiraTicketKeys_sample :
  findJiraTicketKeys
    "PROJ-1 blocks AB1-22; https://x.atlassian.net/browse/ABC-12?focus=1 xPROJ-7 PROJ-8_"
    (Some "PROJ-1")
  = ["ABC-12"; "AB1-22"].
Proof. vm_compute. reflexivity. Qed.

Section ExtractText.

Lemma node_nested_ind (P : node -> Prop) :
  (forall t tx m a, P (Node t tx m a None)) ->
  (forall t tx m a cs, Forall P cs -> P (Node t tx m a (Some cs))) ->
  forall n, P n.
Proof.
  intros Hleaf Hnode. fix IH 1. intros [t tx m a [cs|]].
  - apply Hnode. induction cs as [|c cs IHcs]; constructor; [apply IH | exact IHcs].
  - apply Hleaf.
Qed.

Lemma own_urls_text n : (node_type n =? "text") = true ->
  own_urls n = link_hrefs (node_marks n).
Proof. intros H. unfold own_urls. now rewrite H. Qed.

Lemma own_urls_card n : (node_type n =? "text") = false ->
  isCard (node_type n) = true ->
  own_urls n = match attr_url n with
               | Some url => if truthy url then [url] else []
               | None => []
               end.
Proof. intros H1 H2. unfold own_urls. now rewrite H1, H2. Qed.

Lemma own_urls_other n : (node_type n =? "text") = false ->
  isCard (node_type n) = false -> own_urls n = [].
Proof. intros H1 H2. unfold own_urls. now rewrite H1, H2. Qed.

Lemma isCard_hardBreak t : (t =? "hardBreak") = true -> isCard t = false.
Proof. intros H%String.eqb_eq. now subst. Qed.

Lemma isCard_mention t : (t =? "mention") = true -> isCard t = false.
Proof. intros H%String.eqb_eq. now subst. Qed.

Lemma isCard_paragraph t : (t =? "paragraph") = true -> isCard t = false.
Proof. intros H%String.eqb_eq. now subst. Qed.

Lemma isCard_media t : isMedia t = true -> isCard t = false.
Proof.
  unfold isMedia. intros [H%String.eqb_eq|H%String.eqb_eq]%orb_true_iff;
    now subst.
Qed.

Lemma node_urls_eq n : node_urls n = (own_urls n ++ doc_urls n)%list.
Proof. now destruct n. Qed.

Lemma reachable_notDescended n :
  notDescended (node_type n) = true -> reachable_urls_only n = true ->
  doc_urls n = [].
Proof.
  destruct n as [t tx m a [cs|]];
    cbn [reachable_urls_only doc_urls node_content node_type];
    intros Hnd H; [|reflexivity].
  rewrite Hnd in H. now destruct (flat_map node_urls cs).
Qed.

Lemma reachable_descended n :
  notDescended (node_type n) = false ->
  reachable_urls_only n = doc_reachable_urls_only n.
Proof.
  destruct n as [t tx m a [cs|]];
    cbn [reachable_urls_only doc_reachable_urls_only node_content node_type];
    intros Hnd; [now rewrite Hnd | reflexivity].
Qed.

Lemma contributes_own n :
  notDescended (node_type n) = true -> contributes n (own_urls n).
Proof.
  intros Hnd. split.
  - rewrite node_urls_eq. apply sublist_inserts_r. reflexivity.
  - intros Hr. rewrite node_urls_eq, (reachable_notDescended n Hnd Hr).
    now rewrite app_nil_r.
Qed.

Lemma contributes_below n l :
  notDescended (node_type n) = false ->
  l `sublist_of` doc_urls n ->
  (doc_reachable_urls_only n = true -> l = doc_urls n) ->
  contributes n l.
Proof.
  intros Hnd Hsub Heq.
  assert (Hown : own_urls n = []).
  { unfold notDescended in Hnd.
    apply orb_false_iff in Hnd as [Hnd Hcard].
    apply orb_false_iff in Hnd as [Hnd _].
    apply orb_false_iff in Hnd as [Hnd _].
    apply orb_false_iff in Hnd as [Htext _].
    now apply own_urls_other. }
  split.
  - now rewrite node_urls_eq, Hown.
  - rewrite (reachable_descended n Hnd), node_urls_eq, Hown. exact Heq.
Qed.

Lemma visit_of_walk n : walk_spec n -> visit_spec n.
Proof.
  intros Hwalk acc. unfold visit.
  destruct (node_type n =? "text") eqn:Htext.
  { exists (link_hrefs (node_marks n)). split; [reflexivity|].
    rewrite <- (own_urls_text n Htext). apply contributes_own.
    unfold notDescended. now rewrite Htext. }
  destruct (node_type n =? "paragraph") eqn:Hpar.
  { destruct (Hwalk (ex_urls acc)) as (l & Hl & Hsub & Heq).
    exists l. split; [exact Hl|].
    apply contributes_below; try assumption.
    apply String.eqb_eq in Hpar. unfold notDescended. now rewrite Hpar. }
  destruct (node_type n =? "hardBreak") eqn:Hbr.
  { exists []. split; [now rewrite app_nil_r|].
    rewrite <- (own_urls_other n Htext (isCard_hardBreak _ Hbr)).
    apply contributes_own. unfold notDescended. rewrite Hbr.
    now rewrite !orb_true_r. }
  destruct (node_type n =? "mention") eqn:Hmen.
  { exists []. split; [now rewrite app_nil_r|].
    rewrite <- (own_urls_other n Htext (isCard_mention _ Hmen)).
    apply contributes_own. unfold notDescended. rewrite Hmen.
    now rewrite !orb_true_r. }
  destruct (isMedia (node_type n)) eqn:Hmedia.
  { exists []. split; [now rewrite app_nil_r|].
    rewrite <- (own_urls_other n Htext (isCard_media _ Hmedia)).
    apply contributes_own. unfold notDescended. rewrite Hmedia.
    now rewrite !orb_true_r. }
  destruct (isCard (node_type n)) eqn:Hcard.
  { exists (own_urls n). split.
    - rewrite (own_urls_card n Htext Hcard).
      destruct (attr_url n) as [url|]; [destruct (truthy url)|];
        cbn; now rewrite ?app_nil_r.
    - apply contributes_own. unfold notDescended. rewrite Hcard.
      now rewrite !orb_true_r. }
  assert (Hnd : notDescended (node_type n) = false).
  { unfold notDescended. now rewrite Htext, Hbr, Hmen, Hmedia, Hcard. }
  destruct (node_content n) as [cs|] eqn:Hcs.
  - destruct (Hwalk (ex_urls acc)) as (l & Hl & Hsub & Heq).
    exists l. split; [exact Hl|]. now apply contributes_below.
  - exists []. split; [now rewrite app_nil_r|].
    apply contributes_below; try assumption.
    + apply sublist_nil_l.
    + intros _. unfold doc_urls. now rewrite Hcs.
Qed.

Lemma fold_visit cs :
  Forall visit_spec cs ->
  forall acc, exists l,
    ex_urls (fold_left (visit extractText_obj) cs acc) = (ex_urls acc ++ l)%list /\
    l `sublist_of` flat_map node_urls cs /\
    (forallb reachable_urls_only cs = true -> l = flat_map node_urls cs).
Proof.
  induction 1 as [|c cs Hc _ IH]; intros acc; cbn [fold_left flat_map forallb].
  - exists []. repeat split; [now rewrite app_nil_r | reflexivity].
  - destruct (Hc acc) as (l1 & E1 & Hsub1 & Heq1).
    destruct (IH (visit extractText_obj acc c)) as (l2 & E2 & Hsub2 & Heq2).
    exists (l1 ++ l2)%list. split; [|split].
    + now rewrite E2, E1, app_assoc.
    + now apply sublist_app.
    + intros [H1 H2]%andb_true_iff. now rewrite (Heq1 H1), (Heq2 H2).
Qed.

Lemma walk_spec_all n : walk_spec n.
Proof.
  induction n as [t tx m a | t tx m a cs IH] using node_nested_ind;
    intros urls.
  - exists []. cbn. split; [now rewrite app_nil_r|]. split; [reflexivity|easy].
  - assert (Hv : Forall visit_spec cs).
    { eapply Forall_impl; [exact IH|]. intros c. apply visit_of_walk. }
    destruct (fold_visit cs Hv (Extraction "" urls)) as (l & E & Hsub & Heq).
    exists l. cbn. now rewrite E.
Qed.

End ExtractText.

(** The URLs returned are always URLs of the document, in document order:
    what is appended to [urls] is a subsequence of [doc_urls]. *)
Lemma extractText_urls_sound (d : node) (urls : list string) :
  exists l, ex_urls (extractText (AdfDoc d) urls) = (urls ++ l)%list /\
            l `sublist_of` doc_urls d.
Proof.
  destruct (walk_spec_all d urls) as (l & E & Hsub & _). now exists l.
Qed.

(** C6 (amended).  For every document whose URLs all sit where the walk
    looks (none below a media, text, hard-break, mention or card node),
    [extractText] appends to [urls] exactly the truthy hrefs of the link
    marks of the text nodes and the truthy URLs of the card nodes, in
    document order and with their multiplicity. *)
Theorem extractText_urls_complete (d : node) (urls : list string) :
  doc_reachable_urls_only d = true ->
  ex_urls (extractText (AdfDoc d) urls) = (urls ++ doc_urls d)%list.
Proof.
  intros Hd. destruct (walk_spec_all d urls) as (l & E & _ & Heq).
  cbn [extractText]. now rewrite E, (Heq Hd).
Qed.

Lemma extractText_urls_complete_witness :
  doc_reachable_urls_only linked_doc = true /\
  ex_urls (extractText (AdfDoc linked_doc) []) =
    ["https://example.org/spec"; "https://www.figma.com/file/abc/x";
     "https://example.org/spec"].
Proof.
  split; [reflexivity|].
  exact (extractText_urls_complete linked_doc [] eq_refl).
Defined.

(** C6 as stated fails: the link of a caption inside a [mediaSingle] node
    is a URL of the document, and the walk, which prints the placeholder
    for the media node without looking inside, does not return it. *)
Lemma extractText_misses_media_caption_link :
  ex_urls (extractText (AdfDoc media_caption_doc) []) = [] /\
  doc_urls media_caption_doc = ["https://www.figma.com/file/abc/x"].
Proof. split; reflexivity. Qed.

Section TicketKeys.

Lemma all_chars_app p s t :
  all_chars p (s ++ t) = all_chars p s && all_chars p t.
Proof.
  induction s as [|c s IH]; simpl; [reflexivity|].
  now rewrite IH, andb_assoc.
Qed.

Lemma all_chars_weaken (p q : ascii -> bool) s :
  (forall c, p c = true -> q c = true) ->
  all_chars p s = true -> all_chars q s = true.
Proof.
  intros Hpq. induction s as [|c s IH]; cbn; [easy|].
  intros [Hc Hs]%andb_true_iff. now rewrite (Hpq c Hc), IH.
Qed.

Lemma span_all p s : all_chars p (fst (span p s)) = true.
Proof.
  induction s as [|c s IH]; cbn; [reflexivity|].
  destruct (p c) eqn:Hc; [|reflexivity].
  destruct (span p s) as [a b]. cbn in *. now rewrite Hc, IH.
Qed.

Lemma match_key_shape s key rest :
  match_key s = Some (key, rest) -> all_chars isKeyChar key = true.
Proof.
  unfold match_key. destruct s as [|c s1]; [discriminate|].
  destruct (isUpper c) eqn:Hc; [|discriminate].
  pose proof (span_all (fun c => isUpper c || isDigit c) s1) as Hproj.
  destruct (span (fun c => isUpper c || isDigit c) s1) as [proj s2].
  destruct proj as [|p0 proj]; [discriminate|].
  destruct s2 as [|dash s3]; [discriminate|].
  destruct (Ascii.eqb dash "-"); [|discriminate].
  pose proof (span_all isDigit s3) as Hnum.
  destruct (span isDigit s3) as [num s4].
  destruct num as [|d0 num]; [discriminate|].
  intros [= <- _]. cbn [fst] in *.
  assert (Hup : forall x, (isUpper x || isDigit x) = true -> isKeyChar x = true).
  { intros x Hx. unfold isKeyChar. now rewrite Hx. }
  assert (Hdig : forall x, isDigit x = true -> isKeyChar x = true).
  { intros x Hx. unfold isKeyChar. rewrite Hx. now rewrite orb_true_r. }
  rewrite !all_chars_app.
  rewrite (all_chars_weaken _ _ _ Hdig Hnum).
  change (all_chars isKeyChar (String c (String p0 proj)))
    with (isKeyChar c && all_chars isKeyChar (String p0 proj)).
  rewrite (all_chars_weaken _ _ _ Hup Hproj).
  unfold isKeyChar at 1. now rewrite Hc.
Qed.

Lemma browse_tail_shape s key n :
  browse_tail s = Some (key, n) -> all_chars isKeyChar key = true.
Proof.
  revert key n. induction s as [|c s IH]; cbn [browse_tail]; [discriminate|].
  intros key n. destruct (isSpace c); [discriminate|].
  destruct (browse_tail s) as [[k m]|].
  - intros [= <- _]. now apply (IH k m).
  - destruct (strip_prefix "/browse/" s) as [s''|]; [|discriminate].
    destruct (match_key s'') as [[k r]|] eqn:Hk; [|discriminate].
    intros [= <- _]. now apply (match_key_shape s'' k r).
Qed.

Lemma urlRegex_shape prev s key n :
  urlRegex prev s = Some (key, n) -> all_chars isKeyChar key = true.
Proof.
  unfold urlRegex. destruct (strip_prefix "http" s) as [s1|]; [|discriminate].
  destruct (strip_prefix "s" s1) as [r|].
  - destruct (strip_prefix "://" r) as [s3|]; [|discriminate].
    destruct (browse_tail s3) as [[k m]|] eqn:Hb; [|discriminate].
    intros [= <- _]. now apply (browse_tail_shape s3 k m).
  - destruct (strip_prefix "://" s1) as [s3|]; [|discriminate].
    destruct (browse_tail s3) as [[k m]|] eqn:Hb; [|discriminate].
    intros [= <- _]. now apply (browse_tail_shape s3 k m).
Qed.

Lemma keyRegex_shape prev s key n :
  keyRegex prev s = Some (key, n) -> all_chars isKeyChar key = true.
Proof.
  unfold keyRegex. destruct (wordBoundary prev (head_char s)); [|discriminate].
  destruct (match_key s) as [[k r]|] eqn:Hk; [|discriminate].
  destruct (wordBoundary _ _); [|discriminate].
  intros [= <- _]. now apply (match_key_shape s k r).
Qed.

(** Every capture of a repeated [exec] has the property that every single
    match ensures. *)
Lemma exec_all_Forall (P : string -> Prop) at_start :
  (forall prev s capture n, at_start prev s = Some (capture, n) -> P capture) ->
  forall s prev skip, Forall P (exec_all at_start prev s skip).
Proof.
  intros Hat. induction s as [|c s IH]; intros prev skip; cbn; [constructor|].
  destruct skip as [|k]; [|apply IH].
  destruct (at_start prev (String c s)) as [[capture n]|] eqn:E; [|apply IH].
  constructor; [now apply (Hat _ _ _ _ E) | apply IH].
Qed.

Lemma existsb_eqb_elem k (keys : list string) :
  existsb (String.eqb k) keys = true <-> k ∈ keys.
Proof.
  rewrite existsb_exists. split.
  - intros (x & Hin & ->%String.eqb_eq). now apply list_elem_of_In.
  - intros Hin. exists k. split; [now apply list_elem_of_In | apply String.eqb_refl].
Qed.

Lemma set_add_NoDup keys k : NoDup keys -> NoDup (set_add keys k).
Proof.
  intros Hnd. unfold set_add. destruct (existsb (String.eqb k) keys) eqn:E; [easy|].
  apply NoDup_app. split; [easy|]. split; [|apply NoDup_singleton].
  intros x Hx ->%list_elem_of_singleton.
  apply existsb_eqb_elem in Hx. congruence.
Qed.

Lemma set_add_elem keys k x : x ∈ set_add keys k <-> x ∈ keys \/ x = k.
Proof.
  unfold set_add. destruct (existsb (String.eqb k) keys) eqn:E.
  - apply existsb_eqb_elem in E. split; [now left|]. now intros [H| ->].
  - rewrite elem_of_app, list_elem_of_singleton. tauto.
Qed.

Lemma add_unless_ok cur keys k :
  all_chars isKeyChar k = true -> keys_ok cur keys ->
  keys_ok cur (add_unless cur keys k).
Proof.
  intros Hk [Hnd Hcur Hshape].
  assert (Hadd : Some k <> cur -> keys_ok cur (set_add keys k)).
  { intros Hne. split.
    - now apply set_add_NoDup.
    - intros x [Hx| ->]%set_add_elem; [now apply Hcur | exact Hne].
    - apply Forall_forall. intros x [Hx| ->]%set_add_elem; [|exact Hk].
      now apply (proj1 (Forall_forall _ _) Hshape). }
  unfold add_unless. destruct cur as [cur|].
  - destruct (k =? cur) eqn:E; [now split|].
    apply Hadd. intros [= ->]. now rewrite String.eqb_refl in E.
  - now apply Hadd.
Qed.

Lemma fold_add_unless_ok cur matches keys :
  Forall (fun k => all_chars isKeyChar k = true) matches ->
  keys_ok cur keys -> keys_ok cur (fold_left (add_unless cur) matches keys).
Proof.
  intros Hm. revert keys. induction Hm as [|k ks Hk _ IH]; intros keys Hok; cbn.
  - exact Hok.
  - apply IH. now apply add_unless_ok.
Qed.

Lemma findJiraTicketKeys_ok text cur : keys_ok cur (findJiraTicketKeys text cur).
Proof.
  assert (Hnil : keys_ok cur []).
  { split; [constructor | inversion 1 | constructor]. }
  unfold findJiraTicketKeys. destruct (truthy text); [|exact Hnil].
  apply fold_add_unless_ok.
  { apply exec_all_Forall. intros prev s c n. apply keyRegex_shape. }
  apply fold_add_unless_ok; [|exact Hnil].
  apply exec_all_Forall. intros prev s c n. apply urlRegex_shape.
Qed.

End TicketKeys.

Lemma raise_lower_key_char c :
  isKeyChar c = true ->
  (if isLower (lower_char c)
   then ascii_of_nat (code (lower_char c) - 32) else lower_char c) = c.
Proof.
  destruct c as [[] [] [] [] [] [] [] []]; vm_compute; congruence.
Qed.

Lemma lower_char_inj c1 c2 :
  isKeyChar c1 = true -> isKeyChar c2 = true ->
  lower_char c1 = lower_char c2 -> c1 = c2.
Proof.
  intros H1 H2 E. rewrite <- (raise_lower_key_char c1 H1),
    <- (raise_lower_key_char c2 H2). now rewrite E.
Qed.

Lemma toLowerCase_inj k1 k2 :
  all_chars isKeyChar k1 = true -> all_chars isKeyChar k2 = true ->
  toLowerCase k1 = toLowerCase k2 -> k1 = k2.
Proof.
  revert k2. induction k1 as [|c1 k1 IH]; intros [|c2 k2]; cbn;
    try discriminate; [reflexivity|].
  intros [Hc1 Hk1]%andb_true_iff [Hc2 Hk2]%andb_true_iff [= Ec Ek].
  f_equal; [now apply lower_char_inj | now apply IH].
Qed.

(** C3 (amended).  [findJiraTicketKeys] matches keys written in capitals
    only and compares them as written: on "See PROJ-1 and proj-1" it
    returns the one key PROJ-1, and for every text and current key the
    result has no duplicates, is made of capitals, digits and hyphens, has
    no two keys equal up to case, and has no key equal to the current
    key. *)
Theorem findJiraTicketKeys_set (text : string) (currentKey : option string) :
  findJiraTicketKeys "See PROJ-1 and proj-1" None = ["PROJ-1"] /\
  NoDup (findJiraTicketKeys text currentKey) /\
  (forall k, k ∈ findJiraTicketKeys text currentKey ->
     all_chars isKeyChar k = true /\ Some k <> currentKey) /\
  (forall k1 k2,
     k1 ∈ findJiraTicketKeys text currentKey ->
     k2 ∈ findJiraTicketKeys text currentKey ->
     toLowerCase k1 = toLowerCase k2 -> k1 = k2).
Proof.
  destruct (findJiraTicketKeys_ok text currentKey) as [Hnd Hcur Hshape].
  rewrite Forall_forall in Hshape.
  split; [reflexivity|]. split; [exact Hnd|]. split.
  - intros k Hk. split; [now apply Hshape | now apply Hcur].
  - intros k1 k2 H1 H2. apply toLowerCase_inj; now apply Hshape.
Qed.

Lemma findJiraTicketKeys_set_witness :
  all_chars isKeyChar "ABC-12" = true /\ Some "ABC-12" <> Some "PROJ-1".
Proof.
  apply (findJiraTicketKeys_set
           "PROJ-1 blocks ABC-12, see https://x.atlassian.net/browse/ABC-12"
           (Some "PROJ-1")).
  vm_compute. apply list_elem_of_here.
Defined.

(** C3 as stated fails: a key in small letters is not matched, and a key
    that differs from the current key by case only is returned. *)
Lemma findJiraTicketKeys_case_sensitive :
  findJiraTicketKeys "see proj-1" None = [] /\
  findJiraTicketKeys "see PROJ-1" None = ["PROJ-1"] /\
  findJiraTicketKeys "PROJ-1 is done" (Some "proj-1") = ["PROJ-1"] /\
  toLowerCase "PROJ-1" = toLowerCase "proj-1".
Proof. repeat split; reflexivity. Qed.

Section ParseFigmaUrl.

Variable URL_new : string -> option URL.

Lemma part_after_keyword_Some parts key :
  part_after_keyword parts = Some key <->
  exists before kw after,
    parts = (before ++ kw :: key :: after)%list /\
    Forall (fun p => isKeyword p = false) before /\ isKeyword kw = true.
Proof.
  split.
  - induction parts as [|p rest IH]; cbn; [discriminate|].
    destruct (isKeyword p) eqn:Hp.
    + destruct rest as [|k after]; [discriminate|]. intros [= ->].
      exists [], p, after. repeat split; [constructor | exact Hp].
    + intros (before & kw & after & -> & Hb & Hkw)%IH.
      exists (p :: before), kw, after. repeat split; [|exact Hkw].
      now constructor.
  - intros (before & kw & after & -> & Hb & Hkw).
    induction Hb as [|p before Hp _ IH]; cbn.
    + now rewrite Hkw.
    + now rewrite Hp.
Qed.

(** C8 (amended).  On every address the URL constructor accepts,
    [parseFigmaUrl] returns a reference or nothing: nothing exactly when no
    path part is a keyword or the part that follows the first keyword is
    missing or empty; otherwise the reference has that part as [fileKey]
    and, when the query has a non-empty [node-id], that value with its
    hyphens turned into colons as [nodeId].  The address
    https://figma.com/design/ABC123/Name?node-id=1-2 gives ABC123 and
    1:2. *)
Theorem parseFigmaUrl_spec (url : string) (urlObj : URL) :
  URL_new url = Some urlObj ->
  let pathParts := split_on "/" (pathname urlObj) in
  (parseFigmaUrl URL_new url = Returns None <->
     ~ exists key, key_follows_first_keyword pathParts key) /\
  (forall key, key_follows_first_keyword pathParts key ->
     parseFigmaUrl URL_new url =
       Returns (Some (MkDesignRef key (nodeId_of urlObj)))) /\
  parseFigmaUrl URL_basic "https://figma.com/design/ABC123/Name?node-id=1-2"
    = Returns (Some (MkDesignRef "ABC123" (Some "1:2"))).
Proof.
  intros Hurl pathParts.
  assert (Hsome : forall key, key_follows_first_keyword pathParts key ->
            parseFigmaUrl URL_new url =
              Returns (Some (MkDesignRef key (nodeId_of urlObj)))).
  { intros key (before & kw & after & Hparts & Hb & Hkw & Hne).
    assert (Hpart : part_after_keyword pathParts = Some key).
    { apply part_after_keyword_Some. now exists before, kw, after. }
    unfold parseFigmaUrl, parseFigmaUrl_of. rewrite Hurl.
    fold pathParts. rewrite Hpart.
    unfold truthy. destruct (key =? "") eqn:E.
    - now apply String.eqb_eq in E.
    - reflexivity. }
  split; [|split; [exact Hsome | reflexivity]].
  split.
  - intros Hnone (key & Hkey). rewrite (Hsome key Hkey) in Hnone. discriminate.
  - intros Hno. unfold parseFigmaUrl, parseFigmaUrl_of. rewrite Hurl.
    fold pathParts.
    destruct (part_after_keyword pathParts) as [key|] eqn:E; [|reflexivity].
    unfold truthy. destruct (key =? "") eqn:Ek; [reflexivity|].
    exfalso. apply Hno. exists key.
    apply part_after_keyword_Some in E as (before & kw & after & ? & ? & ?).
    exists before, kw, after. repeat split; try assumption.
    intros ->. discriminate.
Qed.

End ParseFigmaUrl.

Lemma parseFigmaUrl_spec_witness :
  parseFigmaUrl URL_basic "https://www.figma.com/file/abc123/Home?node-id=10-20"
    = Returns (Some (MkDesignRef "abc123" (Some "10:20"))).
Proof.
  refine (proj1 (proj2 (parseFigmaUrl_spec URL_basic
            "https://www.figma.com/file/abc123/Home?node-id=10-20"
            (MkURL "/file/abc123/Home" [("node-id", "10-20")]) eq_refl))
            "abc123" _).
  exists [""], "file", ["Home"]. repeat split.
  - repeat constructor.
  - discriminate.
Defined.

(** C8 as stated fails: the path of https://figma.com/file/ has the
    keyword part [file], and nothing is returned, because the part after it
    is empty. *)
Lemma parseFigmaUrl_keyword_without_key :
  parseFigmaUrl URL_basic "https://figma.com/file/" = Returns None /\
  URL_basic "https://figma.com/file/" = Some (MkURL "/file/" []) /\
  In "file" (split_on "/" "/file/").
Proof. repeat split; try reflexivity. cbn. tauto. Qed.

Section Retry.

Variable fetch : nat -> string -> fetch_result.
Variable token : string.
Variable url : string.
Variable maxRetries : nat.
Variable maxWaitSec : Z.

Lemma status_429_not_ok r : status r = 429%Z -> ok r = false.
Proof. unfold ok. intros ->. reflexivity. Qed.

(** A run of the loop: the responses [rs] are retried, the response [r]
    ends the loop. *)
Lemma retry_loop_run (rs : list response) (r : response) :
  forall fuel attempts w,
    (forall i ri, rs !! i = Some ri ->
       fetch (length (requested w) + i) url = Responds ri /\
       status ri = 429%Z /\ (retryAfterSec ri <= maxWaitSec)%Z) ->
    attempts + length rs <= maxRetries ->
    length rs < fuel ->
    fetch (length (requested w) + length rs) url = Responds r ->
    retried maxRetries maxWaitSec (attempts + length rs) r = false ->
    retry_loop fetch (Some token) fuel url maxRetries maxWaitSec attempts w =
      Some (Returns (ends_with r),
            after w (repeat url (S (length rs)))
                  (map (fun ri => (retryAfterSec ri * 1000)%Z) rs)).
Proof.
  induction rs as [|r0 rs IH]; intros fuel attempts w Hrs Hatt Hfuel Hr Hend.
  - cbn [length repeat map] in *. unfold after. rewrite app_nil_r.
    rewrite Nat.add_0_r in *.
    destruct fuel as [|fuel]; [lia|]. cbn [retry_loop].
    unfold fetch_url. rewrite Hr. unfold retried in Hend. unfold ends_with.
    destruct (ok r); [reflexivity|].
    destruct (status r =? 429)%Z; [|reflexivity].
    cbn [negb andb] in Hend. apply negb_false_iff in Hend. now rewrite Hend.
  - cbn [length] in *. destruct fuel as [|fuel]; [lia|].
    destruct (Hrs 0 r0 eq_refl) as (H0 & Hst & Hwait).
    rewrite Nat.add_0_r in H0.
    cbn [retry_loop]. unfold fetch_url at 1. rewrite H0.
    rewrite (status_429_not_ok r0 Hst), Hst. cbn [Z.eqb Pos.eqb].
    replace (maxWaitSec <? retryAfterSec r0)%Z with false
      by (symmetry; apply Z.ltb_ge; lia).
    replace (maxRetries <=? attempts)%nat with false
      by (symmetry; apply Nat.leb_gt; lia).
    cbn [orb sleep].
    rewrite (IH fuel (S attempts)).
    + unfold after. cbn [requested slept files dirs jira_log repeat map].
      rewrite <- !app_assoc. reflexivity.
    + intros i ri Hi. cbn [requested]. rewrite length_app. cbn [length].
      replace (length (requested w) + 1 + i) with (length (requested w) + S i)
        by lia.
      now apply Hrs.
    + lia.
    + lia.
    + cbn [requested]. rewrite length_app. cbn [length].
      replace (length (requested w) + 1 + length rs)
        with (length (requested w) + S (length rs)) by lia.
      exact Hr.
    + replace (S attempts + length rs) with (attempts + S (length rs)) by lia.
      exact Hend.
Qed.

End Retry.

Section RetryBounds.

Variable fetch : nat -> string -> fetch_result.
Variable figmaConfig : option string.
Variable url : string.
Variable maxRetries : nat.
Variable maxWaitSec : Z.

Lemma retry_loop_bounded :
  forall fuel attempts w,
    attempts <= maxRetries -> maxRetries - attempts < fuel ->
    exists res w',
      retry_loop fetch figmaConfig fuel url maxRetries maxWaitSec attempts w
        = Some (res, w') /\
      retry_effect url (maxRetries - attempts) w w'.
Proof.
  assert (Hone : forall budget w,
            retry_effect url budget w
              (World (requested w ++ [url]) (slept w) (files w) (dirs w)
                     (jira_log w))).
  { intros budget w. split; cbn; try reflexivity.
    - exists 1. split; [lia|reflexivity].
    - exists []. split; [cbn; lia | now rewrite app_nil_r]. }
  induction fuel as [|fuel IH]; intros attempts w Hatt Hfuel; [lia|].
  cbn [retry_loop]. destruct figmaConfig as [tok|].
  2:{ exists (Throws "Cannot read properties of null"), w. split; [reflexivity|].
      split; try reflexivity.
      - exists 0. split; [lia | now rewrite app_nil_r].
      - exists []. split; [cbn; lia | now rewrite app_nil_r]. }
  unfold fetch_url.
  destruct (fetch (length (requested w)) url) as [r|e].
  2:{ eexists _, _. split; [reflexivity | apply Hone]. }
  destruct (ok r); [eexists _, _; split; [reflexivity | apply Hone]|].
  destruct (status r =? 429)%Z; [|eexists _, _; split; [reflexivity | apply Hone]].
  destruct (maxWaitSec <? retryAfterSec r)%Z;
    [eexists _, _; split; [reflexivity | apply Hone]|].
  destruct (maxRetries <=? attempts)%nat eqn:Hcmp;
    [eexists _, _; split; [reflexivity | apply Hone]|].
  apply Nat.leb_gt in Hcmp. cbn [orb sleep].
  destruct (IH (S attempts)
              (World (requested w ++ [url])
                     (slept w ++ [(retryAfterSec r * 1000)%Z])
                     (files w) (dirs w) (jira_log w)))
    as (res & w' & Hrun & [(n & Hn & Hreq) (ws & Hws & Hsl) Hf Hd Hj]);
    [lia | lia |].
  exists res, w'. split; [exact Hrun|]. cbn in Hreq, Hsl, Hf, Hd, Hj.
  split; try assumption.
  - exists (S n). split; [lia|]. rewrite Hreq, <- app_assoc. reflexivity.
  - exists ((retryAfterSec r * 1000)%Z :: ws). split; [cbn; lia|].
    rewrite Hsl, <- app_assoc. reflexivity.
Qed.

End RetryBounds.

(** C2.  [figmaFetchWithRetry] keeps the 429 contract.  When the first
    responses [rs] are 429s whose [retry-after] is within [maxWaitSec], at
    most [maxRetries] of them, the call waits exactly these durations and
    its result is decided by the next response [r]: a 2xx response is
    returned; a 429 whose [retry-after] exceeds [maxWaitSec], or that comes
    when [maxRetries] retries are used up, gives the rate-limit result,
    with an estimate in hours above 3600 seconds and in seconds otherwise;
    any other response is returned.  With [maxRetries = 3], two 429s with
    [retry-after: 5] and then a 200 give the 200 after two waits of 5000
    ms, and one 429 with [retry-after: 7200] under [maxWaitSec = 30] gives
    the rate-limit result at once, with an estimate in hours and no
    wait. *)
Theorem figmaFetchWithRetry_contract
    (fetch : nat -> string -> fetch_result) (token url : string)
    (maxRetries : nat) (maxWaitSec : Z) (w : world)
    (rs : list response) (r : response) :
  (forall i ri, rs !! i = Some ri ->
     fetch (length (requested w) + i) url = Responds ri /\
     status ri = 429%Z /\ (retryAfterSec ri <= maxWaitSec)%Z) ->
  length rs <= maxRetries ->
  fetch (length (requested w) + length rs) url = Responds r ->
  let run := figmaFetchWithRetry fetch (Some token) url maxRetries maxWaitSec w in
  let w' := after w (repeat url (S (length rs)))
                  (map (fun ri => (retryAfterSec ri * 1000)%Z) rs) in
  (ok r = true -> run = (Returns (Response r), w')) /\
  (status r = 429%Z ->
   (maxWaitSec < retryAfterSec r)%Z \/ length rs = maxRetries ->
   run = (Returns (RateLimited
             (if (3600 <? retryAfterSec r)%Z
              then show_Z (round_div (retryAfterSec r) 3600)
                   ++ " hours (monthly limit reached)"
              else show_Z (retryAfterSec r) ++ " seconds")), w')) /\
  (ok r = false -> status r <> 429%Z -> run = (Returns (Response r), w')) /\
  figmaFetchWithRetry
    (script [resp429 (Numeric 5); resp429 (Numeric 5); resp200])
    (Some token) url 3 30 empty_world
    = (Returns (Response resp200),
       World [url; url; url] [5000%Z; 5000%Z] ∅ ∅ []) /\
  figmaFetchWithRetry (script [resp429 (Numeric 7200)])
    (Some token) url 3 30 empty_world
    = (Returns (RateLimited "2 hours (monthly limit reached)"),
       World [url] [] ∅ ∅ []).
Proof.
  intros Hrs Hlen Hr run w'.
  assert (Hrun : retried maxRetries maxWaitSec (length rs) r = false ->
                 run = (Returns (ends_with r), w')).
  { intros Hend. unfold run, figmaFetchWithRetry.
    now rewrite (retry_loop_run fetch token url maxRetries maxWaitSec rs r
                   (S maxRetries) 0 w Hrs Hlen ltac:(lia) Hr Hend). }
  split; [|split; [|split; [|split; reflexivity]]].
  - intros Hok. rewrite Hrun; unfold retried, ends_with; now rewrite Hok.
  - intros Hst Hstop. rewrite Hrun.
    + unfold ends_with. rewrite (status_429_not_ok r Hst), Hst. reflexivity.
    + unfold retried. rewrite (status_429_not_ok r Hst), Hst. cbn [negb andb Z.eqb Pos.eqb].
      apply negb_false_iff, orb_true_iff.
      destruct Hstop as [H|H]; [left; now apply Z.ltb_lt | right; apply Nat.leb_le; lia].
  - intros Hok Hst. apply Z.eqb_neq in Hst.
    rewrite Hrun; unfold retried, ends_with; now rewrite Hok, Hst.
Qed.

Lemma figmaFetchWithRetry_contract_witness :
  figmaFetchWithRetry
    (script [resp429 (Numeric 5); resp429 Missing; resp429 (Numeric 9)])
    (Some "figd_token") "https://api.figma.com/v1/files/abc?depth=1" 1 60
    empty_world
  = (Returns (RateLimited "60 seconds"),
     World ["https://api.figma.com/v1/files/abc?depth=1";
            "https://api.figma.com/v1/files/abc?depth=1"] [5000%Z] ∅ ∅ []).
Proof.
  refine (proj1 (proj2 (figmaFetchWithRetry_contract
    (script [resp429 (Numeric 5); resp429 Missing; resp429 (Numeric 9)])
    "figd_token" "https://api.figma.com/v1/files/abc?depth=1" 1 60
    empty_world [resp429 (Numeric 5)] (resp429 Missing) _ _ _)) _ _).
  - intros [|[|i]] ri; cbn; try discriminate. intros [= <-].
    repeat split. vm_compute. discriminate.
  - cbn. lia.
  - reflexivity.
  - reflexivity.
  - right. reflexivity.
Defined.

Lemma retry_loop_fuel_mono fetch figmaConfig url maxRetries maxWaitSec :
  forall fuel fuel' attempts w x,
    fuel <= fuel' ->
    retry_loop fetch figmaConfig fuel url maxRetries maxWaitSec attempts w
      = Some x ->
    retry_loop fetch figmaConfig fuel' url maxRetries maxWaitSec attempts w
      = Some x.
Proof.
  induction fuel as [|fuel IH]; intros fuel' attempts w x Hle; [discriminate|].
  destruct fuel' as [|fuel']; [lia|]. cbn [retry_loop].
  destruct figmaConfig; [|easy].
  destruct (fetch_url fetch url w) as [[r|e] w1]; [|easy].
  destruct (ok r); [easy|]. destruct (status r =? 429)%Z; [|easy].
  destruct (_ || _); [easy|]. cbn [sleep]. apply IH. lia.
Qed.

(** C9.  The loop of [figmaFetchWithRetry] ends: for every service, every
    [maxRetries] and every fuel above [maxRetries] it returns, with the
    result [figmaFetchWithRetry] gives, after at most [maxRetries + 1]
    requests and at most [maxRetries] waits. *)
Theorem figmaFetchWithRetry_terminates
    (fetch : nat -> string -> fetch_result) (figmaConfig : option string)
    (url : string) (maxRetries : nat) (maxWaitSec : Z) (w : world)
    (fuel : nat) :
  maxRetries < fuel ->
  exists res w',
    retry_loop fetch figmaConfig fuel url maxRetries maxWaitSec 0 w
      = Some (res, w') /\
    figmaFetchWithRetry fetch figmaConfig url maxRetries maxWaitSec w
      = (res, w') /\
    length (requested w') <= length (requested w) + maxRetries + 1 /\
    length (slept w') <= length (slept w) + maxRetries.
Proof.
  intros Hfuel.
  destruct (retry_loop_bounded fetch figmaConfig url maxRetries maxWaitSec
              (S maxRetries) 0 w) as (res & w' & Hrun & Heff); [lia | lia |].
  destruct Heff as [(n & Hn & Hreq) (ws & Hws & Hsl) _ _ _].
  exists res, w'. split; [|split; [|split]].
  - apply (retry_loop_fuel_mono _ _ _ _ _ (S maxRetries)); [lia | exact Hrun].
  - unfold figmaFetchWithRetry. now rewrite Hrun.
  - rewrite Hreq, length_app, repeat_length. lia.
  - rewrite Hsl, length_app. lia.
Qed.

Lemma figmaFetchWithRetry_terminates_witness :
  exists res w',
    retry_loop (script [resp429 (Numeric 1); resp429 (Numeric 2); resp200])
      (Some "figd_token") 5 "u" 2 30 0 empty_world = Some (res, w') /\
    figmaFetchWithRetry
      (script [resp429 (Numeric 1); resp429 (Numeric 2); resp200])
      (Some "figd_token") "u" 2 30 empty_world = (res, w') /\
    length (requested w') <= 0 + 2 + 1 /\ length (slept w') <= 0 + 2.
Proof.
  apply (figmaFetchWithRetry_terminates
           (script [resp429 (Numeric 1); resp429 (Numeric 2); resp200])
           (Some "figd_token") "u" 2 30 empty_world 5).
  lia.
Defined.

Lemma as_sixty_ok r : ok (as_sixty r) = ok r.
Proof. unfold as_sixty. now destruct (_ && _). Qed.

Lemma as_sixty_status r : status (as_sixty r) = status r.
Proof. unfold as_sixty. now destruct (_ && _). Qed.

Lemma defaulted_sixty h : defaulted h = true -> number_or (Number_of h) 60 = 60%Z.
Proof. destruct h as [| |n]; cbn; try reflexivity. now intros ->. Qed.

Lemma as_sixty_retryAfterSec r : retryAfterSec (as_sixty r) = retryAfterSec r.
Proof.
  unfold as_sixty. destruct (status r =? 429)%Z; [|reflexivity].
  destruct (defaulted (retry_after r)) eqn:Hd; [|reflexivity].
  unfold retryAfterSec. cbn. now rewrite defaulted_sixty.
Qed.

Lemma as_sixty_not_429 r : (status r =? 429)%Z = false -> as_sixty r = r.
Proof. unfold as_sixty. now intros ->. Qed.

Lemma retry_loop_as_sixty fetch figmaConfig url maxRetries maxWaitSec :
  forall fuel attempts w,
    retry_loop (fun k u => as_sixty_result (fetch k u)) figmaConfig fuel url
               maxRetries maxWaitSec attempts w
    = retry_loop fetch figmaConfig fuel url maxRetries maxWaitSec attempts w.
Proof.
  induction fuel as [|fuel IH]; intros attempts w; [reflexivity|].
  cbn [retry_loop]. destruct figmaConfig; [|reflexivity].
  unfold fetch_url. destruct (fetch (length (requested w)) url) as [r|e];
    cbn [as_sixty_result]; [|reflexivity].
  rewrite as_sixty_ok, as_sixty_status, as_sixty_retryAfterSec.
  destruct (ok r) eqn:Hok.
  { rewrite as_sixty_not_429; [reflexivity|].
    unfold ok in Hok. apply andb_true_iff in Hok as [H1 H2].
    apply Z.eqb_neq. apply Z.leb_le in H2. lia. }
  destruct (status r =? 429)%Z eqn:Hst.
  - destruct (_ || _); [reflexivity|]. cbn [sleep]. apply IH.
  - now rewrite as_sixty_not_429.
Qed.

(** C10.  A 429 response whose [retry-after] header is missing, is not a
    number, or is the number 0 is handled as one with [retry-after: 60]:
    the duration read is 60, the call behaves as on the service that
    sends 60 in its place, and under [maxWaitSec = 30] it gives the
    rate-limit result at once, without a wait. *)
Theorem retry_after_defaults_to_sixty
    (fetch : nat -> string -> fetch_result) (token url : string)
    (maxRetries : nat) (maxWaitSec : Z) (w : world) (r : response) :
  fetch (length (requested w)) url = Responds r ->
  status r = 429%Z ->
  defaulted (retry_after r) = true ->
  retryAfterSec r = 60%Z /\
  as_sixty r = MkResponse 429 (Numeric 60) (json_body r) (buffer r) /\
  figmaFetchWithRetry fetch (Some token) url maxRetries maxWaitSec w
    = figmaFetchWithRetry (fun k u => as_sixty_result (fetch k u))
        (Some token) url maxRetries maxWaitSec w /\
  figmaFetchWithRetry fetch (Some token) url maxRetries 30 w
    = (Returns (RateLimited "60 seconds"), after w [url] []).
Proof.
  intros Hr Hst Hd.
  assert (H60 : retryAfterSec r = 60%Z) by now apply defaulted_sixty.
  split; [exact H60|]. split; [|split].
  - unfold as_sixty. now rewrite Hst, Hd.
  - unfold figmaFetchWithRetry. now rewrite retry_loop_as_sixty.
  - unfold figmaFetchWithRetry. cbn [retry_loop]. unfold fetch_url.
    rewrite Hr, (status_429_not_ok r Hst), Hst, H60.
    change (429 =? 429)%Z with true. change (30 <? 60)%Z with true.
    cbn [orb]. unfold after. now rewrite app_nil_r.
Qed.

Lemma retry_after_defaults_to_sixty_witness :
  figmaFetchWithRetry (script [resp429 (NotNumeric "soon"); resp200])
    (Some "figd_token") "u" 3 30 empty_world
  = (Returns (RateLimited "60 seconds"), World ["u"] [] ∅ ∅ []).
Proof.
  exact (proj2 (proj2 (proj2 (retry_after_defaults_to_sixty
    (script [resp429 (NotNumeric "soon"); resp200]) "figd_token" "u" 3 30
    empty_world (resp429 (NotNumeric "soon")) eq_refl eq_refl eq_refl)))).
Defined.

Section Paths.

Lemma split_on_cons sep s : exists p ps, split_on sep s = p :: ps.
Proof.
  destruct s as [|c s]; [now exists "", []|]. cbn [split_on].
  destruct (Ascii.eqb c sep); [now eexists _, _|].
  destruct (split_on sep s); now eexists _, _.
Qed.

Lemma split_on_plain sep s :
  all_chars (fun c => negb (Ascii.eqb c sep)) s = true -> split_on sep s = [s].
Proof.
  induction s as [|c s IH]; [reflexivity|]. cbn [all_chars split_on].
  intros [Hc Hs]%andb_true_iff. apply negb_true_iff in Hc. rewrite Hc.
  now rewrite (IH Hs).
Qed.

Lemma split_on_app sep a b :
  split_on sep (a ++ String sep b) = (split_on sep a ++ split_on sep b)%list.
Proof.
  induction a as [|c a IH].
  - rewrite append_empty_l. cbn [split_on]. now rewrite Ascii.eqb_refl.
  - rewrite append_cons. cbn [split_on]. rewrite IH.
    destruct (Ascii.eqb c sep); [reflexivity|].
    destruct (split_on_cons sep a) as (p & ps & ->). reflexivity.
Qed.

Lemma join_split_on sep s : join (String sep "") (split_on sep s) = s.
Proof.
  induction s as [|c s IH]; [reflexivity|]. cbn [split_on].
  destruct (split_on_cons sep s) as (p & ps & E). rewrite E in *.
  destruct (Ascii.eqb c sep) eqn:Hc.
  - apply Ascii.eqb_eq in Hc as ->. now rewrite join_cons, IH.
  - destruct ps as [|q ps].
    + cbn [join] in *. now rewrite IH.
    + rewrite join_cons in *. now rewrite append_cons, IH.
Qed.

Lemma join_app sep (pre post : list string) :
  pre <> [] -> post <> [] ->
  join sep (pre ++ post) = join sep pre ++ sep ++ join sep post.
Proof.
  intros Hpre Hpost. induction pre as [|a pre IH]; [contradiction|].
  destruct pre as [|b pre].
  - destruct post as [|c post]; [contradiction|]. reflexivity.
  - change ((a :: b :: pre) ++ post)%list with (a :: b :: (pre ++ post))%list.
    rewrite !join_cons.
    change (b :: (pre ++ post))%list with ((b :: pre) ++ post)%list.
    rewrite IH by discriminate. now rewrite !append_assoc.
Qed.

Lemma plain_segment_kept allow kept segment :
  plain_segment segment = true ->
  normalize_segment allow kept segment = segment :: kept.
Proof.
  unfold plain_segment, truthy, normalize_segment.
  intros [[[H1 _]%andb_true_iff H2]%andb_true_iff H3]%andb_true_iff.
  apply negb_true_iff in H1, H2, H3. now rewrite H1, H2, H3.
Qed.

Lemma normalize_plain allow segments : forall kept,
  forallb plain_segment segments = true ->
  fold_left (normalize_segment allow) segments kept
  = (rev segments ++ kept)%list.
Proof.
  induction segments as [|x segments IH]; intros kept; [reflexivity|].
  cbn [forallb fold_left rev]. intros [Hx Hs]%andb_true_iff.
  rewrite (plain_segment_kept _ _ _ Hx), (IH _ Hs), <- app_assoc.
  reflexivity.
Qed.

Lemma ends_in_app c a b : b <> "" -> ends_in c (a ++ b) = ends_in c b.
Proof.
  intros Hb. induction a as [|x a IH]; [reflexivity|].
  rewrite append_cons. cbn [ends_in]. rewrite IH.
  destruct (a ++ b) eqn:E; [|reflexivity].
  destruct a; [now rewrite append_empty_l in E | discriminate].
Qed.

Lemma ends_in_no_slash s : no_slash s = true -> ends_in "/" s = false.
Proof.
  unfold no_slash. induction s as [|c s IH]; [reflexivity|].
  cbn [all_chars ends_in]. intros [Hc Hs]%andb_true_iff.
  apply negb_true_iff in Hc. destruct s; [exact Hc | now apply IH].
Qed.

Lemma plain_segment_facts s :
  plain_segment s = true -> s <> "" /\ no_slash s = true.
Proof.
  unfold plain_segment, truthy.
  intros [[[H1 H2]%andb_true_iff _]%andb_true_iff _]%andb_true_iff.
  apply negb_true_iff, String.eqb_neq in H1. now split.
Qed.

Lemma join_plain_nonempty segments :
  segments <> [] -> forallb plain_segment segments = true ->
  join "/" segments <> "".
Proof.
  destruct segments as [|a segments]; [contradiction|]. intros _.
  cbn [forallb]. intros [Ha _]%andb_true_iff.
  apply plain_segment_facts in Ha as [Ha _].
  destruct segments; cbn [join]; destruct a; try contradiction; discriminate.
Qed.

Lemma join_plain_relative segments :
  segments <> [] -> forallb plain_segment segments = true ->
  startsWith "/" (join "/" segments) = false.
Proof.
  destruct segments as [|a segments]; [contradiction|]. intros _.
  cbn [forallb]. intros [Ha _]%andb_true_iff.
  apply plain_segment_facts in Ha as [Hne Ha]. unfold no_slash in Ha.
  destruct a as [|c a]; [contradiction|]. cbn [all_chars] in Ha.
  apply andb_true_iff in Ha as [Hc _]. apply negb_true_iff in Hc.
  rewrite Ascii.eqb_sym in Hc.
  destruct segments; cbn [join]; rewrite ?append_cons; cbn [startsWith];
    now rewrite Hc.
Qed.

(** What [clean_dir] says of the segments of a directory path. *)
Lemma clean_dir_segments d :
  clean_dir d = true ->
  d <> "" /\
  exists lead segments,
    split_on "/" d = (lead ++ segments)%list /\
    segments <> [] /\ forallb plain_segment segments = true /\
    ((lead = [] /\ startsWith "/" d = false) \/
     (lead = [""] /\ startsWith "/" d = true)).
Proof.
  unfold clean_dir. pose proof (join_split_on "/" d) as Hd.
  destruct (split_on "/" d) as [|first rest] eqn:E; [discriminate|].
  destruct (first =? "") eqn:Hfirst.
  - apply String.eqb_eq in Hfirst as ->.
    destruct rest as [|r rest]; [discriminate|]. cbn [andb]. intros Hrest.
    assert (Hstart : d = "/" ++ join "/" (r :: rest)).
    { rewrite <- Hd. now rewrite join_cons. }
    split; [rewrite Hstart; discriminate|].
    exists [""], (r :: rest). split; [reflexivity|]. split; [discriminate|].
    split; [exact Hrest|]. right. split; [reflexivity|]. now rewrite Hstart.
  - intros [Hf Hrest]%andb_true_iff.
    assert (Hall : forallb plain_segment (first :: rest) = true).
    { cbn [forallb]. now rewrite Hf, Hrest. }
    split.
    { rewrite <- Hd. now apply join_plain_nonempty. }
    exists [], (first :: rest). split; [reflexivity|]. split; [discriminate|].
    split; [exact Hall|]. left. split; [reflexivity|].
    rewrite <- Hd. now apply join_plain_relative.
Qed.

Lemma split_on_dir_name d name :
  no_slash name = true ->
  split_on "/" (d ++ "/" ++ name) = (split_on "/" d ++ [name])%list.
Proof.
  intros Hname. change (d ++ "/" ++ name) with (d ++ String "/" name).
  now rewrite split_on_app, (split_on_plain _ _ Hname).
Qed.

(** [path.join] appends a plain name to a clean directory as it is. *)
Lemma path_join_plain d name :
  clean_dir d = true -> plain_segment name = true ->
  path_join d name = d ++ "/" ++ name.
Proof.
  intros Hd Hname.
  destruct (clean_dir_segments d Hd) as (Hne & lead & segs & Hsplit & Hsegs
                                          & Hplain & Hlead).
  destruct (plain_segment_facts name Hname) as [Hname_ne Hname_slash].
  unfold path_join.
  rewrite (proj2 (String.eqb_neq d "") Hne),
    (proj2 (String.eqb_neq name "") Hname_ne).
  unfold path_normalize.
  assert (Hjoined : d ++ "/" ++ name <> "").
  { destruct d; [contradiction | discriminate]. }
  rewrite (proj2 (String.eqb_neq _ "") Hjoined).
  assert (Hstart : startsWith "/" (d ++ "/" ++ name) = startsWith "/" d).
  { destruct d as [|c d]; [contradiction|]. reflexivity. }
  assert (Hend : ends_in "/" (d ++ "/" ++ name) = false).
  { rewrite <- append_assoc, ends_in_app by exact Hname_ne.
    now apply ends_in_no_slash. }
  rewrite Hstart, Hend.
  assert (Hall : forallb plain_segment (segs ++ [name]) = true).
  { rewrite forallb_app, Hplain. cbn. now rewrite Hname. }
  assert (Hnorm : forall allow,
            normalizeString (d ++ "/" ++ name) allow = join "/" (segs ++ [name])).
  { intros allow. unfold normalizeString.
    rewrite (split_on_dir_name _ _ Hname_slash), Hsplit.
    destruct Hlead as [[-> _]|[-> _]]; cbn [app fold_left].
    - now rewrite (normalize_plain _ _ _ Hall), app_nil_r, rev_involutive.
    - change (normalize_segment allow [] "") with (@nil string).
      now rewrite (normalize_plain _ _ _ Hall), app_nil_r, rev_involutive. }
  rewrite Hnorm.
  assert (Hnonempty : join "/" (segs ++ [name]) <> "").
  { apply join_plain_nonempty; [|exact Hall]. now destruct segs. }
  rewrite (proj2 (String.eqb_neq _ "") Hnonempty), append_empty_r.
  pose proof (join_split_on "/" (d ++ "/" ++ name)) as Hback.
  rewrite (split_on_dir_name _ _ Hname_slash), Hsplit in Hback.
  destruct Hlead as [[-> Hrel]|[-> Habs]]; rewrite ?Hrel, ?Habs.
  - rewrite append_empty_l. exact Hback.
  - rewrite <- Hback. cbn [app].
    destruct (segs ++ [name])%list as [|x xs] eqn:E;
      [now destruct segs|]. now rewrite join_cons.
Qed.

Lemma clean_dir_plain d name :
  clean_dir d = true -> plain_segment name = true ->
  clean_dir (d ++ "/" ++ name) = true.
Proof.
  intros Hd Hname. destruct (plain_segment_facts name Hname) as [_ Hslash].
  unfold clean_dir in *. rewrite (split_on_dir_name _ _ Hslash).
  destruct (split_on "/" d) as [|first rest]; [discriminate|].
  cbn [app]. apply andb_true_iff in Hd as [Hfirst Hrest].
  rewrite forallb_app, Hrest. cbn [forallb]. rewrite Hname. cbn [andb].
  rewrite andb_true_r.
  destruct (first =? ""); [|exact Hfirst]. now destruct rest.
Qed.

Lemma parent_dir_plain d name :
  d <> "" -> no_slash name = true -> parent_dir (d ++ "/" ++ name) = d.
Proof.
  intros Hne Hslash. unfold parent_dir.
  rewrite (split_on_dir_name _ _ Hslash), removelast_last, join_split_on.
  now rewrite (proj2 (String.eqb_neq d "") Hne).
Qed.

Lemma segment_prefixes_spec : forall segments done e,
  In e (segment_prefixes done segments) ->
  exists pre post,
    segments = (pre ++ post)%list /\ pre <> [] /\ e = join "/" (done ++ pre).
Proof.
  induction segments as [|x segments IH]; intros done e; [intros []|].
  cbn [segment_prefixes]. intros [<-|Hin].
  - exists [x], segments. split; [reflexivity|]. split; [discriminate|].
    reflexivity.
  - apply IH in Hin as (pre & post & -> & _ & ->).
    exists (x :: pre), post. split; [reflexivity|]. split; [discriminate|].
    now rewrite <- app_assoc.
Qed.

(** A directory above [path] is shorter than [path]. *)
Lemma dirs_above_shorter path e :
  In e (dirs_above path) -> String.length e < String.length path.
Proof.
  unfold dirs_above. intros [Hin _]%filter_In.
  apply segment_prefixes_spec in Hin as (pre & post & E & Hpre & ->).
  destruct (split_on_cons "/" path) as (p & ps & Hsplit).
  assert (Hfull : split_on "/" path
                  = (pre ++ (post ++ [List.last (split_on "/" path) ""]))%list).
  { rewrite app_assoc, <- E. apply app_removelast_last. now rewrite Hsplit. }
  pose proof (join_split_on "/" path) as Hback. rewrite Hfull in Hback.
  rewrite join_app in Hback; [|exact Hpre | now destruct post].
  rewrite app_nil_l, <- Hback, !length_append. cbn. lia.
Qed.

End Paths.

(** On a clean path the disk is read as it is written. *)
Lemma clean_dir_entry d :
  clean_dir d = true -> ends_in "/" d = false /\ always_dir d = false.
Proof.
  intros Hd.
  destruct (clean_dir_segments d Hd) as (Hne & lead & segs & Hsplit & Hsegs
                                          & Hplain & Hlead).
  destruct (exists_last Hsegs) as (segs' & x & ->).
  rewrite forallb_app in Hplain. apply andb_true_iff in Hplain as [_ Hx].
  cbn [forallb] in Hx. rewrite andb_true_r in Hx.
  destruct (plain_segment_facts x Hx) as [Hx_ne Hx_slash].
  split.
  - pose proof (join_split_on "/" d) as Hjoin. rewrite Hsplit, app_assoc in Hjoin.
    rewrite <- Hjoin.
    destruct (lead ++ segs')%list as [|a pre] eqn:E.
    + cbn [app join]. now apply ends_in_no_slash.
    + rewrite join_app by discriminate. cbn [join].
      rewrite ends_in_app by (destruct x; discriminate).
      change ("/" ++ x) with (String "/" x). cbn [ends_in].
      destruct x; [contradiction | now apply ends_in_no_slash].
  - unfold always_dir. rewrite Hsplit, !forallb_app. cbn [forallb].
    assert (Hdots : (x =? ".") || (x =? "..") = false).
    { unfold plain_segment in Hx.
      apply andb_true_iff in Hx as [[_ H1]%andb_true_iff H2].
      apply negb_true_iff in H1, H2. now rewrite H1, H2. }
    rewrite Hdots, !andb_false_r, orb_false_r.
    apply String.eqb_neq. intros ->. vm_compute in Hd. discriminate Hd.
Qed.

Lemma entry_clean d : clean_dir d = true -> entry d = d.
Proof.
  intros [Hend _]%clean_dir_entry. unfold entry. now rewrite Hend.
Qed.

Lemma is_dir_clean w d :
  clean_dir d = true -> is_dir w d = bool_decide (d ∈ dirs w).
Proof.
  intros Hd. unfold is_dir. rewrite (entry_clean d Hd).
  now rewrite (proj2 (clean_dir_entry d Hd)).
Qed.

Lemma is_file_clean w d :
  clean_dir d = true -> is_file w d = bool_decide (is_Some (files w !! d)).
Proof.
  intros Hd. unfold is_file. now rewrite (proj1 (clean_dir_entry d Hd)).
Qed.

(** The two outcomes of a write and of the creation of a directory. *)
Lemma writeFileSync_cases p data w :
  (exists e, writeFileSync p data w = (Throws e, w)) \/
  writeFileSync p data w
  = (Returns tt,
     World (requested w) (slept w) (<[p := data]> (files w)) (dirs w)
           (jira_log w)).
Proof.
  unfold writeFileSync. destruct (p =? ""); [left; now eexists|].
  destruct (ends_in "/" p || is_dir w p); [left; now eexists|].
  destruct (is_dir w (parent_dir p)); [now right|].
  destruct (is_file w (parent_dir p)); left; now eexists.
Qed.

Lemma mkdirSync_cases p w :
  (exists e, mkdirSync p w = (Throws e, w)) \/
  mkdirSync p w
  = (Returns tt,
     World (requested w) (slept w) (files w)
           (list_to_set (dirs_above p ++ [entry p]) ∪ dirs w) (jira_log w)).
Proof.
  unfold mkdirSync. destruct (p =? ""); [left; now eexists|].
  destruct (existsb _ _); [left; now eexists|].
  destruct (is_file w p); [left; now eexists | now right].
Qed.

Lemma length_drop_last s : String.length (drop_last s) <= String.length s.
Proof.
  induction s as [|a s IH]; [reflexivity|]. cbn [drop_last].
  destruct s; cbn [String.length] in *; lia.
Qed.

Lemma length_entry p : String.length (entry p) <= String.length p.
Proof.
  unfold entry. destruct (_ && _); [apply length_drop_last | reflexivity].
Qed.

Section ExportPipeline.

Variable fetch : nat -> string -> fetch_result.
Variable figmaConfig : option string.
Variable URL_new : string -> option URL.
Variable encodeURIComponent : string -> string.
Variable figmaExportsDir : string.

Lemma preserves_ret {X A} (proj : world -> X) (a : A) : preserves proj (ret a).
Proof. now intros w. Qed.

Lemma preserves_throw {X A} (proj : world -> X) e : preserves proj (@throw A e).
Proof. now intros w. Qed.

Lemma preserves_bind {X A B} (proj : world -> X) (m : IO A) (k : A -> IO B) :
  preserves proj m -> (forall a, preserves proj (k a)) ->
  preserves proj (bind m k).
Proof.
  intros Hm Hk w. unfold bind. specialize (Hm w).
  destruct (m w) as [[a|e] w1]; cbn in *; [|exact Hm].
  now rewrite (Hk a w1).
Qed.

Lemma preserves_try_catch {X A} (proj : world -> X) (m : IO A) h :
  preserves proj m -> (forall e, preserves proj (h e)) ->
  preserves proj (try_catch m h).
Proof.
  intros Hm Hh w. unfold try_catch. specialize (Hm w).
  destruct (m w) as [[a|e] w1]; cbn in *; [exact Hm|].
  now rewrite (Hh e w1).
Qed.

Lemma preserves_json_of {X} (proj : world -> X) r : preserves proj (json_of r).
Proof.
  unfold json_of.
  destruct (json_body r); [apply preserves_ret | apply preserves_throw].
Qed.

Lemma quiet_fetch_url url : quiet (fetch_url fetch url).
Proof. intros w. unfold fetch_url. now destruct (fetch _ _). Qed.

Lemma silent_fetch_url url : silent (fetch_url fetch url).
Proof. intros w. unfold fetch_url. now destruct (fetch _ _). Qed.


Lemma silent_existsSync p : silent (existsSync p).
Proof. now intros w. Qed.


Lemma silent_mkdirSync p : silent (mkdirSync p).
Proof.
  intros w. destruct (mkdirSync_cases p w) as [[e ->]| ->]; reflexivity.
Qed.

Lemma silent_writeFileSync p data : silent (writeFileSync p data).
Proof.
  intros w. destruct (writeFileSync_cases p data w) as [[e ->]| ->];
    reflexivity.
Qed.


Lemma silent_figmaFetchWithRetry url maxRetries maxWaitSec :
  silent (figmaFetchWithRetry fetch figmaConfig url maxRetries maxWaitSec).
Proof.
  intros w. unfold figmaFetchWithRetry.
  destruct (retry_loop_bounded fetch figmaConfig url maxRetries maxWaitSec
              (S maxRetries) 0 w) as (res & w' & Hrun & Heff); [lia | lia |].
  rewrite Hrun. cbn. apply Heff.
Qed.

End ExportPipeline.




Lemma blocked_split w p :
  blocked w p
  = (p =? "") || (existsb (is_file w) (dirs_above p) || is_file w p).
Proof.
  unfold blocked. rewrite existsb_app. cbn [existsb]. now rewrite orb_false_r.
Qed.

Lemma mkdirSync_creates w p :
  blocked w p = false ->
  mkdirSync p w
  = (Returns tt,
     World (requested w) (slept w) (files w)
           (list_to_set (dirs_above p ++ [entry p]) ∪ dirs w) (jira_log w)).
Proof.
  rewrite blocked_split.
  intros [Hempty [Habove Hfile]%orb_false_iff]%orb_false_iff.
  unfold mkdirSync. now rewrite Hempty, Habove, Hfile.
Qed.

(** The step [if (!fs.existsSync(d)) fs.mkdirSync(d, { recursive: true })]
    when no file stands in the way: afterwards [d] is a directory, the
    directories are still there, and nothing has changed in the files,
    nor for the longer paths. *)
Lemma ensure_dir w d :
  blocked w d = false ->
  exists w1,
    (if is_file w d || is_dir w d then ret tt else mkdirSync d) w
    = (Returns tt, w1) /\
    requested w1 = requested w /\ slept w1 = slept w /\
    files w1 = files w /\ jira_log w1 = jira_log w /\
    is_dir w1 d = true /\
    (forall p, is_dir w p = true -> is_dir w1 p = true) /\
    forall p, ends_in "/" p = false -> String.length d < String.length p ->
              is_dir w1 p = is_dir w p.
Proof.
  intros Hfree. pose proof Hfree as Hsplit. rewrite blocked_split in Hsplit.
  apply orb_false_iff in Hsplit as [_ [_ Hfile]%orb_false_iff].
  rewrite Hfile. cbn [orb].
  destruct (is_dir w d) eqn:Hdir.
  - exists w. now repeat split.
  - rewrite (mkdirSync_creates w d Hfree). eexists. split; [reflexivity|].
    cbn [requested slept files jira_log]. repeat split.
    + unfold is_dir. cbn [dirs]. rewrite bool_decide_eq_true_2;
        [now rewrite orb_true_r|].
      apply elem_of_union_l, elem_of_list_to_set, elem_of_app. right.
      apply list_elem_of_singleton. reflexivity.
    + intros p. unfold is_dir. cbn [dirs].
      intros [Hp|Hp]%orb_true_iff; [now rewrite Hp|].
      apply bool_decide_eq_true_1 in Hp.
      rewrite bool_decide_eq_true_2; [now rewrite orb_true_r|].
      now apply elem_of_union_r.
    + intros p Hend Hlen. unfold is_dir. cbn [dirs]. f_equal.
      assert (Hentry : entry p = p) by (unfold entry; now rewrite Hend).
      rewrite Hentry.
      apply bool_decide_ext. rewrite elem_of_union, elem_of_list_to_set.
      split; [|now right]. intros [Hin|Hin]; [|exact Hin]. exfalso.
      apply elem_of_app in Hin as [Hin|Hin].
      * apply list_elem_of_In, dirs_above_shorter in Hin. lia.
      * apply list_elem_of_singleton in Hin. subst p.
        pose proof (length_entry d). lia.
Qed.

Lemma length_dir_name d name :
  String.length d < String.length (d ++ "/" ++ name).
Proof. rewrite !length_append. cbn [String.length]. lia. Qed.

Section ExportWrites.

Variable fetch : nat -> string -> fetch_result.
Variable figmaConfig : option string.
Variable encodeURIComponent : string -> string.
Variable figmaExportsDir : string.

Lemma clean_dir_nonempty d : clean_dir d = true -> d <> "".
Proof. intros H ->. discriminate H. Qed.
































(** *** Every successful download is written *)











End ExportWrites.




(** The run on the board: one request for the images of the three
    exportable children, one download for each, and a file for each
    download that succeeds, named after its node. *)
Example board_export_run :
  fst (board_design empty_world)
  = Returns (Design (MkDesign (Some "Board") (Some "2024-06-01T09:00:00Z")
                              board_url (Some "7:1") (Some "Checkout")
                              board_images)) /\
  requested (snd (board_design empty_world))
  = ["https://api.figma.com/v1/files/brd9?depth=1";
     "https://api.figma.com/v1/files/brd9/nodes?ids=7%3A1&depth=2";
     "https://api.figma.com/v1/images/brd9?ids=7%3A2%2C7%3A4%2C7%3A5&format=png&scale=2";
     "https://cdn.example.net/img/72"; "https://cdn.example.net/img/74";
     "https://cdn.example.net/img/75"] /\
  files (snd (board_design empty_world))
  = {[ "/home/dev/.config/figma-mcp/exports/brd9_7_2.png" := "PNG of the cart";
       "/home/dev/.config/figma-mcp/exports/brd9_7_5.png"
       := "PNG of the summary" ]}.
Proof. repeat split; vm_compute; reflexivity. Qed.


Section TicketLog.

Variable fetch : nat -> string -> fetch_result.
Variable jira : nat -> jira_request -> outcome issue.
Variable figmaConfig : option string.
Variable URL_new : string -> option URL.
Variable encodeURIComponent : string -> string.
Variable toLocaleString : string -> string.
Variables attachmentDir figmaExportsDir : string.

Lemma logs_ret {A} (a : A) : logs (ret a) [].
Proof. intros w. exists a, w. now rewrite app_nil_r. Qed.

Lemma logs_bind {A B} (m : IO A) (k : A -> IO B) r1 r2 :
  logs m r1 -> (forall a, logs (k a) r2) -> logs (bind m k) (r1 ++ r2).
Proof.
  intros Hm Hk w. destruct (Hm w) as (a & w1 & E1 & L1).
  destruct (Hk a w1) as (b & w2 & E2 & L2).
  exists b, w2. unfold bind. rewrite E1, E2. split; [reflexivity|].
  now rewrite L2, L1, app_assoc.
Qed.

Lemma logs_attempt_fetchJira r : logs (attempt (fetchJira jira r)) [r].
Proof.
  intros w. unfold attempt, fetchJira. eexists _, _. split; reflexivity.
Qed.

Lemma logs_attempt_silent {A} (m : IO A) : silent m -> logs (attempt m) [].
Proof.
  intros Hm w. unfold attempt. specialize (Hm w).
  destruct (m w) as [o w1]. exists o, w1. split; [reflexivity|].
  cbn in Hm. now rewrite Hm, app_nil_r.
Qed.

Lemma logs_for_each {A S} (g : A -> jira_request) (body : S -> A -> IO S) xs :
  (forall s x, logs (body s x) [g x]) ->
  forall s, logs (for_each xs body s) (map g xs).
Proof.
  intros Hbody. induction xs as [|x xs IH]; intros s; cbn [for_each map].
  - apply logs_ret.
  - change (g x :: map g xs) with ([g x] ++ map g xs)%list.
    apply logs_bind; [apply Hbody | apply IH].
Qed.

Lemma logs_for_each_nil {A S} (body : S -> A -> IO S) xs :
  (forall s x, logs (body s x) []) ->
  forall s, logs (for_each xs body s) [].
Proof.
  intros Hbody. induction xs as [|x xs IH]; intros s; cbn [for_each].
  - apply logs_ret.
  - change (@nil jira_request) with ([] ++ @nil jira_request)%list.
    apply logs_bind; [apply Hbody | apply IH].
Qed.

Lemma silent_downloadAttachment url filename issueKey :
  silent (downloadAttachment fetch attachmentDir url filename issueKey).
Proof.
  unfold downloadAttachment.
  apply preserves_bind; [apply silent_existsSync|]. intros present.
  apply preserves_bind.
  { destruct present; [apply preserves_ret | apply silent_mkdirSync]. }
  intros _. apply preserves_bind; [apply silent_existsSync|]. intros cached.
  destruct cached; [apply preserves_ret|].
  apply preserves_bind; [apply silent_fetch_url|]. intros response.
  destruct (negb (ok response)); [apply preserves_throw|].
  apply preserves_bind; [apply silent_writeFileSync|]. intros _.
  apply preserves_ret.
Qed.

Lemma logs_parent_stage fields l :
  logs (parent_stage jira toLocaleString fields l) (parent_requests fields).
Proof.
  unfold parent_stage, parent_requests. destruct (parent fields) as [p|];
    [|apply logs_ret].
  change [JiraGet (ref_key p) true] with ([JiraGet (ref_key p) true] ++ [])%list.
  apply logs_bind; [apply logs_attempt_fetchJira|].
  intros [pf|e]; apply logs_ret.
Qed.

Lemma logs_attachments_stage fields issueKey downloadImages l :
  logs (attachments_stage fetch attachmentDir fields issueKey downloadImages l) [].
Proof.
  unfold attachments_stage. destruct (nonempty (attachments fields)) as [|a atts];
    [apply logs_ret|].
  apply logs_for_each_nil. intros s att.
  destruct (downloadImages && _); [|apply logs_ret].
  change (@nil jira_request) with ([] ++ @nil jira_request)%list.
  apply logs_bind; [apply logs_attempt_silent, silent_downloadAttachment|].
  intros [localPath|e]; apply logs_ret.
Qed.

Lemma logs_subtasks_stage fields l :
  logs (subtasks_stage jira fields l) (subtask_requests fields).
Proof.
  unfold subtasks_stage, subtask_requests.
  destruct (nonempty (subtasks fields)) as [|st sts]; [apply logs_ret|].
  apply (logs_for_each (fun s => JiraGet (ref_key s) false)). intros s subtask.
  change [JiraGet (ref_key subtask) false]
    with ([JiraGet (ref_key subtask) false] ++ [])%list.
  apply logs_bind; [apply logs_attempt_fetchJira|].
  intros [sf|e]; apply logs_ret.
Qed.

Lemma logs_linked_stage fields l :
  logs (linked_stage jira toLocaleString fields l) (linked_requests fields).
Proof.
  unfold linked_stage, linked_requests.
  destruct (nonempty (issuelinks fields)) as [|lk lks]; [apply logs_ret|].
  rewrite <- (app_nil_r (map _ _)).
  apply logs_bind.
  - apply (logs_for_each (fun l => JiraGet (linked_key l) true)).
    intros s linked.
    change [JiraGet (linked_key linked) true]
      with ([JiraGet (linked_key linked) true] ++ [])%list.
    apply logs_bind; [apply logs_attempt_fetchJira|].
    intros [lf|e]; apply logs_ret.
  - intros l'. destruct (_ <? _)%nat; apply logs_ret.
Qed.

Lemma logs_referenced_stage fields issueKey l :
  logs (referenced_stage jira toLocaleString fields issueKey l)
       (map (fun k => JiraGet k true)
            (firstn maxReferencedToFetch
                    (ticketsToFetch fields issueKey (allText l)))).
Proof.
  unfold referenced_stage.
  destruct (ticketsToFetch fields issueKey (allText l)) as [|k ks];
    [apply logs_ret|].
  rewrite <- (app_nil_r (map _ _)).
  apply logs_bind.
  - apply (logs_for_each (fun k => JiraGet k true)). intros s refKey.
    change [JiraGet refKey true] with ([JiraGet refKey true] ++ [])%list.
    apply logs_bind; [apply logs_attempt_fetchJira|].
    intros [rf|e]; apply logs_ret.
  - intros l'. destruct (_ <? _)%nat; apply logs_ret.
Qed.

Lemma preserves_for_each {X A S} (proj : world -> X)
    (body : S -> A -> IO S) xs :
  (forall s x, preserves proj (body s x)) ->
  forall s, preserves proj (for_each xs body s).
Proof.
  intros Hbody. induction xs as [|x xs IH]; intros s; cbn [for_each].
  - apply preserves_ret.
  - apply preserves_bind; [apply Hbody | apply IH].
Qed.

Lemma silent_save_image fileKey id name imageUrl :
  silent (save_image fetch figmaExportsDir fileKey id name imageUrl).
Proof.
  unfold save_image. apply preserves_bind; [apply silent_fetch_url|].
  intros r. destruct (ok r); [|apply preserves_ret].
  apply preserves_bind; [apply silent_writeFileSync|]. intros _.
  apply preserves_ret.
Qed.

Lemma silent_export_children fileKey exportable images childIds :
  silent (export_children fetch figmaExportsDir fileKey exportable images
                          childIds).
Proof.
  induction childIds as [|childId rest IH]; cbn [export_children].
  - apply preserves_ret.
  - apply preserves_bind.
    + destruct (image_url images childId); [|apply preserves_ret].
      apply preserves_try_catch; [apply silent_save_image|].
      intros e. apply preserves_ret.
    + intros saved. apply preserves_bind; [exact IH|]. intros more.
      apply preserves_ret.
Qed.

Lemma silent_export_node fileKey nodeId doc :
  silent (export_node fetch figmaConfig encodeURIComponent figmaExportsDir
                      fileKey nodeId doc).
Proof.
  unfold export_node. destruct (isLarge (absoluteBoundingBox doc) && _).
  - apply preserves_bind; [apply silent_figmaFetchWithRetry|].
    intros [r|ra]; [|apply preserves_ret].
    destruct (ok r); [|apply preserves_ret].
    apply preserves_bind; [apply preserves_json_of|]. intros imgData.
    apply silent_export_children.
  - apply preserves_bind; [apply silent_figmaFetchWithRetry|].
    intros [r|ra]; [|apply preserves_ret].
    destruct (ok r); [|apply preserves_ret].
    apply preserves_bind; [apply preserves_json_of|]. intros imgData.
    destruct (image_url _ _); [apply silent_save_image | apply preserves_ret].
Qed.

Lemma silent_fetchFigmaDesign_try url fileKey nodeId :
  silent (fetchFigmaDesign_try fetch figmaConfig encodeURIComponent
                               figmaExportsDir url fileKey nodeId).
Proof.
  unfold fetchFigmaDesign_try.
  apply preserves_bind; [apply silent_figmaFetchWithRetry|].
  intros [r|ra]; [|apply preserves_ret].
  destruct (negb (ok r)).
  { destruct (status r =? 403)%Z; [apply preserves_ret|].
    destruct (status r =? 404)%Z; apply preserves_ret. }
  apply preserves_bind; [apply preserves_json_of|]. intros fileData.
  apply preserves_bind; [apply silent_existsSync|]. intros present.
  apply preserves_bind.
  { destruct present; [apply preserves_ret | apply silent_mkdirSync]. }
  intros _. destruct nodeId as [id|]; [|apply preserves_ret].
  destruct (negb (truthy id)); [apply preserves_ret|].
  apply preserves_bind; [apply silent_figmaFetchWithRetry|].
  intros [nr|ra]; [|apply preserves_ret].
  destruct (ok nr); [|apply preserves_ret].
  apply preserves_bind; [apply preserves_json_of|]. intros nodeData.
  destruct (json_nodes nodeData) as [nodes|]; [|apply preserves_ret].
  destruct (nodes !! id) as [[doc|]|]; try apply preserves_ret.
  apply preserves_bind; [apply silent_export_node|]. intros images.
  apply preserves_ret.
Qed.

Lemma silent_fetchFigmaDesign url :
  silent (fetchFigmaDesign fetch figmaConfig URL_new encodeURIComponent
                           figmaExportsDir url).
Proof.
  unfold fetchFigmaDesign.
  destruct figmaConfig as [tok|] eqn:Hcfg; [|apply preserves_ret].
  destruct (parseFigmaUrl URL_new url) as [[ref|]|e];
    [|apply preserves_ret | apply preserves_throw].
  apply preserves_try_catch.
  - rewrite <- Hcfg. apply silent_fetchFigmaDesign_try.
  - intros e. apply preserves_ret.
Qed.

Lemma silent_figma_stage fetchFigma l :
  silent (figma_stage fetch figmaConfig URL_new encodeURIComponent
                      figmaExportsDir fetchFigma l).
Proof.
  unfold figma_stage.
  destruct figmaConfig as [tok|] eqn:Hcfg; [|apply preserves_ret].
  destruct fetchFigma; [|apply preserves_ret].
  destruct (allFigmaUrls l) as [|u us]; [apply preserves_ret|].
  apply preserves_for_each. intros l' url.
  apply preserves_bind.
  - rewrite <- Hcfg. apply silent_fetchFigmaDesign.
  - intros [error|d]; [apply preserves_ret|].
    destruct (truthy_opt (design_name d)); apply preserves_ret.
Qed.

End TicketLog.

Section TicketPool.

Variable fetch : nat -> string -> fetch_result.
Variable jira : nat -> jira_request -> outcome issue.
Variable toLocaleString : string -> string.
Variable attachmentDir : string.

Lemma pool_ret l l' :
  allText l' = allText l -> allUrls l' = allUrls l -> same_pool l (ret l').
Proof. intros Et Eu w l'' [= <-]. now split. Qed.

Lemma pool_bind {A} l (m : IO A) (k : A -> IO locals) :
  (forall a, same_pool l (k a)) -> same_pool l (bind m k).
Proof.
  intros Hk w l'. unfold bind. destruct (m w) as [[a|e] w1]; [|discriminate].
  apply Hk.
Qed.

Lemma pool_then l (m : IO locals) (k : locals -> IO locals) :
  same_pool l m -> (forall l1, same_pool l1 (k l1)) -> same_pool l (bind m k).
Proof.
  intros Hm Hk w l'. unfold bind. specialize (Hm w).
  destruct (m w) as [[l1|e] w1]; [|discriminate].
  intros Hrun. destruct (Hk l1 w1 l' Hrun) as [Et Eu].
  destruct (Hm l1 eq_refl) as [Et1 Eu1]. split; congruence.
Qed.

Lemma pool_for_each {A} (body : locals -> A -> IO locals) xs :
  (forall l x, same_pool l (body l x)) ->
  forall l, same_pool l (for_each xs body l).
Proof.
  intros Hbody. induction xs as [|x xs IH]; intros l; cbn [for_each].
  - now apply pool_ret.
  - apply pool_then; [apply Hbody | apply IH].
Qed.

Lemma pool_start l0 l (m : IO locals) :
  allText l0 = allText l -> allUrls l0 = allUrls l -> same_pool l0 m ->
  same_pool l m.
Proof.
  intros Et Eu Hm w l' Hrun. rewrite <- Et, <- Eu. exact (Hm w l' Hrun).
Qed.

(** The comments of a ticket add their text, and their addresses when
    they are those of the ticket itself. *)
Lemma allText_foreign_comments cs : forall l,
  allText (foreign_comments toLocaleString l cs true)
  = allText l ++ pooled_text cs.
Proof.
  unfold foreign_comments.
  induction cs as [|c cs IH]; intros l; cbn [fold_left pooled_text fold_right].
  - now rewrite append_empty_r.
  - rewrite IH. cbn [pool print allText]. now rewrite !append_assoc.
Qed.

Lemma allText_foreign_comments_off cs : forall l,
  allText (foreign_comments toLocaleString l cs false) = allText l.
Proof.
  unfold foreign_comments.
  induction cs as [|c cs IH]; intros l; cbn [fold_left]; [reflexivity|].
  now rewrite IH.
Qed.

Lemma allUrls_foreign_comments cs pooled : forall l,
  allUrls (foreign_comments toLocaleString l cs pooled) = allUrls l.
Proof.
  unfold foreign_comments.
  induction cs as [|c cs IH]; intros l; cbn [fold_left]; [reflexivity|].
  rewrite IH. destruct pooled; cbn [pool print allUrls]; [|reflexivity].
  apply app_nil_r.
Qed.

Lemma pool_foreign_details l f :
  allText (foreign_details toLocaleString l f) = allText l /\
  allUrls (foreign_details toLocaleString l f) = allUrls l.
Proof.
  unfold foreign_details. destruct (nonempty (comments f)).
  - now destruct (has_text _).
  - rewrite allText_foreign_comments_off, allUrls_foreign_comments.
    now destruct (has_text _).
Qed.

Lemma pool_comments_stage fields l :
  allText (comments_stage toLocaleString fields l)
  = allText l ++ pooled_text (nonempty (comments fields)) /\
  allUrls (comments_stage toLocaleString fields l)
  = (allUrls l ++ pooled_urls (nonempty (comments fields)))%list.
Proof.
  unfold comments_stage.
  destruct (nonempty (comments fields)) as [|c0 cs0] eqn:E.
  { cbn. now rewrite append_empty_r, app_nil_r. }
  generalize (c0 :: cs0). clear E. intros cs.
  match goal with
  | |- context [fold_left ?f cs (print l ?s)] =>
      change (allText l) with (allText (print l s));
      change (allUrls l) with (allUrls (print l s));
      generalize (print l s); set (step := f)
  end.
  induction cs as [|c cs IH]; intros l1;
    cbn [fold_left pooled_text pooled_urls fold_right flat_map].
  - now rewrite append_empty_r, app_nil_r.
  - destruct (IH (step l1 c)) as [Et Eu]. rewrite Et, Eu. subst step.
    cbn [pool print allText allUrls].
    now rewrite !append_assoc, <- !app_assoc.
Qed.

Lemma pool_parent_stage fields l w l' :
  (parent_stage jira toLocaleString fields l w).1 = Returns l' ->
  allText l'
  = allText l
    ++ parent_text
         (match parent fields with
          | Some p => Some (jira (length (jira_log w)) (JiraGet (ref_key p) true))
          | None => None
          end) /\
  allUrls l'
  = (allUrls l
     ++ parent_urls
          (match parent fields with
           | Some p => Some (jira (length (jira_log w)) (JiraGet (ref_key p) true))
           | None => None
           end))%list.
Proof.
  unfold parent_stage. destruct (parent fields) as [p|].
  2:{ intros [= <-]. cbn. now rewrite append_empty_r, app_nil_r. }
  unfold bind, attempt, fetchJira. cbv zeta.
  destruct (jira (length (jira_log w)) (JiraGet (ref_key p) true)) as [pf|e].
  2:{ intros [= <-]. cbn. now rewrite append_empty_r, app_nil_r. }
  cbn [ret fst]. intros [= <-]. cbn [print allText allUrls parent_text parent_urls].
  destruct (nonempty (comments pf)) as [|c cs] eqn:Ecs.
  - cbn [pooled_text fold_right]. destruct (has_text _);
      cbn [pool print allText allUrls];
      now rewrite ?append_empty_r, ?app_nil_r, ?append_assoc.
  - rewrite allText_foreign_comments, allUrls_foreign_comments.
    destruct (has_text _); cbn [pool print allText allUrls];
      now rewrite ?append_empty_l, ?app_nil_r, ?append_assoc.
Qed.

Lemma pool_attachments_stage fields issueKey downloadImages l :
  same_pool l (attachments_stage fetch attachmentDir fields issueKey
                                 downloadImages l).
Proof.
  unfold attachments_stage. destruct (nonempty (attachments fields));
    [now apply pool_ret|].
  eapply pool_start; [| |apply pool_for_each]; [reflexivity | reflexivity|].
  intros acc att. cbv zeta. destruct (downloadImages && _);
    [|now apply pool_ret].
  apply pool_bind. intros [localPath|e]; now apply pool_ret.
Qed.

Lemma pool_subtasks_stage fields l :
  same_pool l (subtasks_stage jira fields l).
Proof.
  unfold subtasks_stage. destruct (nonempty (subtasks fields));
    [now apply pool_ret|].
  eapply pool_start; [| |apply pool_for_each]; [reflexivity | reflexivity|].
  intros acc subtask. apply pool_bind. intros [sf|e]; [|now apply pool_ret].
  apply pool_ret; cbn [print allText allUrls];
    destruct (has_text _); now destruct (assignee sf).
Qed.

Lemma pool_linked_stage fields l :
  same_pool l (linked_stage jira toLocaleString fields l).
Proof.
  unfold linked_stage. destruct (nonempty (issuelinks fields));
    [now apply pool_ret|].
  apply pool_then.
  - eapply pool_start; [| |apply pool_for_each]; [reflexivity | reflexivity|].
    intros acc linked. apply pool_bind. intros [lf|e]; [|now apply pool_ret].
    apply pool_ret; cbn [print allText allUrls];
      [rewrite (proj1 (pool_foreign_details _ _)) |
       rewrite (proj2 (pool_foreign_details _ _))]; reflexivity.
  - intros acc. destruct (_ <? _)%nat; now apply pool_ret.
Qed.

End TicketPool.

(** [allText], when [getTicket] looks for referenced tickets, and
    [allUrls] from then on. *)
Lemma getTicket_pool fetch jira toLocaleString attachmentDir fields issueKey
    downloadImages output0 w0 l1 w1 l2 w2 l3 w3 l4 w4 :
  parent_stage jira toLocaleString fields
    (Locals output0 (ex_text (extractText (description fields) []))
            (ex_urls (extractText (description fields) [])) [] []) w0
  = (Returns l1, w1) ->
  attachments_stage fetch attachmentDir fields issueKey downloadImages
    (comments_stage toLocaleString fields l1) w1 = (Returns l2, w2) ->
  subtasks_stage jira fields l2 w2 = (Returns l3, w3) ->
  linked_stage jira toLocaleString fields l3 w3 = (Returns l4, w4) ->
  allText l4
  = accumulated_text fields
      (match parent fields with
       | Some p => Some (jira (length (jira_log w0)) (JiraGet (ref_key p) true))
       | None => None
       end) /\
  allUrls l4
  = accumulated_urls fields
      (match parent fields with
       | Some p => Some (jira (length (jira_log w0)) (JiraGet (ref_key p) true))
       | None => None
       end).
Proof.
  intros E1 E2 E3 E4.
  destruct (pool_linked_stage jira toLocaleString fields l3 w3 l4) as [Et4 Eu4];
    [now rewrite E4|].
  destruct (pool_subtasks_stage jira fields l2 w2 l3) as [Et3 Eu3];
    [now rewrite E3|].
  destruct (pool_attachments_stage fetch attachmentDir fields issueKey
              downloadImages (comments_stage toLocaleString fields l1) w1 l2)
    as [Et2 Eu2]; [now rewrite E2|].
  destruct (pool_comments_stage toLocaleString fields l1) as [Etc Euc].
  destruct (pool_parent_stage jira toLocaleString fields
              (Locals output0 (ex_text (extractText (description fields) []))
                      (ex_urls (extractText (description fields) [])) [] [])
              w0 l1) as [Et1 Eu1]; [now rewrite E1|].
  cbn [allText allUrls] in Et1, Eu1. unfold accumulated_text, accumulated_urls.
  rewrite Et4, Et3, Et2, Etc, Et1, Eu4, Eu3, Eu2, Euc, Eu1.
  now rewrite append_assoc, <- app_assoc.
Qed.

(** The keys fetched from the text: distinct, and none of them the key of
    the ticket or of a declared relation. *)
Lemma ticketsToFetch_fresh fields issueKey text :
  NoDup (ticketsToFetch fields issueKey text) /\
  forall k, k ∈ ticketsToFetch fields issueKey text ->
    k <> issueKey /\ k ∉ declared_keys fields.
Proof.
  unfold ticketsToFetch. split.
  - apply NoDup_filter, findJiraTicketKeys_ok.
  - intros k [Hk _]%list_elem_of_filter.
    apply negb_True in Hk. rewrite bool_decide_spec in Hk.
    unfold alreadyFetched in Hk. split.
    + intros ->. apply Hk. set_solver.
    + intros Hin. apply Hk. unfold declared_keys in Hin.
      apply elem_of_app in Hin as [Hin|Hin].
      { destruct (parent fields); [|inversion Hin].
        apply list_elem_of_singleton in Hin as ->. set_solver. }
      apply elem_of_app in Hin as [Hin|Hin].
      { apply elem_of_union_l, elem_of_union_r, elem_of_list_to_set, Hin. }
      apply elem_of_union_r, elem_of_list_to_set.
      unfold linkedIssues in Hin.
      apply list_elem_of_fmap in Hin as (lk & -> & Hlk).
      apply list_elem_of_In, in_flat_map in Hlk as (link & Hlink & Hlk).
      apply list_elem_of_In, in_flat_map. exists link. split; [exact Hlink|].
      apply in_app_iff in Hlk. apply in_app_iff.
      destruct Hlk as [Hlk|Hlk]; [left|right].
      * destruct (outwardIssue link); [|inversion Hlk].
        destruct Hlk as [<-|[]]. now left.
      * destruct (inwardIssue link); [|inversion Hlk].
        destruct Hlk as [<-|[]]. now left.
Qed.

(** C1 (amended).  In a run of [getTicket] whose first fetch succeeds, the
    calls of [fetchJira] are, in this order: the ticket itself; its
    parent, if any; every declared subtask; the first ten linked issues;
    and the referenced tickets.  The referenced tickets are the first ten
    keys that [findJiraTicketKeys] finds in the accumulated text (the
    description of the ticket, the description and the comments of the
    parent as fetched, and the comments of the ticket) and that are not
    the key of the ticket, of its parent, of a subtask or of a linked
    issue; they are pairwise distinct. *)
Theorem getTicket_fetches
    (fetch : nat -> string -> fetch_result)
    (jira : nat -> jira_request -> outcome issue)
    (figmaConfig : option string) (URL_new : string -> option URL)
    (encodeURIComponent toLocaleString : string -> string)
    (attachmentDir figmaExportsDir issueKey : string)
    (downloadImages fetchFigma : bool) (w : world) (fields : issue) :
  jira (length (jira_log w)) (JiraGet issueKey true) = Returns fields ->
  exists refs,
    refs = firstn maxReferencedToFetch
             (filter (fun key =>
                        negb (bool_decide
                                (key ∈ alreadyFetched fields issueKey)))
                     (findJiraTicketKeys
                        (accumulated_text fields (parent_answer jira w fields))
                        (Some issueKey))) /\
    jira_log (snd (getTicket fetch jira figmaConfig URL_new encodeURIComponent
                             toLocaleString attachmentDir figmaExportsDir
                             issueKey downloadImages fetchFigma w))
    = (jira_log w ++ [JiraGet issueKey true] ++ parent_requests fields
       ++ subtask_requests fields ++ linked_requests fields
       ++ map (fun k => JiraGet k true) refs)%list /\
    NoDup refs /\ length refs <= maxReferencedToFetch /\
    forall k, k ∈ refs -> k <> issueKey /\ k ∉ declared_keys fields.
Proof.
  intros Hprimary. unfold getTicket.
  unfold bind at 1. unfold fetchJira at 1. rewrite Hprimary.
  set (w1 := World _ _ _ _ _). set (l0 := Locals _ _ _ _ _).
  unfold bind at 1.
  destruct (logs_parent_stage jira toLocaleString fields l0 w1)
    as (l1 & w2 & E2 & L2). rewrite E2.
  unfold bind at 1.
  destruct (logs_attachments_stage fetch attachmentDir fields issueKey
              downloadImages (comments_stage toLocaleString fields l1) w2)
    as (l2 & w3 & E3 & L3). rewrite E3.
  unfold bind at 1.
  destruct (logs_subtasks_stage jira fields l2 w3) as (l3 & w4 & E4 & L4).
  rewrite E4. unfold bind at 1.
  destruct (logs_linked_stage jira toLocaleString fields l3 w4)
    as (l4 & w5 & E5 & L5). rewrite E5.
  unfold bind at 1.
  destruct (logs_referenced_stage jira toLocaleString fields issueKey l4 w5)
    as (l5 & w6 & E6 & L6). rewrite E6.
  pose proof (silent_figma_stage fetch figmaConfig URL_new encodeURIComponent
                figmaExportsDir fetchFigma l5 w6) as L7.
  destruct (getTicket_pool fetch jira toLocaleString attachmentDir fields
              issueKey downloadImages _ w1 l1 w2 l2 w3 l3 w4 l4 w5 E2 E3 E4 E5)
    as [Htext _].
  assert (Hanswer : match parent fields with
                    | Some p =>
                        Some (jira (length (jira_log w1))
                                   (JiraGet (ref_key p) true))
                    | None => None
                    end = parent_answer jira w fields).
  { unfold parent_answer. subst w1. cbn [jira_log]. rewrite length_app.
    cbn [length]. now rewrite Nat.add_1_r. }
  rewrite Hanswer in Htext. rewrite Htext in L6.
  destruct (ticketsToFetch_fresh fields issueKey
              (accumulated_text fields (parent_answer jira w fields)))
    as [Hnd Hfresh].
  unfold ticketsToFetch in L6, Hnd, Hfresh.
  eexists. split; [reflexivity|]. split; [|split; [|split]].
  - transitivity (jira_log w6).
    + unfold bind. destruct (figma_stage _ _ _ _ _ _ _ _) as [[l6|e] w7];
        cbn in L7 |- *; exact L7.
    + rewrite L6, L5, L4, L3, L2. subst w1. cbn [jira_log].
      rewrite app_nil_r, <- !app_assoc. reflexivity.
  - exact (sublist_NoDup _ _ Hnd (sublist_take _ _)).
  - rewrite length_take. lia.
  - intros k Hk. apply Hfresh. now apply (subseteq_take maxReferencedToFetch).
Qed.

Lemma getTicket_fetches_witness :
  jira_log (snd feature_run)
  = ([] ++ [JiraGet "PROJ-4" true] ++ parent_requests feature
     ++ subtask_requests feature ++ linked_requests feature
     ++ map (fun k => JiraGet k true)
            ["PROJ-6"; "PROJ-7"; "PROJ-8"; "PROJ-9"])%list /\
  NoDup ["PROJ-6"; "PROJ-7"; "PROJ-8"; "PROJ-9"] /\
  length ["PROJ-6"; "PROJ-7"; "PROJ-8"; "PROJ-9"] <= maxReferencedToFetch /\
  forall k, k ∈ ["PROJ-6"; "PROJ-7"; "PROJ-8"; "PROJ-9"] ->
            k <> "PROJ-4" /\ k ∉ declared_keys feature.
Proof.
  destruct (getTicket_fetches shop_service feature_tracker (Some "figd_token")
              URL_basic encodeURIComponent_latin1 (fun created => created)
              attachmentsDir exports "PROJ-4" true true empty_world feature
              eq_refl)
    as (refs & Hrefs & Hlog).
  assert (E : refs = ["PROJ-6"; "PROJ-7"; "PROJ-8"; "PROJ-9"])
    by (rewrite Hrefs; vm_compute; reflexivity).
  rewrite E in Hlog. exact Hlog.
Defined.

(** C1 as stated fails: the subtask PROJ-2 is also a linked issue, and it
    is fetched once as a subtask and once more as a linked issue; the key
    of the ticket itself is the first key fetched. *)
Lemma getTicket_fetches_declared_key_twice :
  map req_key (jira_log (snd story_run))
    = ["PROJ-1"; "PROJ-2"; "PROJ-2"; "PROJ-3"] /\
  ~ NoDup (map req_key (jira_log (snd story_run))).
Proof.
  assert (E : map req_key (jira_log (snd story_run))
              = ["PROJ-1"; "PROJ-2"; "PROJ-2"; "PROJ-3"])
    by (vm_compute; reflexivity).
  split; [exact E|]. rewrite E. intros Hnd.
  apply NoDup_cons in Hnd as [_ Hnd]. apply NoDup_cons in Hnd as [Hnot _].
  apply Hnot. apply list_elem_of_here.
Qed.

Section TicketTotality.

Variable fetch : nat -> string -> fetch_result.
Variable jira : nat -> jira_request -> outcome issue.
Variable figmaConfig : option string.
Variable URL_new : string -> option URL.
Variable encodeURIComponent : string -> string.
Variable toLocaleString : string -> string.
Variables attachmentDir figmaExportsDir : string.

Lemma returns_ret {A} (a : A) : returns (ret a).
Proof. intros w. now exists a, w. Qed.

Lemma returns_bind {A B} (m : IO A) (k : A -> IO B) :
  returns m -> (forall a, returns (k a)) -> returns (bind m k).
Proof.
  intros Hm Hk w. destruct (Hm w) as (a & w1 & E1).
  destruct (Hk a w1) as (b & w2 & E2). exists b, w2. unfold bind.
  now rewrite E1, E2.
Qed.

Lemma returns_try_catch {A} (m : IO A) h :
  (forall e, returns (h e)) -> returns (try_catch m h).
Proof.
  intros Hh w. unfold try_catch. destruct (m w) as [[a|e] w1].
  - now exists a, w1.
  - apply Hh.
Qed.

Lemma returns_for_each {A S} (body : S -> A -> IO S) xs :
  (forall s x, returns (body s x)) -> forall s, returns (for_each xs body s).
Proof.
  intros Hbody. induction xs as [|x xs IH]; intros s; cbn [for_each].
  - apply returns_ret.
  - apply returns_bind; [apply Hbody | apply IH].
Qed.

Lemma logs_returns {A} (m : IO A) reqs : logs m reqs -> returns m.
Proof. intros Hm w. destruct (Hm w) as (a & w' & E & _). now exists a, w'. Qed.

(** [fetchFigmaDesign] returns its errors as data once the address has
    gone through the URL constructor. *)
Lemma returns_fetchFigmaDesign url :
  is_Some (URL_new url) ->
  returns (fetchFigmaDesign fetch figmaConfig URL_new encodeURIComponent
                            figmaExportsDir url).
Proof.
  intros [urlObj Hurl]. unfold fetchFigmaDesign, parseFigmaUrl. rewrite Hurl.
  destruct figmaConfig; [|apply returns_ret].
  destruct (parseFigmaUrl_of urlObj); [|apply returns_ret].
  apply returns_try_catch. intros e. apply returns_ret.
Qed.

Lemma returns_figma_stage fetchFigma l :
  (forall url, is_Some (URL_new url)) ->
  returns (figma_stage fetch figmaConfig URL_new encodeURIComponent
                       figmaExportsDir fetchFigma l).
Proof.
  intros Hurls. unfold figma_stage.
  destruct figmaConfig as [tok|] eqn:Hcfg; [|apply returns_ret].
  destruct fetchFigma; [|apply returns_ret].
  destruct (allFigmaUrls l) as [|u us]; [apply returns_ret|].
  apply returns_for_each. intros l' url. apply returns_bind.
  - rewrite <- Hcfg. apply returns_fetchFigmaDesign, Hurls.
  - intros [error|d]; [apply returns_ret|].
    destruct (truthy_opt (design_name d)); apply returns_ret.
Qed.

(** [getTicket] returns whenever the ticket itself is fetched and the URL
    constructor accepts every address it is given: the failures of the
    other fetches and downloads are caught. *)
Lemma getTicket_returns issueKey downloadImages fetchFigma w fields :
  jira (length (jira_log w)) (JiraGet issueKey true) = Returns fields ->
  (forall url, is_Some (URL_new url)) ->
  exists t w',
    getTicket fetch jira figmaConfig URL_new encodeURIComponent toLocaleString
              attachmentDir figmaExportsDir issueKey downloadImages fetchFigma w
    = (Returns t, w').
Proof.
  intros Hprimary Hurls. unfold getTicket.
  unfold bind at 1. unfold fetchJira at 1. rewrite Hprimary.
  set (w1 := World _ _ _ _ _). set (l0 := Locals _ _ _ _ _).
  revert w1. apply returns_bind.
  { eapply logs_returns, logs_parent_stage. }
  intros l1. apply returns_bind.
  { eapply logs_returns, logs_attachments_stage. }
  intros l2. apply returns_bind.
  { eapply logs_returns, logs_subtasks_stage. }
  intros l3. apply returns_bind.
  { eapply logs_returns, logs_linked_stage. }
  intros l4. apply returns_bind.
  { eapply logs_returns, logs_referenced_stage. }
  intros l5. apply returns_bind.
  { now apply returns_figma_stage. }
  intros l6. apply returns_ret.
Qed.

(** A failure of the first fetch is the failure of the call. *)
Lemma getTicket_primary_fatal issueKey downloadImages fetchFigma w e :
  jira (length (jira_log w)) (JiraGet issueKey true) = Throws e ->
  fst (getTicket fetch jira figmaConfig URL_new encodeURIComponent
                 toLocaleString attachmentDir figmaExportsDir issueKey
                 downloadImages fetchFigma w) = Throws e.
Proof.
  intros Hprimary. unfold getTicket, bind, fetchJira. now rewrite Hprimary.
Qed.

End TicketTotality.

(** C5 (defect).  The ticket PROJ-9 is fetched, its description links to
    the address figma.com/file/abc123/Shop, which has no scheme; the URL
    constructor rejects it in [parseFigmaUrl], which [fetchFigmaDesign]
    calls before its [try] block, and the error leaves [getTicket]. *)
Theorem getTicket_throws_on_schemeless_link :
  mockup_tracker 0 (JiraGet "PROJ-9" true) = Returns mockup_issue /\
  URL_basic "figma.com/file/abc123/Shop" = None /\
  fst mockup_run = Throws "Invalid URL".
Proof. repeat split; vm_compute; reflexivity. Qed.

Lemma no_markup_app a b :
  no_markup (a ++ b) = true -> no_markup a = true /\ no_markup b = true.
Proof.
  induction a as [|c a IH]; [now split|]. rewrite append_cons.
  cbn [no_markup]. intros [[Hc Hm]%andb_true_iff Hrest]%andb_true_iff.
  destruct (IH Hrest) as [Ha Hb]. split; [|exact Hb].
  rewrite Hc, Ha. cbn [andb]. rewrite andb_true_r.
  destruct a as [|d a]; [now rewrite andb_false_r | exact Hm].
Qed.

Lemma strip_blanks_app a b :
  strip_blanks (a ++ b) = strip_blanks a ++ strip_blanks b.
Proof.
  induction a as [|c a IH]; [reflexivity|]. rewrite append_cons.
  cbn [strip_blanks]. destruct (isSpace c); [exact IH|].
  now rewrite append_cons, IH.
Qed.

Lemma strip_blanks_blank s : all_chars isSpace s = true -> strip_blanks s = "".
Proof.
  induction s as [|c s IH]; [reflexivity|]. cbn.
  intros [Hc Hs]%andb_true_iff. rewrite Hc. now apply IH.
Qed.

Lemma trimStart_split s :
  exists lead, s = lead ++ trimStart s /\ all_chars isSpace lead = true.
Proof.
  induction s as [|c s (lead & E & Hl)]; [now exists ""|].
  cbn [trimStart]. destruct (isSpace c) eqn:Hc.
  - exists (String c lead). rewrite append_cons, <- E. cbn. now rewrite Hc, Hl.
  - now exists "".
Qed.

Lemma trimEnd_split s :
  exists tail, s = trimEnd s ++ tail /\ all_chars isSpace tail = true.
Proof.
  induction s as [|c s (tail & E & Ht)]; [now exists ""|].
  cbn [trimEnd]. destruct (trimEnd s) as [|d t] eqn:Et.
  - rewrite append_empty_l in E. subst s. destruct (isSpace c) eqn:Hc.
    + exists (String c tail). split; [reflexivity|]. cbn [all_chars].
      now rewrite Hc, Ht.
    + exists tail. now split.
  - exists tail. rewrite append_cons, <- E. now split.
Qed.

Lemma trim_split s :
  exists lead tail, s = lead ++ trim s ++ tail /\
    all_chars isSpace lead = true /\ all_chars isSpace tail = true.
Proof.
  destruct (trimStart_split s) as (lead & E1 & Hl).
  destruct (trimEnd_split (trimStart s)) as (tail & E2 & Ht).
  exists lead, tail. unfold trim. now rewrite <- E2, <- E1.
Qed.

Lemma no_markup_trim s : no_markup s = true -> no_markup (trim s) = true.
Proof.
  destruct (trim_split s) as (lead & tail & E & _). intros H. rewrite E in H.
  apply no_markup_app in H as [_ H]. now apply no_markup_app in H as [H _].
Qed.

Lemma strip_blanks_trim s : strip_blanks (trim s) = strip_blanks s.
Proof.
  destruct (trim_split s) as (lead & tail & E & Hl & Ht).
  rewrite E at 2. rewrite !strip_blanks_app.
  now rewrite (strip_blanks_blank _ Hl), (strip_blanks_blank _ Ht),
    append_empty_r.
Qed.

Lemma glued_nonempty pieces t : glued pieces t -> pieces <> [].
Proof. now destruct 1. Qed.

Lemma glued_cons_head c p ps t :
  glued (p :: ps) t -> glued (String c p :: ps) (String c t).
Proof.
  inversion 1 as [|p' sep ps' t' Hsep Hrest]; subst.
  - constructor.
  - rewrite <- append_cons. now constructor.
Qed.

Lemma glued_no_markup pieces t :
  glued pieces t -> no_markup t = true ->
  Forall (fun p => no_markup p = true) pieces.
Proof.
  induction 1 as [p|p sep ps t Hsep Hg IH]; intros Ht.
  - now repeat constructor.
  - apply no_markup_app in Ht as [Hp Ht]. apply no_markup_app in Ht as [_ Ht].
    constructor; [exact Hp | now apply IH].
Qed.

Lemma glued_strip_blanks pieces t :
  glued pieces t -> strip_blanks t = cat (map strip_blanks pieces).
Proof.
  induction 1 as [p|p sep ps t Hsep Hg IH]; cbn [map cat].
  - now rewrite append_empty_r.
  - now rewrite !strip_blanks_app, (strip_blanks_blank _ Hsep), IH.
Qed.

Lemma split_on_glued s : glued (split_on LF s) s.
Proof.
  induction s as [|c s IH]; [constructor|]. cbn [split_on].
  destruct (Ascii.eqb c LF) eqn:Hc.
  - apply Ascii.eqb_eq in Hc as ->.
    change (String LF s) with ("" ++ String LF "" ++ s). now constructor.
  - destruct (split_on LF s) as [|p ps]; [now apply glued_nonempty in IH|].
    now apply glued_cons_head.
Qed.

Lemma split_blank_lines_glued s :
  forall in_run, exists lead t,
    s = lead ++ t /\ all_chars isSpace lead = true /\
    (in_run = false -> lead = "") /\
    glued (split_blank_lines s in_run) t.
Proof.
  induction s as [|c s IH]; intros in_run.
  - exists "", "". repeat split. constructor.
  - cbn [split_blank_lines].
    destruct (in_run && Ascii.eqb c LF) eqn:Hrun.
    { apply andb_true_iff in Hrun as [-> ->%Ascii.eqb_eq].
      destruct (IH true) as (lead & t & E & Hl & _ & Hg).
      exists (String LF lead), t. rewrite append_cons, <- E.
      repeat split; [exact Hl | discriminate | exact Hg]. }
    destruct (Ascii.eqb c LF && startsWith nl s) eqn:Hsep.
    { apply andb_true_iff in Hsep as [->%Ascii.eqb_eq _].
      destruct (IH true) as (lead & t & E & Hl & _ & Hg).
      exists "", (String LF s). repeat split.
      replace (String LF s) with ("" ++ String LF lead ++ t)
        by (now rewrite E).
      apply glued_more; [|exact Hg].
      change (all_chars isSpace (String LF lead)) with (all_chars isSpace lead).
      exact Hl. }
    destruct (IH false) as (lead & t & E & _ & Hlead & Hg).
    rewrite (Hlead eq_refl), append_empty_l in E. subst t.
    exists "", (String c s). repeat split.
    destruct (split_blank_lines s false) as [|p ps];
      [now apply glued_nonempty in Hg|].
    now apply glued_cons_head.
Qed.

Lemma join_split s : join nl (split_on LF s) = s.
Proof.
  induction s as [|c s IH]; [reflexivity|]. cbn [split_on].
  pose proof (glued_nonempty _ _ (split_on_glued s)) as Hne.
  destruct (split_on LF s) as [|p ps]; [contradiction|].
  destruct (Ascii.eqb c LF) eqn:Hc.
  - apply Ascii.eqb_eq in Hc as ->. now rewrite join_cons, IH.
  - destruct ps as [|q ps].
    + cbn [join] in *. now rewrite IH.
    + rewrite join_cons in *. now rewrite append_cons, IH.
Qed.

Section RoundTrip.

Variable userSearch : string -> option (list user).

Lemma no_markup_cons c s :
  no_markup (String c s) = true -> no_markup s = true.
Proof. cbn. now intros [_ H]%andb_true_iff. Qed.

Lemma strip_prefix_cons_ne a p c s :
  Ascii.eqb a c = false -> strip_prefix (String a p) (String c s) = None.
Proof. intros H. cbn. now rewrite H. Qed.

Lemma inlineRegex_plain s : no_markup s = true -> inlineRegex s = None.
Proof.
  destruct s as [|c s]; [reflexivity|]. cbn [no_markup].
  intros [[[Hb Ha]%andb_true_iff Hm]%andb_true_iff _]%andb_true_iff.
  apply negb_true_iff in Hb, Ha, Hm. unfold inlineRegex.
  rewrite Ascii.eqb_sym in Hb. rewrite Ascii.eqb_sym in Ha.
  rewrite (strip_prefix_cons_ne _ _ _ _ Hb).
  rewrite (strip_prefix_cons_ne "*" "*" _ _ Ha).
  rewrite (strip_prefix_cons_ne "*" "" _ _ Ha).
  destruct s as [|d s]; [reflexivity|]. now rewrite Hm.
Qed.

Lemma app_char_assoc (plain : string) c s :
  (plain ++ String c "") ++ s = plain ++ String c s.
Proof. now rewrite append_assoc. Qed.

Lemma inline_loop_plain s :
  no_markup s = true ->
  forall plain cache,
    inline_loop userSearch s 0 plain cache = (plain_run (plain ++ s), cache).
Proof.
  induction s as [|c s IH]; intros Hs plain cache.
  - cbn. now rewrite append_empty_r.
  - cbn [inline_loop]. rewrite (inlineRegex_plain _ Hs).
    rewrite (IH (no_markup_cons _ _ Hs)). now rewrite app_char_assoc.
Qed.

Lemma parseInlineFormatting_plain text cache :
  no_markup text = true ->
  parseInlineFormatting userSearch text cache = ([text_node text None], cache).
Proof.
  intros Hs. unfold parseInlineFormatting, cbind, cret.
  rewrite (inline_loop_plain _ Hs). cbn [append].
  unfold plain_run, truthy. destruct text; reflexivity.
Qed.

Lemma paragraph_lines_plain lines :
  Forall (fun l => no_markup l = true) lines ->
  forall first cache,
    paragraph_lines userSearch lines first cache
    = (line_nodes lines first, cache).
Proof.
  induction 1 as [|line rest Hline _ IH]; intros first cache; [reflexivity|].
  cbn [paragraph_lines line_nodes]. unfold cbind, cret.
  now rewrite (parseInlineFormatting_plain _ _ Hline), IH.
Qed.

Lemma visit_text_node (s : string) acc :
  visit extractText_obj acc (text_node s None)
  = Extraction (ex_text acc ++ s) (ex_urls acc).
Proof.
  unfold visit. cbn [node_type text_node String.eqb Ascii.eqb Bool.eqb andb
                     node_text node_marks link_hrefs].
  rewrite app_nil_r. unfold or_else, truthy.
  destruct s; reflexivity.
Qed.

Lemma visit_hardBreak acc :
  visit extractText_obj acc hardBreak
  = Extraction (ex_text acc ++ nl) (ex_urls acc).
Proof. reflexivity. Qed.

Lemma visit_paragraph nodes acc :
  visit extractText_obj acc (paragraph nodes)
  = Extraction
      (ex_text acc
       ++ ex_text (extractText_obj (paragraph nodes) (ex_urls acc)) ++ nl)
      (ex_urls (extractText_obj (paragraph nodes) (ex_urls acc))).
Proof. reflexivity. Qed.

Lemma fold_line_nodes lines :
  forall first acc,
    fold_left (visit extractText_obj) (line_nodes lines first) acc
    = Extraction (ex_text acc ++ lines_text lines first) (ex_urls acc).
Proof.
  induction lines as [|line rest IH]; intros first acc.
  - cbn. rewrite append_empty_r. now destruct acc.
  - cbn [line_nodes lines_text]. rewrite fold_left_app. cbn [fold_left].
    rewrite IH, visit_text_node. destruct first; cbn [fold_left ex_text ex_urls].
    + now rewrite append_empty_l, append_assoc.
    + rewrite visit_hardBreak. cbn [ex_text ex_urls].
      now rewrite !append_assoc.
Qed.

Lemma lines_text_later lines :
  lines_text lines false = cat (map (fun l => nl ++ l) lines).
Proof.
  induction lines as [|l rest IH]; [reflexivity|]. cbn [lines_text map cat].
  now rewrite IH, append_assoc.
Qed.

Lemma join_later l rest :
  join nl (l :: rest) = l ++ cat (map (fun l => nl ++ l) rest).
Proof.
  revert l. induction rest as [|r rest IH]; intros l.
  - cbn. now rewrite append_empty_r.
  - rewrite join_cons, IH. cbn [map cat]. now rewrite append_assoc.
Qed.

Lemma decode_paragraph lines urls :
  lines <> [] ->
  extractText_obj (paragraph (line_nodes lines true)) urls
  = Extraction (join nl lines) urls.
Proof.
  intros Hne. destruct lines as [|l rest]; [contradiction|].
  change (extractText_obj (paragraph (line_nodes (l :: rest) true)) urls)
    with (fold_left (visit extractText_obj) (line_nodes (l :: rest) true)
                    (Extraction "" urls)).
  rewrite fold_line_nodes. cbn [ex_text ex_urls lines_text].
  now rewrite !append_empty_l, lines_text_later, join_later.
Qed.

Lemma blocks_content_plain pieces :
  Forall (fun p => no_markup p = true) pieces ->
  forallb (fun b => negb (isBulletList (split_on LF b)))
          (List.filter truthy (map trim pieces)) = true ->
  forall cache,
    blocks_content userSearch pieces cache
    = (map plain_paragraph (List.filter truthy (map trim pieces)), cache).
Proof.
  induction 1 as [|p pieces Hp Hps IH]; intros Hnb cache; [reflexivity|].
  cbn [blocks_content map List.filter] in *.
  destruct (truthy (trim p)) eqn:Ht; [|now apply IH].
  cbn [forallb] in Hnb. apply andb_true_iff in Hnb as [Hb Hnb].
  apply negb_true_iff in Hb. rewrite Hb. unfold cbind, cret.
  rewrite paragraph_lines_plain.
  - now rewrite (IH Hnb).
  - apply (glued_no_markup _ _ (split_on_glued (trim p))).
    now apply no_markup_trim.
Qed.

Lemma fold_paragraphs bs :
  forall acc,
    fold_left (visit extractText_obj) (map plain_paragraph bs) acc
    = Extraction (ex_text acc ++ cat (map (fun b => b ++ nl) bs)) (ex_urls acc).
Proof.
  induction bs as [|b bs IH]; intros acc.
  - cbn. rewrite append_empty_r. now destruct acc.
  - assert (Hv : visit extractText_obj acc (plain_paragraph b)
                 = Extraction (ex_text acc ++ b ++ nl) (ex_urls acc)).
    { unfold plain_paragraph. rewrite visit_paragraph, decode_paragraph.
      - cbn [ex_text ex_urls]. now rewrite join_split.
      - apply (glued_nonempty _ _ (split_on_glued b)). }
    cbn [map fold_left cat]. rewrite IH, Hv. cbn [ex_text ex_urls].
    now rewrite !append_assoc.
Qed.

Lemma strip_blanks_blocks bs :
  strip_blanks (cat (map (fun b => b ++ nl) bs)) = cat (map strip_blanks bs).
Proof.
  induction bs as [|b bs IH]; [reflexivity|]. cbn [map cat].
  rewrite !strip_blanks_app, IH. change (strip_blanks nl) with "".
  now rewrite append_empty_r.
Qed.

Lemma strip_blanks_filter l :
  cat (map strip_blanks (List.filter truthy l)) = cat (map strip_blanks l).
Proof.
  induction l as [|x l IH]; [reflexivity|]. cbn [List.filter map cat].
  destruct x as [|c x]; [exact IH|]. cbn [truthy String.eqb negb map cat].
  now rewrite IH.
Qed.

Lemma strip_blanks_normalized T : strip_blanks (normalized T) = strip_blanks T.
Proof.
  unfold normalized. destruct (nonblank_blocks T) as [|b bs] eqn:E.
  - rewrite strip_blanks_app. change (strip_blanks nl) with "".
    now rewrite append_empty_r.
  - rewrite <- E, strip_blanks_blocks. unfold nonblank_blocks.
    rewrite strip_blanks_filter, map_map.
    destruct (split_blank_lines_glued T false) as (lead & t & Et & _ & Hl & Hg).
    rewrite (Hl eq_refl), append_empty_l in Et. subst t.
    rewrite (glued_strip_blanks _ _ Hg). f_equal.
    apply map_ext. intros p. apply strip_blanks_trim.
Qed.

End RoundTrip.

(** C7 (amended).  For every text without backtick, asterisk or
    capitalised at-mention, and without a bullet-list block, decoding the
    comment built from it gives the blocks of the text that are not blank,
    each trimmed and ended by one line feed (the text and a line feed when
    every block is blank); what is read differs from the text by blanks
    only, and the user cache is left as it was. *)
Theorem decode_encode_plain
    (userSearch : string -> option (list user)) (T : string)
    (userCache : gmap string user) :
  no_markup T = true ->
  no_bullet_block T = true ->
  snd (buildCommentADF userSearch T userCache) = userCache /\
  decode_encode userSearch userCache T = normalized T /\
  strip_blanks (decode_encode userSearch userCache T) = strip_blanks T.
Proof.
  intros Hplain Hnb.
  destruct (split_blank_lines_glued T false) as (lead & t & Et & _ & Hl & Hg).
  rewrite (Hl eq_refl), append_empty_l in Et. subst t.
  pose proof (glued_no_markup _ _ Hg Hplain) as Hpieces.
  assert (Hrun : buildCommentADF userSearch T userCache
                 = (match nonblank_blocks T with
                    | [] => [paragraph [text_node T None]]
                    | bs => map plain_paragraph bs
                    end, userCache)).
  { unfold buildCommentADF, cbind, cret.
    rewrite (blocks_content_plain userSearch _ Hpieces Hnb).
    fold (nonblank_blocks T). now destruct (nonblank_blocks T). }
  assert (Hdec : decode_encode userSearch userCache T = normalized T).
  { unfold decode_encode, normalized. rewrite Hrun. cbn [fst].
    destruct (nonblank_blocks T) as [|b bs].
    - cbn [comment_doc extractText].
      change (extractText_obj (Node "doc" None None None
                (Some [paragraph [text_node T None]])) [])
        with (visit extractText_obj (Extraction "" [])
                (paragraph [text_node T None])).
      rewrite visit_paragraph. cbn [ex_text ex_urls].
      change (extractText_obj (paragraph [text_node T None]) [])
        with (visit extractText_obj (Extraction "" []) (text_node T None)).
      rewrite visit_text_node. reflexivity.
    - cbn [comment_doc extractText].
      change (extractText_obj (Node "doc" None None None
                (Some (map plain_paragraph (b :: bs)))) [])
        with (fold_left (visit extractText_obj)
                (map plain_paragraph (b :: bs)) (Extraction "" [])).
      now rewrite fold_paragraphs. }
  split; [now rewrite Hrun|]. split; [exact Hdec|].
  rewrite Hdec. apply strip_blanks_normalized.
Qed.

Lemma decode_encode_plain_witness :
  decode_encode (fun _ => None) ∅ two_paragraphs
  = "Checkout fails on empty cart " ++ nl ++ "since Monday." ++ nl
    ++ "Ask @ops for the logs." ++ nl.
Proof.
  exact (proj1 (proj2 (decode_encode_plain (fun _ => None) two_paragraphs ∅
                         eq_refl eq_refl))).
Defined.

(** C7 as stated fails: a text of two bullet lines has no backtick, no
    asterisk and no mention, and the comment built from it is read without
    the hyphens that start its lines. *)
Lemma decode_encode_drops_bullet_markers :
  no_markup bullets = true /\
  decode_encode (fun _ => None) ∅ bullets = "one" ++ nl ++ "two" ++ nl /\
  strip_blanks (decode_encode (fun _ => None) ∅ bullets) = "onetwo" /\
  strip_blanks bullets = "-one-two".
Proof. repeat split; vm_compute; reflexivity. Qed.

(* ================================================================= *)
(** * Further properties of the code *)

Section ExtractTextAccumulator.

Lemma visit_appends n :
  appends_only n ->
  forall acc,
    visit extractText_obj acc n
    = Extraction
        (ex_text acc ++ ex_text (visit extractText_obj (Extraction "" []) n))
        (ex_urls acc ++ ex_urls (visit extractText_obj (Extraction "" []) n)).
Proof.
  intros Hn acc. unfold visit. cbn [ex_text ex_urls].
  destruct (node_type n =? "text").
  { now rewrite append_empty_l. }
  destruct (node_type n =? "paragraph").
  { rewrite (Hn (ex_urls acc)). cbn [ex_text ex_urls].
    now rewrite append_empty_l. }
  destruct (node_type n =? "hardBreak").
  { now rewrite append_empty_l, app_nil_r. }
  destruct (node_type n =? "mention").
  { now rewrite append_empty_l, app_nil_r. }
  destruct (isMedia (node_type n)).
  { now rewrite append_empty_l, app_nil_r. }
  destruct (isCard (node_type n)).
  { destruct (attr_url n) as [url|]; [destruct (truthy url)|];
      cbn [ex_text ex_urls];
      rewrite ?append_empty_l, ?append_empty_r, ?app_nil_r;
      now destruct acc. }
  destruct (node_content n).
  - rewrite (Hn (ex_urls acc)). cbn [ex_text ex_urls].
    now rewrite append_empty_l.
  - cbn [ex_text ex_urls]. rewrite append_empty_r, app_nil_r. now destruct acc.
Qed.

Lemma fold_visit_appends cs :
  Forall appends_only cs ->
  forall acc,
    fold_left (visit extractText_obj) cs acc
    = Extraction (ex_text acc ++ children_text cs)
                 (ex_urls acc ++ children_urls cs).
Proof.
  unfold children_text, children_urls.
  induction 1 as [|c cs Hc _ IH]; intros acc.
  - cbn. rewrite append_empty_r, app_nil_r. now destruct acc.
  - cbn [fold_left]. rewrite IH.
    rewrite (IH (visit extractText_obj (Extraction "" []) c)).
    rewrite (visit_appends c Hc acc). cbn [ex_text ex_urls].
    now rewrite append_assoc, app_assoc.
Qed.

Lemma appends_only_all n : appends_only n.
Proof.
  induction n as [t tx m a | t tx m a cs IH] using node_nested_ind;
    intros urls.
  - cbn. now rewrite app_nil_r.
  - change (extractText_obj (Node t tx m a (Some cs)) urls)
      with (fold_left (visit extractText_obj) cs (Extraction "" urls)).
    change (extractText_obj (Node t tx m a (Some cs)) [])
      with (fold_left (visit extractText_obj) cs (Extraction "" [])).
    rewrite (fold_visit_appends cs IH (Extraction "" urls)).
    rewrite (fold_visit_appends cs IH (Extraction "" [])).
    cbn [ex_text ex_urls]. now rewrite !append_empty_l.
Qed.

End ExtractTextAccumulator.

(** X1.  The accumulator of [extractText] is append-only and has no
    influence on the text: called with the list [urls], it returns the text
    it returns when called with an empty list, and [urls] followed by the
    URLs it returns then. *)
Theorem extractText_accumulates (content : adf) (urls : list string) :
  ex_text (extractText content urls) = ex_text (extractText content []) /\
  ex_urls (extractText content urls)
  = (urls ++ ex_urls (extractText content []))%list.
Proof.
  destruct content as [|s|n]; cbn [extractText ex_text ex_urls].
  - now rewrite app_nil_r.
  - now rewrite app_nil_r.
  - now rewrite (appends_only_all n urls).
Qed.

(** X2.  The walk is a homomorphism on the list of children: the text and
    the URLs of a document are those of a first part of its children
    followed by those of the rest. *)
Theorem extractText_children_app (cs1 cs2 : list node) :
  ex_text (extractText (AdfDoc (doc_of (cs1 ++ cs2))) [])
  = ex_text (extractText (AdfDoc (doc_of cs1)) [])
    ++ ex_text (extractText (AdfDoc (doc_of cs2)) []) /\
  ex_urls (extractText (AdfDoc (doc_of (cs1 ++ cs2))) [])
  = (ex_urls (extractText (AdfDoc (doc_of cs1)) [])
     ++ ex_urls (extractText (AdfDoc (doc_of cs2)) []))%list.
Proof.
  assert (Hall : forall cs, Forall appends_only cs).
  { intros cs. apply Forall_forall. intros n _. apply appends_only_all. }
  cbn [extractText].
  assert (Hdoc : forall cs, extractText_obj (doc_of cs) []
                   = fold_left (visit extractText_obj) cs (Extraction "" []))
    by reflexivity.
  rewrite !Hdoc, fold_left_app.
  rewrite (fold_visit_appends cs2 (Hall cs2)
             (fold_left (visit extractText_obj) cs1 (Extraction "" []))).
  cbn [ex_text ex_urls]. split; reflexivity.
Qed.

Section Occurrences.

Lemma span_app p s : s = fst (span p s) ++ snd (span p s).
Proof.
  induction s as [|c s IH]; [reflexivity|]. cbn [span].
  destruct (p c); [|reflexivity].
  destruct (span p s) as [a b]. cbn [fst snd] in *.
  now rewrite append_cons, <- IH.
Qed.

Lemma strip_prefix_app p : forall s r, strip_prefix p s = Some r -> s = p ++ r.
Proof.
  induction p as [|a p IH]; intros s r; cbn [strip_prefix].
  - now intros [= ->].
  - destruct s as [|b s]; [discriminate|].
    destruct (Ascii.eqb a b) eqn:E; [|discriminate].
    apply Ascii.eqb_eq in E as <-. intros H%IH.
    now rewrite append_cons, <- H.
Qed.

Lemma occurs_in_refl s : occurs_in s s.
Proof. exists "", "". now rewrite append_empty_r. Qed.

Lemma occurs_in_cons c x s : occurs_in c s -> occurs_in c (String x s).
Proof. intros (a & b & ->). now exists (String x a), b. Qed.

Lemma occurs_in_prefix c r : occurs_in c (c ++ r).
Proof. now exists "", r. Qed.

Lemma occurs_in_after p c s : occurs_in c s -> occurs_in c (p ++ s).
Proof.
  intros (a & b & ->). exists (p ++ a), b. now rewrite append_assoc.
Qed.

Lemma occurs_in_trans a b c : occurs_in a b -> occurs_in b c -> occurs_in a c.
Proof.
  intros (x & y & ->) (u & v & ->). exists (u ++ x), (y ++ v).
  now rewrite !append_assoc.
Qed.

Lemma startsWith_spec p : forall s,
  startsWith p s = true <-> exists r, s = p ++ r.
Proof.
  induction p as [|a p IH]; intros s; cbn [startsWith].
  - split; [now exists s | reflexivity].
  - destruct s as [|b s].
    + split; [discriminate | intros (r & H); discriminate].
    + rewrite andb_true_iff, IH, Ascii.eqb_eq. split.
      * intros (-> & r & ->). now exists r.
      * intros (r & H). rewrite append_cons in H. injection H as -> ->.
        split; [reflexivity | now exists r].
Qed.

Lemma includes_spec p s : includes p s = true <-> occurs_in p s.
Proof.
  induction s as [|c s IH].
  - cbn [includes]. rewrite orb_false_r, startsWith_spec. split.
    + intros (r & ->). apply occurs_in_prefix.
    + intros (a & b & H). destruct a; [|discriminate].
      rewrite append_empty_l in H. now exists b.
  - cbn [includes]. rewrite orb_true_iff, startsWith_spec, IH. split.
    + intros [(r & ->)|H]; [apply occurs_in_prefix | now apply occurs_in_cons].
    + intros (a & b & H). destruct a as [|x a].
      * left. rewrite append_empty_l in H. now exists b.
      * right. rewrite append_cons in H. injection H as -> ->. now exists a, b.
Qed.

Lemma match_key_app s key rest : match_key s = Some (key, rest) -> s = key ++ rest.
Proof.
  unfold match_key. destruct s as [|c s1]; [discriminate|].
  destruct (isUpper c); [|discriminate].
  pose proof (span_app (fun c => isUpper c || isDigit c) s1) as E1.
  destruct (span (fun c => isUpper c || isDigit c) s1) as [proj s2].
  destruct proj as [|p0 proj]; [discriminate|].
  destruct s2 as [|dash s3]; [discriminate|].
  destruct (Ascii.eqb dash "-") eqn:Hd; [|discriminate].
  apply Ascii.eqb_eq in Hd as ->.
  pose proof (span_app isDigit s3) as E2.
  destruct (span isDigit s3) as [num s4].
  destruct num as [|d0 num]; [discriminate|].
  intros [= <- <-]. cbn [fst snd] in *. rewrite E1, E2.
  now rewrite !append_cons, !append_assoc.
Qed.

Lemma browse_tail_occurs s key n :
  browse_tail s = Some (key, n) -> occurs_in key s.
Proof.
  revert key n. induction s as [|c s IH]; cbn [browse_tail]; [discriminate|].
  intros key n. destruct (isSpace c); [discriminate|].
  destruct (browse_tail s) as [[k m]|].
  - intros [= <- _]. apply occurs_in_cons. now apply (IH k m).
  - destruct (strip_prefix "/browse/" s) as [s''|] eqn:Hs; [|discriminate].
    destruct (match_key s'') as [[k r]|] eqn:Hk; [|discriminate].
    intros [= <- _]. apply occurs_in_cons.
    rewrite (strip_prefix_app _ _ _ Hs), (match_key_app _ _ _ Hk).
    apply occurs_in_after, occurs_in_prefix.
Qed.

Lemma urlRegex_occurs prev s key n :
  urlRegex prev s = Some (key, n) -> occurs_in key s.
Proof.
  unfold urlRegex.
  destruct (strip_prefix "http" s) as [s1|] eqn:H1; [|discriminate].
  rewrite (strip_prefix_app _ _ _ H1).
  destruct (strip_prefix "s" s1) as [r|] eqn:H2.
  - rewrite (strip_prefix_app _ _ _ H2).
    destruct (strip_prefix "://" r) as [s3|] eqn:H3; [|discriminate].
    rewrite (strip_prefix_app _ _ _ H3).
    destruct (browse_tail s3) as [[k m]|] eqn:Hb; [|discriminate].
    intros [= <- _]. do 3 apply occurs_in_after.
    now apply (browse_tail_occurs s3 k m).
  - destruct (strip_prefix "://" s1) as [s3|] eqn:H3; [|discriminate].
    rewrite (strip_prefix_app _ _ _ H3).
    destruct (browse_tail s3) as [[k m]|] eqn:Hb; [|discriminate].
    intros [= <- _]. do 2 apply occurs_in_after.
    now apply (browse_tail_occurs s3 k m).
Qed.

Lemma keyRegex_occurs prev s key n :
  keyRegex prev s = Some (key, n) -> occurs_in key s.
Proof.
  unfold keyRegex. destruct (wordBoundary prev (head_char s)); [|discriminate].
  destruct (match_key s) as [[k r]|] eqn:Hk; [|discriminate].
  destruct (wordBoundary _ _); [|discriminate].
  intros [= <- _]. rewrite (match_key_app _ _ _ Hk). apply occurs_in_prefix.
Qed.

(** The captures of a repeated [exec] occur in the text when every single
    match is taken from the text it is tried on. *)
Lemma exec_all_occurs at_start :
  (forall prev s capture n,
     at_start prev s = Some (capture, n) -> occurs_in capture s) ->
  forall s prev skip,
    Forall (fun capture => occurs_in capture s) (exec_all at_start prev s skip).
Proof.
  intros Hat. induction s as [|c s IH]; intros prev skip; cbn [exec_all];
    [constructor|].
  assert (Hrest : forall k, Forall (fun capture => occurs_in capture (String c s))
                              (exec_all at_start (Some c) s k)).
  { intros k. eapply Forall_impl; [apply IH|]. intros x. apply occurs_in_cons. }
  destruct skip as [|k]; [|apply Hrest].
  destruct (at_start prev (String c s)) as [[capture n]|] eqn:E; [|apply Hrest].
  constructor; [now apply (Hat _ _ _ _ E) | apply Hrest].
Qed.

Lemma fold_add_unless_elem cur matches :
  forall keys k,
    k ∈ fold_left (add_unless cur) matches keys -> k ∈ keys \/ k ∈ matches.
Proof.
  induction matches as [|m ms IH]; intros keys k; cbn [fold_left].
  - now left.
  - intros [Hk|Hk]%IH; [|right; now apply list_elem_of_further].
    unfold add_unless in Hk.
    assert (Hadd : k ∈ set_add keys m -> k ∈ keys \/ k ∈ m :: ms).
    { intros [H| ->]%set_add_elem; [now left | right; apply list_elem_of_here]. }
    destruct cur as [cur|]; [|now apply Hadd].
    destruct (m =? cur); [now left | now apply Hadd].
Qed.

End Occurrences.

(** X3.  [findJiraTicketKeys] never invents a key: every key it returns
    occurs in the text, character for character. *)
Theorem findJiraTicketKeys_occur (text : string) (currentKey : option string)
    (k : string) :
  k ∈ findJiraTicketKeys text currentKey -> includes k text = true.
Proof.
  intros Hk. apply includes_spec. unfold findJiraTicketKeys in Hk.
  destruct (truthy text); [|inversion Hk].
  apply fold_add_unless_elem in Hk as [Hk|Hk].
  - apply fold_add_unless_elem in Hk as [Hk|Hk]; [inversion Hk|].
    pose proof (exec_all_occurs urlRegex urlRegex_occurs text None 0) as H.
    rewrite Forall_forall in H. now apply H.
  - pose proof (exec_all_occurs keyRegex keyRegex_occurs text None 0) as H.
    rewrite Forall_forall in H. now apply H.
Qed.

Lemma findJiraTicketKeys_occur_witness :
  includes "ABC-12" "PROJ-1 blocks ABC-12, see https://x.atlassian.net/browse/ABC-12"
  = true.
Proof.
  apply (findJiraTicketKeys_occur
           "PROJ-1 blocks ABC-12, see https://x.atlassian.net/browse/ABC-12"
           (Some "PROJ-1") "ABC-12").
  vm_compute. apply list_elem_of_here.
Defined.

Lemma existsb_filter_ne cur k keys :
  (k =? cur) = false ->
  existsb (String.eqb k) (List.filter (fun x => negb (x =? cur)) keys)
  = existsb (String.eqb k) keys.
Proof.
  intros Hk. induction keys as [|x keys IH]; [reflexivity|].
  cbn [List.filter existsb]. destruct (x =? cur) eqn:Hx; cbn [negb existsb].
  - rewrite IH. apply String.eqb_eq in Hx as ->. now rewrite Hk.
  - now rewrite IH.
Qed.

Lemma add_unless_filter cur keys k :
  add_unless (Some cur) (List.filter (fun x => negb (x =? cur)) keys) k
  = List.filter (fun x => negb (x =? cur)) (add_unless None keys k).
Proof.
  unfold add_unless, set_add. destruct (k =? cur) eqn:Hk.
  - destruct (existsb (String.eqb k) keys); [reflexivity|].
    rewrite List.filter_app. cbn [List.filter]. rewrite Hk. cbn [negb].
    now rewrite app_nil_r.
  - rewrite (existsb_filter_ne cur k keys Hk).
    destruct (existsb (String.eqb k) keys); [reflexivity|].
    rewrite List.filter_app. cbn [List.filter]. now rewrite Hk.
Qed.

Lemma fold_add_unless_filter cur matches :
  forall keys,
    fold_left (add_unless (Some cur)) matches
              (List.filter (fun x => negb (x =? cur)) keys)
    = List.filter (fun x => negb (x =? cur))
                  (fold_left (add_unless None) matches keys).
Proof.
  induction matches as [|m ms IH]; intros keys; [reflexivity|].
  cbn [fold_left]. now rewrite add_unless_filter, IH.
Qed.

(** X4.  Excluding the current key is the same as removing it afterwards:
    the result for a current key is the result for no current key without
    that key, in the same order. *)
Theorem findJiraTicketKeys_exclusion (text currentKey : string) :
  findJiraTicketKeys text (Some currentKey)
  = List.filter (fun k => negb (k =? currentKey))
                (findJiraTicketKeys text None).
Proof.
  unfold findJiraTicketKeys. destruct (truthy text); [|reflexivity].
  rewrite <- !fold_add_unless_filter. reflexivity.
Qed.

Section DesignAddresses.

Lemma take_chars_append (a b : string) :
  take_chars (String.length (a ++ b) - String.length b) (a ++ b) = a.
Proof.
  rewrite length_append.
  replace (String.length a + String.length b - String.length b)
    with (String.length a) by lia.
  induction a as [|c a IH]; [now destruct b|].
  rewrite append_cons. cbn. now rewrite IH.
Qed.

Lemma figmaRegex_shape prev s r n :
  figmaRegex prev s = Some (r, n) -> design_address r /\ occurs_in r s.
Proof.
  unfold figmaRegex.
  destruct (strip_prefix "https://" s) as [s1|] eqn:H1; [|discriminate].
  set (s2 := match strip_prefix "www." s1 with Some r0 => r0 | None => s1 end).
  assert (Hwww : exists www, s1 = www ++ s2 /\ (www = "" \/ www = "www.")).
  { subst s2. destruct (strip_prefix "www." s1) as [r0|] eqn:Hw.
    - exists "www.". split; [now apply strip_prefix_app | now right].
    - exists "". split; [reflexivity | now left]. }
  destruct Hwww as (www & Es1 & Hw).
  destruct (strip_prefix "figma.com/" s2) as [s3|] eqn:H3; [|discriminate].
  set (kind := match strip_prefix "file" s3 with
               | Some r0 => Some r0
               | None => match strip_prefix "design" s3 with
                         | Some r0 => Some r0
                         | None => strip_prefix "proto" s3
                         end
               end).
  assert (Hkind : forall s4, kind = Some s4 ->
            exists kw, s3 = kw ++ s4 /\ isKeyword kw = true).
  { intros s4. subst kind.
    destruct (strip_prefix "file" s3) as [r0|] eqn:Hf.
    { intros [= <-]. exists "file". split; [now apply strip_prefix_app | reflexivity]. }
    destruct (strip_prefix "design" s3) as [r0|] eqn:Hd.
    { intros [= <-]. exists "design". split; [now apply strip_prefix_app | reflexivity]. }
    intros Hp. exists "proto". split; [now apply strip_prefix_app | reflexivity]. }
  destruct kind as [s4|]; [|discriminate].
  destruct (Hkind s4 eq_refl) as (kw & Es3 & Hkw).
  destruct (strip_prefix "/" s4) as [s5|] eqn:H5; [|discriminate].
  pose proof (span_app isAlnum s5) as E5.
  pose proof (span_all isAlnum s5) as Hkey.
  destruct (span isAlnum s5) as [key s6]. cbn [fst snd] in *.
  destruct key as [|k0 key]; [discriminate|].
  destruct (strip_prefix "/" s6) as [s7|] eqn:H7; [|discriminate].
  pose proof (span_app figmaTailChar s7) as E7.
  pose proof (span_all figmaTailChar s7) as Htail.
  destruct (span figmaTailChar s7) as [tail rest]. cbn [fst snd] in *.
  intros [= <- _].
  assert (Es : s = ("https://" ++ www ++ "figma.com/" ++ kw ++ "/"
                    ++ String k0 key ++ "/" ++ tail) ++ rest).
  { rewrite (strip_prefix_app _ _ _ H1), Es1, (strip_prefix_app _ _ _ H3), Es3,
      (strip_prefix_app _ _ _ H5), E5, (strip_prefix_app _ _ _ H7), E7.
    now rewrite !append_assoc. }
  assert (Er : take_chars (String.length s - String.length rest) s
               = "https://" ++ www ++ "figma.com/" ++ kw ++ "/"
                 ++ String k0 key ++ "/" ++ tail).
  { rewrite Es. apply take_chars_append. }
  rewrite Er. split.
  - exists www, kw, (String k0 key), tail. repeat split; try assumption.
    discriminate.
  - rewrite Es. apply occurs_in_prefix.
Qed.

Lemma dedupe_elem xs x : x ∈ dedupe xs -> x ∈ xs.
Proof.
  unfold dedupe.
  assert (H : forall keys, x ∈ fold_left set_add xs keys -> x ∈ keys \/ x ∈ xs).
  { induction xs as [|y xs IH]; intros keys; cbn [fold_left]; [now left|].
    intros [[Hk| ->]%set_add_elem|Hk]%IH.
    - now left.
    - right. apply list_elem_of_here.
    - right. now apply list_elem_of_further. }
  intros [Hx|Hx]%H; [inversion Hx | exact Hx].
Qed.

Lemma dedupe_NoDup xs : NoDup (dedupe xs).
Proof.
  unfold dedupe.
  assert (H : forall keys, NoDup keys -> NoDup (fold_left set_add xs keys)).
  { induction xs as [|y xs IH]; intros keys Hk; cbn [fold_left]; [exact Hk|].
    apply IH. now apply set_add_NoDup. }
  apply H. constructor.
Qed.

End DesignAddresses.

(** X5.  [findFigmaUrls] returns each address once, and every address it
    returns occurs in the text and has the shape of the pattern: https://,
    an optional www., figma.com/, one of file, design and proto, a key of
    letters and digits between slashes, and a tail without blank, closing
    bracket or quote.  In particular it passes the test [includes
    "figma.com"] that [getTicket] applies to embedded links. *)
Theorem findFigmaUrls_shape (text r : string) :
  r ∈ findFigmaUrls text ->
  NoDup (findFigmaUrls text) /\
  design_address r /\
  includes r text = true /\
  includes "figma.com" r = true.
Proof.
  intros Hr. unfold findFigmaUrls in *. destruct (truthy text); [|inversion Hr].
  split; [apply dedupe_NoDup|].
  apply dedupe_elem in Hr.
  pose proof (exec_all_Forall (fun r => design_address r)
                figmaRegex (fun prev s c n H => proj1 (figmaRegex_shape prev s c n H))
                text None 0) as Hshape.
  pose proof (exec_all_occurs figmaRegex
                (fun prev s c n H => proj2 (figmaRegex_shape prev s c n H))
                text None 0) as Hocc.
  rewrite Forall_forall in Hshape, Hocc.
  specialize (Hshape r Hr). specialize (Hocc r Hr).
  split; [exact Hshape|]. split; [now apply includes_spec|].
  apply includes_spec.
  destruct Hshape as (www & kind & key & tail & -> & _).
  exists ("https://" ++ www), ("/" ++ kind ++ "/" ++ key ++ "/" ++ tail).
  now rewrite !append_assoc.
Qed.

Lemma findFigmaUrls_shape_witness :
  design_address "https://www.figma.com/design/abc123/Shop?node-id=1-2".
Proof.
  apply (findFigmaUrls_shape
    "Mock (https://www.figma.com/design/abc123/Shop?node-id=1-2) for PROJ-1"
    "https://www.figma.com/design/abc123/Shop?node-id=1-2").
  vm_compute. apply list_elem_of_here.
Defined.

Section RetryWaits.

Variable fetch : nat -> string -> fetch_result.
Variable figmaConfig : option string.
Variables (url : string) (maxRetries : nat) (maxWaitSec : Z).

Lemma retry_loop_waits :
  forall fuel attempts w res w',
    retry_loop fetch figmaConfig fuel url maxRetries maxWaitSec attempts w
      = Some (res, w') ->
    exists ws,
      slept w' = (slept w ++ ws)%list /\
      Forall (fun ms => (ms <= maxWaitSec * 1000)%Z) ws /\
      attempts + length ws <= Nat.max attempts maxRetries.
Proof.
  assert (Hnone : forall attempts w w',
            slept w' = slept w ->
            exists ws,
              slept w' = (slept w ++ ws)%list /\
              Forall (fun ms => (ms <= maxWaitSec * 1000)%Z) ws /\
              attempts + length ws <= Nat.max attempts maxRetries).
  { intros attempts w w' E. exists []. rewrite app_nil_r. cbn.
    split; [exact E|]. split; [constructor | lia]. }
  induction fuel as [|fuel IH]; intros attempts w res w'; [discriminate|].
  cbn [retry_loop]. destruct figmaConfig.
  2:{ intros [= _ <-]. now apply Hnone. }
  unfold fetch_url.
  destruct (fetch (length (requested w)) url) as [r|e].
  2:{ intros [= _ <-]. now apply Hnone. }
  destruct (ok r); [intros [= _ <-]; now apply Hnone|].
  destruct (status r =? 429)%Z; [|intros [= _ <-]; now apply Hnone].
  destruct (maxWaitSec <? retryAfterSec r)%Z eqn:Hwait;
    [intros [= _ <-]; now apply Hnone|].
  destruct (maxRetries <=? attempts)%nat eqn:Hatt;
    [intros [= _ <-]; now apply Hnone|].
  cbn [orb sleep]. intros Hrun.
  apply IH in Hrun as (ws & Hsl & Hall & Hlen). cbn [slept] in Hsl.
  apply Z.ltb_ge in Hwait. apply Nat.leb_gt in Hatt.
  exists ((retryAfterSec r * 1000)%Z :: ws). split; [|split].
  - now rewrite Hsl, <- app_assoc.
  - constructor; [lia | exact Hall].
  - cbn [length]. lia.
Qed.

Lemma sum_bounded (bound : Z) (ws : list Z) (n : nat) :
  (0 <= bound)%Z -> Forall (fun ms => (ms <= bound)%Z) ws -> length ws <= n ->
  (total_wait ws <= Z.of_nat n * bound)%Z.
Proof.
  intros Hb Hall. revert n.
  unfold total_wait.
  induction Hall as [|x ws Hx Hall IH]; intros n Hn;
    cbn [fold_right length] in *; [nia|].
  destruct n as [|n]; [lia|]. specialize (IH n ltac:(lia)).
  rewrite Nat2Z.inj_succ. nia.
Qed.

End RetryWaits.

(** X6.  [figmaFetchWithRetry] never waits long: each of its waits lasts at
    most [maxWaitSec] seconds, there are at most [maxRetries] of them, and
    when [maxWaitSec] is not negative the whole call sleeps at most
    [maxRetries * maxWaitSec * 1000] milliseconds, whatever the service
    answers. *)
Theorem figmaFetchWithRetry_wait_bound
    (fetch : nat -> string -> fetch_result) (figmaConfig : option string)
    (url : string) (maxRetries : nat) (maxWaitSec : Z) (w : world) :
  (0 <= maxWaitSec)%Z ->
  exists ws,
    slept (figmaFetchWithRetry fetch figmaConfig url maxRetries maxWaitSec w).2
      = (slept w ++ ws)%list /\
    Forall (fun ms => (ms <= maxWaitSec * 1000)%Z) ws /\
    length ws <= maxRetries /\
    (total_wait ws <= Z.of_nat maxRetries * maxWaitSec * 1000)%Z.
Proof.
  intros Hpos. unfold figmaFetchWithRetry.
  destruct (retry_loop fetch figmaConfig (S maxRetries) url maxRetries
              maxWaitSec 0 w) as [[res w']|] eqn:Hrun.
  - apply retry_loop_waits in Hrun as (ws & Hsl & Hall & Hlen).
    exists ws. cbn [snd]. repeat split; [exact Hsl | exact Hall | lia |].
    rewrite <- Z.mul_assoc. apply sum_bounded; [lia | exact Hall | lia].
  - exists []. cbn. rewrite app_nil_r. repeat split; [constructor | lia | nia].
Qed.

Lemma figmaFetchWithRetry_wait_bound_witness :
  exists ws,
    slept (figmaFetchWithRetry
             (script [resp429 (Numeric 5); resp429 (Numeric 20); resp200])
             (Some "figd_token") "u" 3 30 empty_world).2
      = ([] ++ ws)%list /\
    Forall (fun ms => (ms <= 30 * 1000)%Z) ws /\
    length ws <= 3 /\
    (total_wait ws <= Z.of_nat 3 * 30 * 1000)%Z.
Proof.
  apply (figmaFetchWithRetry_wait_bound
           (script [resp429 (Numeric 5); resp429 (Numeric 20); resp200])
           (Some "figd_token") "u" 3 30 empty_world).
  lia.
Defined.

Section UserLookup.

Variable userSearch : string -> option (list user).

Lemma startsWith_refl (s : string) : startsWith s s = true.
Proof. apply startsWith_spec. exists "". now rewrite append_empty_r. Qed.

Lemma user_eta (u : user) : MkUser (accountId u) (displayName u) = u.
Proof. now destruct u. Qed.

(** The user [searchUser] picks among those the backend returns. *)
Lemma searchUser_found (query : string) (cache : gmap string user)
    (users : list user) :
  cache !! toLowerCase query = None ->
  userSearch query = Some users -> users <> [] ->
  exists r,
    searchUser userSearch query cache
      = (Some r, <[toLowerCase query := r]> cache) /\
    r ∈ users /\
    (forall u, u ∈ users ->
       toLowerCase (displayName u) = toLowerCase query ->
       toLowerCase (displayName r) = toLowerCase query) /\
    (forall u, u ∈ users ->
       startsWith (toLowerCase query) (toLowerCase (displayName u)) = true ->
       startsWith (toLowerCase query) (toLowerCase (displayName r)) = true).
Proof.
  intros Hmiss Hsearch Hne. unfold searchUser. rewrite Hmiss, Hsearch.
  destruct users as [|first rest]; [congruence|].
  set (users := first :: rest).
  destruct (find (fun u => toLowerCase (displayName u) =? toLowerCase query)
                 users) as [e|] eqn:He.
  - apply find_some in He as [Hin He]. apply String.eqb_eq in He.
    exists e. rewrite user_eta. split; [reflexivity|].
    split; [now apply list_elem_of_In|]. split; [now intros|].
    intros _ _ _. rewrite He. apply startsWith_refl.
  - destruct (find (fun u => startsWith (toLowerCase query)
                                        (toLowerCase (displayName u)))
                   users) as [p|] eqn:Hp.
    + apply find_some in Hp as [Hin Hp].
      exists p. rewrite user_eta. split; [reflexivity|].
      split; [now apply list_elem_of_In|]. split; [|now intros].
      intros u Hu%list_elem_of_In Eu.
      apply (find_none _ _ He) in Hu. apply String.eqb_neq in Hu. congruence.
    + exists first. rewrite user_eta. split; [reflexivity|].
      split; [apply list_elem_of_here|]. split.
      * intros u Hu%list_elem_of_In Eu.
        apply (find_none _ _ He) in Hu. apply String.eqb_neq in Hu. congruence.
      * intros u Hu%list_elem_of_In Eu.
        apply (find_none _ _ Hp) in Hu. congruence.
Qed.

End UserLookup.

(** X7.  A user that [searchUser] finds is remembered under the query in
    lower case: every entry of the cache is kept, and a later call whose
    query differs at most by case returns the same user without changing
    the cache, whatever the backend would answer then. *)
Theorem searchUser_remembers
    (userSearch userSearch' : string -> option (list user))
    (query query' : string) (cache cache' : gmap string user) (u : user) :
  searchUser userSearch query cache = (Some u, cache') ->
  toLowerCase query' = toLowerCase query ->
  cache ⊆ cache' /\
  cache' !! toLowerCase query = Some u /\
  searchUser userSearch' query' cache' = (Some u, cache').
Proof.
  intros Hrun Hcase.
  assert (Hentry : cache ⊆ cache' /\ cache' !! toLowerCase query = Some u).
  { unfold searchUser in Hrun.
    destruct (cache !! toLowerCase query) as [c|] eqn:Hc.
    { injection Hrun as <- <-. split; [reflexivity | exact Hc]. }
    destruct (userSearch query) as [[|first rest]|]; try discriminate.
    injection Hrun as <- <-. split.
    - now apply insert_subseteq.
    - apply lookup_insert_eq. }
  destruct Hentry as [Hsub Hentry]. split; [exact Hsub|].
  split; [exact Hentry|].
  unfold searchUser. now rewrite Hcase, Hentry.
Qed.

Lemma searchUser_remembers_witness :
  searchUser (fun _ => None) "ANA costa"
             (<["ana costa" := MkUser "5b10" "Ana Costa"]> ∅)
  = (Some (MkUser "5b10" "Ana Costa"),
     <["ana costa" := MkUser "5b10" "Ana Costa"]> ∅).
Proof.
  refine (proj2 (proj2 (searchUser_remembers
    (fun _ => Some [MkUser "5b10" "Ana Costa"]) (fun _ => None)
    "Ana Costa" "ANA costa" ∅
    (<["ana costa" := MkUser "5b10" "Ana Costa"]> ∅)
    (MkUser "5b10" "Ana Costa") _ _))); reflexivity.
Defined.

(** X8.  On a cache miss with a non-empty answer of the backend,
    [searchUser] returns one of the users of the answer, and not any one:
    when some user of the answer has the queried name up to case, so has
    the result; when some user's name starts with the query up to case, so
    does the result's. *)
Theorem searchUser_best_match
    (userSearch : string -> option (list user)) (query : string)
    (cache : gmap string user) (users : list user) :
  cache !! toLowerCase query = None ->
  userSearch query = Some users -> users <> [] ->
  exists r,
    (searchUser userSearch query cache).1 = Some r /\
    r ∈ users /\
    (forall u, u ∈ users ->
       toLowerCase (displayName u) = toLowerCase query ->
       toLowerCase (displayName r) = toLowerCase query) /\
    (forall u, u ∈ users ->
       startsWith (toLowerCase query) (toLowerCase (displayName u)) = true ->
       startsWith (toLowerCase query) (toLowerCase (displayName r)) = true).
Proof.
  intros Hmiss Hsearch Hne.
  destruct (searchUser_found userSearch query cache users Hmiss Hsearch Hne)
    as (r & Hrun & Hin & Hexact & Hprefix).
  exists r. rewrite Hrun. now repeat split.
Qed.

Lemma searchUser_best_match_witness :
  exists r,
    (searchUser (fun _ => Some [MkUser "1" "Ana Maria Costa";
                                MkUser "2" "Mariana";
                                MkUser "3" "ANA"])
                "Ana" ∅).1 = Some r /\
    r ∈ [MkUser "1" "Ana Maria Costa"; MkUser "2" "Mariana"; MkUser "3" "ANA"] /\
    (forall u,
       u ∈ [MkUser "1" "Ana Maria Costa"; MkUser "2" "Mariana";
            MkUser "3" "ANA"] ->
       toLowerCase (displayName u) = toLowerCase "Ana" ->
       toLowerCase (displayName r) = toLowerCase "Ana") /\
    (forall u,
       u ∈ [MkUser "1" "Ana Maria Costa"; MkUser "2" "Mariana";
            MkUser "3" "ANA"] ->
       startsWith (toLowerCase "Ana") (toLowerCase (displayName u)) = true ->
       startsWith (toLowerCase "Ana") (toLowerCase (displayName r)) = true).
Proof.
  apply (searchUser_best_match
           (fun _ => Some [MkUser "1" "Ana Maria Costa"; MkUser "2" "Mariana";
                           MkUser "3" "ANA"])
           "Ana" ∅
           [MkUser "1" "Ana Maria Costa"; MkUser "2" "Mariana";
            MkUser "3" "ANA"]).
  - reflexivity.
  - reflexivity.
  - discriminate.
Defined.

Section InlineSource.

Variable userSearch : string -> option (list user).
Hypothesis nobody : forall query, userSearch query = None.

Lemma lazy_until_app close : forall s capture,
  lazy_until close s = Some capture ->
  capture <> "" /\ exists rest, s = capture ++ close ++ rest.
Proof.
  induction s as [|c s IH]; intros capture; [discriminate|].
  cbn [lazy_until]. destruct (isLineTerminator c); [discriminate|].
  destruct (startsWith close s) eqn:Hclose.
  - intros [= <-]. split; [discriminate|].
    apply startsWith_spec in Hclose as [rest ->]. now exists rest.
  - destruct (lazy_until close s) as [cap|]; [|discriminate].
    intros [= <-]. split; [discriminate|].
    destruct (IH cap eq_refl) as [_ [rest ->]]. now exists rest.
Qed.

Lemma name_tail_prefix : forall n s,
  String.length s <= n -> exists rest, s = name_tail s ++ rest.
Proof.
  induction n as [|n IH]; intros s Hn.
  - destruct s; [now exists "" | cbn in Hn; lia].
  - destruct s as [|c s]; [now exists ""|].
    cbn [name_tail]. cbn [String.length] in Hn.
    destruct (isNameChar c).
    { destruct (IH s) as [rest E]; [lia|]. exists rest.
      rewrite append_cons. now rewrite <- E. }
    destruct (isSpace c); [|now exists (String c s)].
    destruct s as [|d s]; [now exists (String c "")|].
    destruct (isUpper d); [|now exists (String c (String d s))].
    cbn [String.length] in Hn.
    destruct (IH s) as [rest E]; [lia|]. exists rest.
    rewrite !append_cons. now rewrite <- E.
Qed.

Lemma inlineRegex_source s m len :
  inlineRegex s = Some (m, len) ->
  len = String.length (match_source m) /\
  capture_of m <> "" /\
  exists rest, s = match_source m ++ rest.
Proof.
  assert (Hspan : forall (open : string) r capture,
            strip_prefix open s = Some r ->
            lazy_until open r = Some capture ->
            2 * String.length open + String.length capture
              = String.length (open ++ capture ++ open) /\
            capture <> "" /\
            exists rest, s = (open ++ capture ++ open) ++ rest).
  { intros open r capture Hs Hr. split; [|split].
    - rewrite !length_append. lia.
    - now apply lazy_until_app in Hr.
    - apply strip_prefix_app in Hs as ->.
      apply lazy_until_app in Hr as [_ [rest ->]]. exists rest.
      now rewrite !append_assoc. }
  unfold inlineRegex.
  destruct (strip_prefix "`" s) as [r1|] eqn:H1.
  1: destruct (lazy_until "`" r1) as [c1|] eqn:L1.
  1: { intros [= <- <-]. exact (Hspan _ _ _ H1 L1). }
  all: destruct (strip_prefix "**" s) as [r2|] eqn:H2.
  1,3: destruct (lazy_until "**" r2) as [c2|] eqn:L2.
  1,3: intros [= <- <-]; exact (Hspan _ _ _ H2 L2).
  all: destruct (strip_prefix "*" s) as [r3|] eqn:H3.
  all: try (destruct (lazy_until "*" r3) as [c3|] eqn:L3;
            [intros [= <- <-]; exact (Hspan _ _ _ H3 L3)|]).
  all: destruct s as [|a [|c r]]; try discriminate.
  all: destruct (Ascii.eqb a "@" && isUpper c) eqn:Hat; [|discriminate].
  all: apply andb_true_iff in Hat as [->%Ascii.eqb_eq _].
  all: intros [= <- <-]; split; [reflexivity|]; split; [discriminate|].
  all: destruct (name_tail_prefix _ r (le_n _)) as [rest E]; exists rest.
  all: change (String "@" (String c r)
               = String "@" (String c (name_tail r ++ rest))).
  all: now rewrite <- E.
Qed.

Lemma inline_loop_skip : forall s k cache,
  k <= String.length s ->
  inline_loop userSearch s k "" cache
  = inline_loop userSearch (drop_chars k s) 0 "" cache.
Proof.
  induction s as [|c s IH]; intros k cache Hk.
  - cbn in Hk. now replace k with 0 by lia.
  - destruct k as [|k]; [reflexivity|]. cbn [inline_loop drop_chars].
    cbn [String.length] in Hk. apply IH. lia.
Qed.

Lemma drop_chars_append (a b : string) :
  drop_chars (String.length a) (a ++ b) = b.
Proof.
  induction a as [|c a IH]; [now destruct b|].
  rewrite append_cons. exact IH.
Qed.

Lemma take_chars_prefix (a b : string) :
  take_chars (String.length a) (a ++ b) = a.
Proof.
  induction a as [|c a IH]; [now destruct b|].
  rewrite append_cons. cbn. now rewrite IH.
Qed.

Lemma match_source_cons m : exists c tail, match_source m = String c tail.
Proof. destruct m; cbn [match_source]; eexists _, _; reflexivity. Qed.

Lemma node_of_match_source m :
  capture_of m <> "" ->
  exists n,
    node_of_match userSearch m (match_source m) ∅ = (n, ∅) /\
    node_source n = match_source m /\ text_nonempty n.
Proof.
  intros Hne. destruct m as [c|c|c|c]; cbn [node_of_match match_source].
  1-3: eexists; split; [reflexivity|]; split; [reflexivity|].
  1-3: now exists c.
  unfold cbind, searchUser. rewrite lookup_empty, nobody. cbn [cret].
  eexists. split; [reflexivity|]. split.
  - unfold node_source. cbn [node_text text_node node_marks mark_delimiter].
    now rewrite append_empty_r.
  - eexists. repeat split. discriminate.
Qed.

Lemma nodes_source_app ns1 ns2 :
  nodes_source (ns1 ++ ns2) = nodes_source ns1 ++ nodes_source ns2.
Proof.
  unfold nodes_source. induction ns1 as [|n ns1 IH]; [reflexivity|].
  cbn [app map cat]. now rewrite IH, append_assoc.
Qed.

Lemma plain_run_source plain :
  nodes_source (plain_run plain) = plain /\
  Forall text_nonempty (plain_run plain).
Proof.
  unfold plain_run, truthy. destruct (plain =? "") eqn:E; cbn [negb].
  - apply String.eqb_eq in E as ->. split; [reflexivity | constructor].
  - apply String.eqb_neq in E. split.
    + unfold nodes_source, node_source. cbn. now rewrite !append_empty_r.
    + constructor; [|constructor]. now exists plain.
Qed.

Lemma inline_loop_source : forall n s,
  String.length s <= n ->
  forall plain, exists nodes,
    inline_loop userSearch s 0 plain ∅ = (nodes, ∅) /\
    nodes_source nodes = plain ++ s /\
    Forall text_nonempty nodes.
Proof.
  induction n as [|n IH]; intros s Hn plain.
  { destruct s; [|cbn in Hn; lia]. exists (plain_run plain).
    destruct (plain_run_source plain) as [Hsrc Hall].
    split; [reflexivity|]. split; [now rewrite append_empty_r | exact Hall]. }
  destruct s as [|c s].
  { exists (plain_run plain). destruct (plain_run_source plain) as [Hsrc Hall].
    split; [reflexivity|]. split; [now rewrite append_empty_r | exact Hall]. }
  cbn [String.length] in Hn. cbn [inline_loop].
  destruct (inlineRegex (String c s)) as [[m len]|] eqn:Hm.
  - apply inlineRegex_source in Hm as (-> & Hcap & rest & Es).
    assert (Etake : take_chars (String.length (match_source m)) (String c s)
                    = match_source m).
    { rewrite Es. apply take_chars_prefix. }
    destruct (node_of_match_source m Hcap) as (nd & Hnd & Hsrc & Htext).
    destruct (match_source_cons m) as (c0 & tail & Esrc).
    assert (Hrest : drop_chars (String.length (match_source m) - 1) s = rest).
    { rewrite Esrc in Es |- *. rewrite append_cons in Es.
      injection Es as _ ->. cbn [String.length].
      replace (S (String.length tail) - 1) with (String.length tail) by lia.
      apply drop_chars_append. }
    assert (Hlen : String.length (match_source m) - 1 <= String.length s).
    { rewrite Esrc in Es |- *. rewrite append_cons in Es.
      injection Es as _ ->. rewrite length_append. cbn [String.length]. lia. }
    destruct (IH rest) with (plain := "") as (more & Hmore & Hmsrc & Hmall).
    { rewrite <- Hrest. clear -Hn Hlen.
      assert (H : forall k t, String.length (drop_chars k t) <= String.length t).
      { induction k as [|k IHk]; intros [|a t]; cbn; try lia.
        specialize (IHk t). lia. }
      specialize (H (String.length (match_source m) - 1) s). lia. }
    exists (plain_run plain ++ nd :: more)%list.
    destruct (plain_run_source plain) as [Hpsrc Hpall].
    unfold cbind. rewrite Etake, Hnd.
    rewrite (inline_loop_skip _ _ _ Hlen), Hrest.
    rewrite Hmore. split; [reflexivity|]. split.
    + rewrite nodes_source_app, Hpsrc.
      change (nodes_source (nd :: more)) with (node_source nd ++ nodes_source more).
      rewrite Hsrc, Hmsrc, append_empty_l. now rewrite Es.
    + apply Forall_app. split; [exact Hpall|]. now constructor.
  - destruct (IH s) with (plain := plain ++ String c "")
      as (nodes & Hrun & Hsrc & Hall); [lia|].
    exists nodes. split; [exact Hrun|]. split; [|exact Hall].
    now rewrite Hsrc, app_char_assoc.
Qed.

End InlineSource.

(** X9.  [parseInlineFormatting] loses no character.  When no user is
    found for a mention, the nodes are text nodes whose sources, the text
    of a node between the delimiters of its mark, read together give the
    text back; the cache is left empty; and no node has an empty text
    unless the text itself is empty. *)
Theorem parseInlineFormatting_lossless
    (userSearch : string -> option (list user)) (text : string) :
  (forall query, userSearch query = None) ->
  nodes_source (parseInlineFormatting userSearch text ∅).1 = text /\
  (parseInlineFormatting userSearch text ∅).2 = ∅ /\
  Forall (fun n => exists t, node_type n = "text" /\ node_text n = Some t /\
                             (t = "" -> text = ""))
         (parseInlineFormatting userSearch text ∅).1.
Proof.
  intros nobody. unfold parseInlineFormatting, cbind, cret.
  destruct (inline_loop_source userSearch nobody _ text (le_n _) "")
    as (nodes & Hrun & Hsrc & Hall).
  rewrite Hrun. rewrite append_empty_l in Hsrc. cbn [fst snd].
  destruct nodes as [|n nodes].
  - cbn in Hsrc. subst text. split; [reflexivity|]. split; [reflexivity|].
    constructor; [|constructor]. now exists "".
  - split; [exact Hsrc|]. split; [reflexivity|].
    eapply Forall_impl; [exact Hall|].
    intros x (t & Hty & Htx & Hne). exists t. now repeat split.
Qed.

Lemma parseInlineFormatting_lossless_witness :
  nodes_source
    (parseInlineFormatting (fun _ => None)
       "see **bold** and `code` by @Ana Costa, *now*" ∅).1
  = "see **bold** and `code` by @Ana Costa, *now*".
Proof.
  refine (proj1 (parseInlineFormatting_lossless (fun _ => None)
    "see **bold** and `code` by @Ana Costa, *now*" _)).
  reflexivity.
Defined.

Section CommentShape.

Variable userSearch : string -> option (list user).

Lemma inline_text_node t ms : inline_node (text_node t ms).
Proof. split; [reflexivity | now left]. Qed.

Lemma node_of_match_inline m whole cache :
  inline_node (node_of_match userSearch m whole cache).1.
Proof.
  destruct m as [c|c|c|c]; cbn [node_of_match cret fst];
    try apply inline_text_node.
  unfold cbind. destruct (searchUser userSearch (trim c) cache) as [[u|] cache'].
  - split; [reflexivity | right; now left].
  - apply inline_text_node.
Qed.

Lemma plain_run_inline plain : Forall inline_node (plain_run plain).
Proof.
  unfold plain_run. destruct (truthy plain); [|constructor].
  constructor; [apply inline_text_node | constructor].
Qed.

Lemma inline_loop_inline : forall s skip plain cache,
  Forall inline_node (inline_loop userSearch s skip plain cache).1.
Proof.
  induction s as [|c s IH]; intros skip plain cache.
  { apply plain_run_inline. }
  cbn [inline_loop]. destruct skip as [|k]; [|apply IH].
  destruct (inlineRegex (String c s)) as [[m len]|]; [|apply IH].
  unfold cbind.
  pose proof (node_of_match_inline m (take_chars len (String c s)) cache) as Hn.
  destruct (node_of_match userSearch m _ cache) as [nd cache1].
  pose proof (IH (len - 1) "" cache1) as Hrest.
  destruct (inline_loop userSearch s (len - 1) "" cache1) as [rest cache2].
  cbn [cret fst] in *. apply Forall_app. split; [apply plain_run_inline|].
  now constructor.
Qed.

Lemma parseInlineFormatting_inline text cache :
  (parseInlineFormatting userSearch text cache).1 <> [] /\
  Forall inline_node (parseInlineFormatting userSearch text cache).1.
Proof.
  unfold parseInlineFormatting, cbind.
  pose proof (inline_loop_inline text 0 "" cache) as Hall.
  destruct (inline_loop userSearch text 0 "" cache) as [[|n nodes] cache'];
    cbn [cret fst] in *.
  - split; [discriminate|]. constructor; [apply inline_text_node | constructor].
  - split; [discriminate | exact Hall].
Qed.

Lemma bullet_items_shape : forall lines cache,
  Forall comment_item (bullet_items userSearch lines cache).1 /\
  (lines <> [] -> (bullet_items userSearch lines cache).1 <> []).
Proof.
  induction lines as [|line lines IH]; intros cache.
  { split; [constructor | congruence]. }
  cbn [bullet_items]. unfold cbind.
  destruct (parseInlineFormatting_inline
              (drop_chars 2 (trimStart line)) cache) as [Hne Hall].
  destruct (parseInlineFormatting userSearch _ cache) as [inl cache1].
  destruct (IH cache1) as [Hitems _].
  destruct (bullet_items userSearch lines cache1) as [items cache2].
  cbn [cret fst] in *. split; [|discriminate].
  constructor; [|exact Hitems].
  exists (paragraph inl). split; [reflexivity|]. now exists inl.
Qed.

Lemma paragraph_lines_shape : forall lines first cache,
  Forall inline_node (paragraph_lines userSearch lines first cache).1 /\
  (lines <> [] -> (paragraph_lines userSearch lines first cache).1 <> []).
Proof.
  induction lines as [|line lines IH]; intros first cache.
  { split; [constructor | congruence]. }
  cbn [paragraph_lines]. unfold cbind.
  destruct (parseInlineFormatting_inline line cache) as [Hne Hall].
  destruct (parseInlineFormatting userSearch line cache) as [inl cache1].
  destruct (IH false cache1) as [Hmore _].
  destruct (paragraph_lines userSearch lines false cache1) as [more cache2].
  cbn [cret fst] in *. split.
  - apply Forall_app. split.
    + destruct first; [constructor|].
      constructor; [|constructor]. split; [reflexivity | right; now right].
    + apply Forall_app. now split.
  - intros _ E. apply app_eq_nil in E as [_ E].
    apply app_eq_nil in E as [E _]. contradiction.
Qed.

Lemma split_on_nonempty sep s : split_on sep s <> [].
Proof.
  destruct s as [|c s]; [discriminate|]. cbn [split_on].
  destruct (Ascii.eqb c sep); [discriminate|].
  destruct (split_on sep s); discriminate.
Qed.

Lemma blocks_content_shape : forall blocks cache,
  Forall comment_block (blocks_content userSearch blocks cache).1.
Proof.
  induction blocks as [|block blocks IH]; intros cache; [constructor|].
  cbn [blocks_content]. destruct (truthy (trim block)); [|apply IH].
  pose proof (split_on_nonempty LF (trim block)) as Hlines.
  destruct (isBulletList (split_on LF (trim block))); unfold cbind.
  - destruct (bullet_items_shape (split_on LF (trim block)) cache)
      as [Hitems Hne].
    destruct (bullet_items userSearch _ cache) as [items cache1].
    pose proof (IH cache1) as Hmore.
    destruct (blocks_content userSearch blocks cache1) as [more cache2].
    cbn [cret fst] in *. constructor; [|exact Hmore].
    right. exists items. split; [reflexivity|]. split; [now apply Hne | exact Hitems].
  - destruct (paragraph_lines_shape (split_on LF (trim block)) true cache)
      as [Hall Hne].
    destruct (paragraph_lines userSearch _ true cache) as [cs cache1].
    pose proof (IH cache1) as Hmore.
    destruct (blocks_content userSearch blocks cache1) as [more cache2].
    cbn [cret fst] in *. constructor; [|exact Hmore].
    left. exists cs. split; [reflexivity|]. split; [now apply Hne | exact Hall].
Qed.

End CommentShape.

(** X10.  Whatever the text, the cache and the backend, the content that
    [buildCommentADF] builds is not empty and is made of paragraphs and
    bullet lists only: a paragraph holds at least one inline node, the
    inline nodes are texts, mentions and hard breaks without children, and
    a bullet list holds at least one item, each wrapping one such
    paragraph. *)
Theorem buildCommentADF_shape
    (userSearch : string -> option (list user)) (text : string)
    (cache : gmap string user) :
  (buildCommentADF userSearch text cache).1 <> [] /\
  Forall comment_block (buildCommentADF userSearch text cache).1.
Proof.
  unfold buildCommentADF, cbind.
  pose proof (blocks_content_shape userSearch
                (split_blank_lines text false) cache) as Hall.
  destruct (blocks_content userSearch _ cache) as [[|b bs] cache'];
    cbn [cret fst] in *.
  - split; [discriminate|]. constructor; [|constructor].
    left. exists [text_node text None]. split; [reflexivity|].
    split; [discriminate|]. constructor; [|constructor].
    split; [reflexivity | now left].
  - split; [discriminate | exact Hall].
Qed.

Section Attachments.

Variable fetch : nat -> string -> fetch_result.
Variable attachmentDir : string.

(** For a clean directory and plain names, [path.join] builds the path of
    the attachment by concatenation. *)
Lemma attachment_path_join issueKey filename :
  clean_dir attachmentDir = true -> plain_segment issueKey = true ->
  plain_segment filename = true ->
  path_join attachmentDir issueKey = attachmentDir ++ "/" ++ issueKey /\
  path_join (path_join attachmentDir issueKey) filename
  = attachment_path attachmentDir issueKey filename /\
  parent_dir (attachment_path attachmentDir issueKey filename)
  = attachmentDir ++ "/" ++ issueKey /\
  clean_dir (attachmentDir ++ "/" ++ issueKey) = true /\
  clean_dir (attachment_path attachmentDir issueKey filename) = true /\
  String.length (attachmentDir ++ "/" ++ issueKey)
  < String.length (attachment_path attachmentDir issueKey filename).
Proof.
  intros Hdir Hkey Hname. unfold attachment_path.
  rewrite (path_join_plain _ _ Hdir Hkey).
  rewrite (path_join_plain _ _ (clean_dir_plain _ _ Hdir Hkey) Hname).
  assert (E : (attachmentDir ++ "/" ++ issueKey) ++ "/" ++ filename
              = attachmentDir ++ "/" ++ issueKey ++ "/" ++ filename)
    by now rewrite !append_assoc.
  rewrite <- E. split; [reflexivity|]. split; [reflexivity|]. split.
  - apply parent_dir_plain; [|now apply plain_segment_facts].
    apply clean_dir_nonempty. now apply clean_dir_plain.
  - split; [now apply clean_dir_plain|]. split; [|apply length_dir_name].
    apply clean_dir_plain; [now apply clean_dir_plain | exact Hname].
Qed.

Lemma absent_clean path w :
  absent path w -> clean_dir path = true ->
  is_file w path = false /\ is_dir w path = false.
Proof.
  intros [Hfile Hdir] Hclean.
  rewrite (is_file_clean w path Hclean), (is_dir_clean w path Hclean).
  split; apply bool_decide_eq_false_2; [|exact Hdir].
  rewrite Hfile. now intros [? ?].
Qed.

(** The existing path is returned as it is found. *)
Lemma downloadAttachment_cached_same url filename issueKey w :
  (is_file w (path_join attachmentDir issueKey)
   || is_dir w (path_join attachmentDir issueKey)) = true ->
  (is_file w (path_join (path_join attachmentDir issueKey) filename)
   || is_dir w (path_join (path_join attachmentDir issueKey) filename)) = true ->
  downloadAttachment fetch attachmentDir url filename issueKey w
  = (Returns (path_join (path_join attachmentDir issueKey) filename), w).
Proof.
  intros Hdir Hfile. unfold downloadAttachment, bind, existsSync.
  rewrite Hdir. cbn [ret]. now rewrite Hfile.
Qed.

(** The call for an attachment that is not on disk: one request, and the
    write when the response is ok. *)
Lemma downloadAttachment_fresh url filename issueKey w :
  clean_dir attachmentDir = true -> plain_segment issueKey = true ->
  plain_segment filename = true ->
  blocked w (attachmentDir ++ "/" ++ issueKey) = false ->
  absent (attachment_path attachmentDir issueKey filename) w ->
  exists ds,
    absent (attachment_path attachmentDir issueKey filename)
           (World (requested w) (slept w) (files w) ds (jira_log w)) /\
    (attachmentDir ++ "/" ++ issueKey) ∈ ds /\
    downloadAttachment fetch attachmentDir url filename issueKey w
    = match fetch (length (requested w)) url with
      | Responds r =>
          if ok r then
            (Returns (attachment_path attachmentDir issueKey filename),
             World (requested w ++ [url]) (slept w)
                   (<[attachment_path attachmentDir issueKey filename
                      := buffer r]> (files w)) ds (jira_log w))
          else
            (Throws ("Failed to download " ++ filename ++ ": "
                     ++ show_Z (status r)),
             World (requested w ++ [url]) (slept w) (files w) ds (jira_log w))
      | Rejects e =>
          (Throws e,
           World (requested w ++ [url]) (slept w) (files w) ds (jira_log w))
      end.
Proof.
  intros Hclean Hkey Hname Hfree Habsent.
  destruct (attachment_path_join issueKey filename Hclean Hkey Hname)
    as (Edir & Epath & Eparent & Hcleandir & Hcleanpath & Hlen).
  unfold downloadAttachment. cbv zeta. rewrite Epath, Edir.
  set (issueDir := attachmentDir ++ "/" ++ issueKey) in *.
  set (localPath := attachment_path attachmentDir issueKey filename) in *.
  destruct (absent_clean localPath w Habsent Hcleanpath) as [Hnofile Hnodir].
  destruct (ensure_dir w issueDir Hfree)
    as (w1 & Hstep & Hr1 & Hs1 & Hf1 & Hj1 & Hdir1 & _ & Hlonger).
  assert (Hin : issueDir ∈ dirs w1).
  { rewrite (is_dir_clean w1 issueDir Hcleandir) in Hdir1.
    now apply bool_decide_eq_true_1 in Hdir1. }
  assert (Hnodir1 : is_dir w1 localPath = false).
  { rewrite Hlonger; [exact Hnodir | | exact Hlen].
    now apply clean_dir_entry. }
  assert (Hnofile1 : is_file w1 localPath = false).
  { unfold is_file in *. now rewrite Hf1. }
  exists (dirs w1). split.
  { split; [apply Habsent|]. cbn [dirs]. intros Hd.
    rewrite (is_dir_clean w1 localPath Hcleanpath) in Hnodir1.
    now apply bool_decide_eq_false_1 in Hnodir1. }
  split; [exact Hin|].
  unfold bind at 1, existsSync at 1. unfold bind at 1. rewrite Hstep.
  unfold bind at 1, existsSync at 1. rewrite Hnofile1, Hnodir1. cbn [orb].
  unfold bind at 1, fetch_url. rewrite Hr1, Hs1, Hf1, Hj1.
  destruct (fetch (length (requested w)) url) as [r|e]; [|reflexivity].
  destruct (ok r); cbn [negb]; [|reflexivity].
  unfold bind, writeFileSync. rewrite Eparent. fold issueDir.
  rewrite (proj2 (String.eqb_neq _ "") (clean_dir_nonempty _ Hcleanpath)).
  rewrite (proj1 (clean_dir_entry _ Hcleanpath)).
  unfold is_dir in *. cbn [dirs orb]. rewrite Hnodir1, Hdir1. reflexivity.
Qed.

End Attachments.

(** X11.  [downloadAttachment] caches what it downloads.  Take a clean
    attachment directory, an issue key and a file name that are plain
    segments of a path, and a disk where no file stands in the place of
    the directory of the issue.  For an attachment that is not on disk
    and a service that answers the request with an ok response, the call
    makes that one request, writes the body to
    [attachmentDir/issueKey/filename] and returns this path; after it, a
    call for the same file returns the same path and leaves everything as
    it is, whatever the address and the service. *)
Theorem downloadAttachment_round_trip
    (fetch fetch' : nat -> string -> fetch_result)
    (attachmentDir url url' filename issueKey : string) (w : world)
    (r : response) :
  clean_dir attachmentDir = true -> plain_segment issueKey = true ->
  plain_segment filename = true ->
  blocked w (attachmentDir ++ "/" ++ issueKey) = false ->
  absent (attachment_path attachmentDir issueKey filename) w ->
  fetch (length (requested w)) url = Responds r -> ok r = true ->
  exists w1,
    downloadAttachment fetch attachmentDir url filename issueKey w
    = (Returns (attachment_path attachmentDir issueKey filename), w1) /\
    requested w1 = (requested w ++ [url])%list /\
    files w1 = <[attachment_path attachmentDir issueKey filename := buffer r]>
                 (files w) /\
    downloadAttachment fetch' attachmentDir url' filename issueKey w1
    = (Returns (attachment_path attachmentDir issueKey filename), w1).
Proof.
  intros Hclean Hkey Hname Hfree Habsent Hfetch Hok.
  destruct (downloadAttachment_fresh fetch attachmentDir url filename issueKey
              w Hclean Hkey Hname Hfree Habsent) as (ds & _ & Hdir & Hrun).
  rewrite Hfetch, Hok in Hrun. eexists. split; [exact Hrun|].
  split; [reflexivity|]. split; [reflexivity|].
  destruct (attachment_path_join attachmentDir issueKey filename Hclean Hkey
              Hname) as (Edir & Epath & _ & Hcleandir & Hcleanpath & _).
  match goal with
  | |- downloadAttachment _ _ _ _ _ ?w1 = _ =>
      pose proof (downloadAttachment_cached_same fetch' attachmentDir url'
                    filename issueKey w1) as Hcached
  end.
  rewrite Epath, Edir in Hcached. apply Hcached.
  - rewrite (is_dir_clean _ _ Hcleandir). cbn [dirs].
    rewrite (bool_decide_eq_true_2 _ Hdir). now rewrite orb_true_r.
  - rewrite (is_file_clean _ _ Hcleanpath). cbn [files].
    rewrite bool_decide_eq_true_2; [reflexivity|].
    rewrite lookup_insert_eq. now eexists.
Qed.

Lemma downloadAttachment_round_trip_witness :
  exists w1,
    downloadAttachment (script [resp200]) "/att" "https://jira/a/1" "shot.png"
                       "PROJ-1" empty_world
    = (Returns (attachment_path "/att" "PROJ-1" "shot.png"), w1) /\
    requested w1 = ([] ++ ["https://jira/a/1"])%list /\
    files w1 = <[attachment_path "/att" "PROJ-1" "shot.png" := buffer resp200]> ∅ /\
    downloadAttachment (script []) "/att" "https://jira/a/2" "shot.png"
                       "PROJ-1" w1
    = (Returns (attachment_path "/att" "PROJ-1" "shot.png"), w1).
Proof.
  apply (downloadAttachment_round_trip (script [resp200]) (script [])
           "/att" "https://jira/a/1" "https://jira/a/2" "shot.png" "PROJ-1"
           empty_world resp200).
  - reflexivity.
  - reflexivity.
  - reflexivity.
  - vm_compute. reflexivity.
  - split; [reflexivity | set_solver].
  - reflexivity.
  - reflexivity.
Defined.

(** X12.  A download that fails is not cached.  Take a clean attachment
    directory, an issue key and a file name that are plain segments of a
    path, and a disk where no file stands in the place of the directory
    of the issue.  When the service answers the request for an absent
    attachment with a response that is not ok, [downloadAttachment]
    throws an error naming the file and the status, and writes no file;
    the attachment is still absent, so the next call asks the service
    again, and stores the body if the answer is ok then. *)
Theorem downloadAttachment_failure_not_cached
    (fetch : nat -> string -> fetch_result)
    (attachmentDir url filename issueKey : string) (w : world)
    (r r2 : response) :
  clean_dir attachmentDir = true -> plain_segment issueKey = true ->
  plain_segment filename = true ->
  blocked w (attachmentDir ++ "/" ++ issueKey) = false ->
  absent (attachment_path attachmentDir issueKey filename) w ->
  fetch (length (requested w)) url = Responds r -> ok r = false ->
  fetch (S (length (requested w))) url = Responds r2 -> ok r2 = true ->
  exists w1 w2,
    downloadAttachment fetch attachmentDir url filename issueKey w
    = (Throws ("Failed to download " ++ filename ++ ": " ++ show_Z (status r)),
       w1) /\
    files w1 = files w /\
    downloadAttachment fetch attachmentDir url filename issueKey w1
    = (Returns (attachment_path attachmentDir issueKey filename), w2) /\
    requested w2 = (requested w ++ [url; url])%list /\
    files w2 !! attachment_path attachmentDir issueKey filename
    = Some (buffer r2).
Proof.
  intros Hclean Hkey Hname Hfree Habsent Hfetch Hok Hfetch2 Hok2.
  destruct (downloadAttachment_fresh fetch attachmentDir url filename issueKey
              w Hclean Hkey Hname Hfree Habsent) as (ds & Habsent1 & _ & Hrun).
  rewrite Hfetch, Hok in Hrun.
  set (w1 := World (requested w ++ [url]) (slept w) (files w) ds (jira_log w))
    in *.
  assert (Habsent1' : absent (attachment_path attachmentDir issueKey filename) w1)
    by exact Habsent1.
  assert (Hfree1 : blocked w1 (attachmentDir ++ "/" ++ issueKey) = false)
    by exact Hfree.
  destruct (downloadAttachment_fresh fetch attachmentDir url filename issueKey
              w1 Hclean Hkey Hname Hfree1 Habsent1') as (ds2 & _ & _ & Hrun2).
  assert (Hk : length (requested w1) = S (length (requested w))).
  { subst w1. cbn. rewrite length_app. cbn. lia. }
  rewrite Hk, Hfetch2, Hok2 in Hrun2.
  eexists _, _. split; [exact Hrun|]. split; [reflexivity|].
  split; [exact Hrun2|]. split.
  - subst w1. cbn. now rewrite <- app_assoc.
  - cbn. apply lookup_insert_eq.
Qed.

Lemma downloadAttachment_failure_not_cached_witness :
  exists w1 w2,
    downloadAttachment (script [resp429 Missing; resp200]) "/att" "u" "shot.png"
                       "PROJ-1" empty_world
    = (Throws ("Failed to download " ++ "shot.png" ++ ": "
               ++ show_Z (status (resp429 Missing))), w1) /\
    files w1 = ∅ /\
    downloadAttachment (script [resp429 Missing; resp200]) "/att" "u" "shot.png"
                       "PROJ-1" w1
    = (Returns (attachment_path "/att" "PROJ-1" "shot.png"), w2) /\
    requested w2 = ([] ++ ["u"; "u"])%list /\
    files w2 !! attachment_path "/att" "PROJ-1" "shot.png"
    = Some (buffer resp200).
Proof.
  apply (downloadAttachment_failure_not_cached
           (script [resp429 Missing; resp200]) "/att" "u" "shot.png" "PROJ-1"
           empty_world (resp429 Missing) resp200).
  - reflexivity.
  - reflexivity.
  - reflexivity.
  - vm_compute. reflexivity.
  - split; [reflexivity | set_solver].
  - reflexivity.
  - reflexivity.
  - reflexivity.
  - reflexivity.
Defined.

Section DesignBudget.

Variable fetch : nat -> string -> fetch_result.
Variable figmaConfig : option string.
Variable URL_new : string -> option URL.
Variable encodeURIComponent : string -> string.
Variable figmaExportsDir : string.

Lemma costs_free {A} n s (m : IO A) (post : A -> Prop) :
  (forall w, requested (m w).2 = requested w /\ slept (m w).2 = slept w /\
             match (m w).1 with Returns a => post a | Throws _ => True end) ->
  costs n s post m.
Proof.
  intros H w. destruct (H w) as (Hr & Hs & Hp). exists [], [].
  rewrite !app_nil_r. repeat split; try assumption; try constructor; cbn; lia.
Qed.

Lemma costs_ret {A} n s (a : A) (post : A -> Prop) :
  post a -> costs n s post (ret a).
Proof. intros H. apply costs_free. intros w. now repeat split. Qed.

Lemma costs_weaken {A} n1 s1 n2 s2 (P Q : A -> Prop) (m : IO A) :
  costs n1 s1 P m -> n1 <= n2 -> s1 <= s2 -> (forall a, P a -> Q a) ->
  costs n2 s2 Q m.
Proof.
  intros Hm Hn Hs HPQ w.
  destruct (Hm w) as (reqs & ws & Hr & Hsl & Hlr & Hlw & Hall & Hp).
  exists reqs, ws. repeat split; try assumption; try lia.
  destruct (m w).1; [now apply HPQ | exact I].
Qed.

Lemma costs_bind {A B} n1 s1 n2 s2 n s (P : A -> Prop) (Q : B -> Prop)
    (m : IO A) (k : A -> IO B) :
  n1 + n2 <= n -> s1 + s2 <= s ->
  costs n1 s1 P m -> (forall a, P a -> costs n2 s2 Q (k a)) ->
  costs n s Q (bind m k).
Proof.
  intros Hn Hs Hm Hk w. unfold bind.
  destruct (Hm w) as (reqs & ws & Hr & Hsl & Hlr & Hlw & Hall & Hp).
  destruct (m w) as [[a|e] w1]; cbn [fst snd] in *.
  - destruct (Hk a Hp w1) as (reqs2 & ws2 & Hr2 & Hsl2 & Hlr2 & Hlw2 & Hall2 & Hq).
    exists (reqs ++ reqs2)%list, (ws ++ ws2)%list.
    rewrite Hr2, Hsl2, Hr, Hsl, !app_assoc, !length_app.
    repeat split; try lia; [now apply Forall_app | exact Hq].
  - exists reqs, ws. repeat split; try assumption; lia.
Qed.

Lemma costs_try_catch {A} n1 s1 n2 s2 n s (P : A -> Prop)
    (m : IO A) (h : string -> IO A) :
  n1 + n2 <= n -> s1 + s2 <= s ->
  costs n1 s1 P m -> (forall e, costs n2 s2 P (h e)) ->
  costs n s P (try_catch m h).
Proof.
  intros Hn Hs Hm Hh w. unfold try_catch.
  destruct (Hm w) as (reqs & ws & Hr & Hsl & Hlr & Hlw & Hall & Hp).
  destruct (m w) as [[a|e] w1]; cbn [fst snd] in *.
  - exists reqs, ws. repeat split; try assumption; lia.
  - destruct (Hh e w1) as (reqs2 & ws2 & Hr2 & Hsl2 & Hlr2 & Hlw2 & Hall2 & Hq).
    exists (reqs ++ reqs2)%list, (ws ++ ws2)%list.
    rewrite Hr2, Hsl2, Hr, Hsl, !app_assoc, !length_app.
    repeat split; try lia; [now apply Forall_app | exact Hq].
Qed.

Lemma costs_fetch_url url : costs 1 0 (fun _ => True) (fetch_url fetch url).
Proof.
  intros w. exists [url], []. unfold fetch_url.
  destruct (fetch (length (requested w)) url); cbn; rewrite app_nil_r;
    repeat split; try lia; constructor.
Qed.

Lemma costs_json_of r : costs 0 0 (fun _ => True) (json_of r).
Proof.
  apply costs_free. intros w. unfold json_of.
  destruct (json_body r); now repeat split.
Qed.

Lemma costs_figmaFetch url :
  costs 4 3 (fun _ => True) (figmaFetch fetch figmaConfig url).
Proof.
  intros w. unfold figmaFetch, figmaFetchWithRetry.
  destruct (retry_loop_bounded fetch figmaConfig url 3 30 4 0 w)
    as (res & w' & Hrun & [(n & Hn & Hreq) (ws & Hws & Hsl) _ _ _]);
    [lia | lia |].
  rewrite Hrun.
  destruct (retry_loop_waits fetch figmaConfig url 3 30 4 0 w res w' Hrun)
    as (ws' & Hsl' & Hall & _).
  assert (ws' = ws) as -> by (rewrite Hsl in Hsl'; now apply app_inv_head in Hsl').
  exists (repeat url n), ws. cbn [fst snd].
  rewrite repeat_length. repeat split; try assumption; try lia.
  destruct res; exact I.
Qed.

Lemma costs_writeFileSync p data :
  costs 0 0 (fun _ => True) (writeFileSync p data).
Proof.
  apply costs_free. intros w.
  destruct (writeFileSync_cases p data w) as [[e ->]| ->]; now repeat split.
Qed.

Lemma costs_mkdirSync p : costs 0 0 (fun _ => True) (mkdirSync p).
Proof.
  apply costs_free. intros w.
  destruct (mkdirSync_cases p w) as [[e ->]| ->]; now repeat split.
Qed.

Lemma costs_save_image fileKey id name imageUrl :
  costs 1 0 (fun images => length images <= 1)
        (save_image fetch figmaExportsDir fileKey id name imageUrl).
Proof.
  unfold save_image. apply (costs_bind 1 0 0 0 _ _ (fun _ => True));
    [cbn [length]; lia | cbn [length]; lia | apply costs_fetch_url|].
  intros r _. destruct (ok r); [|apply costs_ret; cbn; lia].
  apply (costs_bind 0 0 0 0 _ _ (fun _ => True));
    [cbn [length]; lia | cbn [length]; lia | | ].
  - apply costs_writeFileSync.
  - intros _ _. apply costs_ret. cbn. lia.
Qed.

Lemma costs_export_children fileKey exportable images childIds :
  costs (length childIds) 0 (fun saved => length saved <= length childIds)
        (export_children fetch figmaExportsDir fileKey exportable images
                         childIds).
Proof.
  induction childIds as [|childId rest IH]; cbn [export_children length].
  { apply costs_ret. cbn. lia. }
  apply (costs_bind 1 0 (length rest) 0 _ _ (fun saved => length saved <= 1));
    [cbn [length]; lia | cbn [length]; lia | | ].
  - destruct (image_url images childId); [|apply costs_ret; cbn; lia].
    apply (costs_try_catch 1 0 0 0); [lia | lia | apply costs_save_image|].
    intros e. apply costs_ret. cbn. lia.
  - intros saved Hsaved.
    apply (costs_bind (length rest) 0 0 0 _ _
             (fun more => length more <= length rest));
      [lia | lia | exact IH|].
    intros more Hmore. apply costs_ret. rewrite length_app. lia.
Qed.

Lemma costs_export_node fileKey nodeId doc :
  costs 12 3 (fun images => length images <= 8)
        (export_node fetch figmaConfig encodeURIComponent figmaExportsDir
                     fileKey nodeId doc).
Proof.
  unfold export_node. destruct (isLarge (absoluteBoundingBox doc) && _).
  - set (exportable := match children doc with Some cs => _ | None => [] end).
    assert (Hids : length (map child_id (firstn 8 exportable)) <= 8).
    { rewrite length_map, length_take. lia. }
    apply (costs_bind 4 3 8 0 _ _ (fun _ => True));
    [cbn [length]; lia | cbn [length]; lia | apply costs_figmaFetch|].
    intros [r|ra] _; [|apply costs_ret; cbn; lia].
    destruct (ok r); [|apply costs_ret; cbn; lia].
    apply (costs_bind 0 0 8 0 _ _ (fun _ => True));
    [cbn [length]; lia | cbn [length]; lia | apply costs_json_of|].
    intros imgData _.
    eapply costs_weaken; [apply costs_export_children | exact Hids | lia |].
    cbn beta. intros saved Hsaved. lia.
  - apply (costs_bind 4 3 8 0 _ _ (fun _ => True));
    [cbn [length]; lia | cbn [length]; lia | apply costs_figmaFetch|].
    intros [r|ra] _; [|apply costs_ret; cbn; lia].
    destruct (ok r); [|apply costs_ret; cbn; lia].
    apply (costs_bind 0 0 8 0 _ _ (fun _ => True));
    [cbn [length]; lia | cbn [length]; lia | apply costs_json_of|].
    intros imgData _.
    destruct (image_url _ _); [|apply costs_ret; cbn; lia].
    eapply costs_weaken; [apply costs_save_image | lia | lia |].
    cbn beta. intros saved Hsaved. lia.
Qed.

Lemma costs_fetchFigmaDesign_try url fileKey nodeId :
  costs 20 9 (at_most_images 8)
        (fetchFigmaDesign_try fetch figmaConfig encodeURIComponent
                              figmaExportsDir url fileKey nodeId).
Proof.
  assert (Hnone : forall n s (r : design_result),
            at_most_images 8 r -> costs n s (at_most_images 8) (ret r)).
  { intros n s r Hr. now apply costs_ret. }
  assert (Hempty : forall a b c d e, at_most_images 8
            (Design (MkDesign a b c d e []))) by (intros; cbn; lia).
  unfold fetchFigmaDesign_try.
  apply (costs_bind 4 3 16 6 _ _ (fun _ => True));
    [cbn [length]; lia | cbn [length]; lia | apply costs_figmaFetch|].
  intros [r|ra] _; [|now apply Hnone].
  destruct (negb (ok r)).
  { destruct (status r =? 403)%Z; [now apply Hnone|].
    destruct (status r =? 404)%Z; now apply Hnone. }
  apply (costs_bind 0 0 16 6 _ _ (fun _ => True));
    [cbn [length]; lia | cbn [length]; lia | apply costs_json_of|].
  intros fileData _.
  apply (costs_bind 0 0 16 6 _ _ (fun _ => True));
    [cbn [length]; lia | cbn [length]; lia | | ].
  { apply costs_free. intros w. now repeat split. }
  intros present _.
  apply (costs_bind 0 0 16 6 _ _ (fun _ => True));
    [cbn [length]; lia | cbn [length]; lia | | ].
  { destruct present; [now apply costs_ret | apply costs_mkdirSync]. }
  intros _ _.
  destruct nodeId as [id|]; [|apply Hnone, Hempty].
  destruct (negb (truthy id)); [apply Hnone, Hempty|].
  apply (costs_bind 4 3 12 3 _ _ (fun _ => True));
    [cbn [length]; lia | cbn [length]; lia | apply costs_figmaFetch|].
  intros [nr|ra] _; [|apply Hnone, Hempty].
  destruct (ok nr); [|apply Hnone, Hempty].
  apply (costs_bind 0 0 12 3 _ _ (fun _ => True));
    [cbn [length]; lia | cbn [length]; lia | apply costs_json_of|].
  intros nodeData _.
  destruct (json_nodes nodeData) as [nodes|]; [|apply Hnone, Hempty].
  destruct (nodes !! id) as [[doc|]|]; try apply Hnone, Hempty.
  apply (costs_bind 12 3 0 0 _ _ (fun images => length images <= 8));
    [cbn [length]; lia | cbn [length]; lia | apply costs_export_node|].
  intros images Himages. now apply costs_ret.
Qed.

Lemma costs_fetchFigmaDesign url :
  costs 20 9 (at_most_images 8)
        (fetchFigmaDesign fetch figmaConfig URL_new encodeURIComponent
                          figmaExportsDir url).
Proof.
  assert (Hfree : forall r : design_result,
            at_most_images 8 r -> costs 20 9 (at_most_images 8) (ret r)).
  { intros r Hr. now apply costs_ret. }
  unfold fetchFigmaDesign. destruct figmaConfig eqn:Hcfg; [|now apply Hfree].
  destruct (parseFigmaUrl URL_new url) as [[parsed|]|e].
  - rewrite <- Hcfg.
    apply (costs_try_catch 20 9 0 0); [lia | lia | apply costs_fetchFigmaDesign_try|].
    intros e. now apply costs_ret.
  - now apply Hfree.
  - apply costs_free. intros w. now repeat split.
Qed.

End DesignBudget.

(** X13.  One call of [fetchFigmaDesign] is bounded, whatever the service
    answers: it makes at most 20 requests (up to four tries for the file,
    for the node and for the image addresses, and eight downloads), waits
    at most nine times and 270 seconds in all, and a design it returns
    holds at most eight images. *)
Theorem fetchFigmaDesign_budget
    (fetch : nat -> string -> fetch_result) (figmaConfig : option string)
    (URL_new : string -> option URL) (encodeURIComponent : string -> string)
    (figmaExportsDir url : string) (w : world) :
  exists reqs waits,
    requested (fetchFigmaDesign fetch figmaConfig URL_new encodeURIComponent
                                figmaExportsDir url w).2
      = (requested w ++ reqs)%list /\
    slept (fetchFigmaDesign fetch figmaConfig URL_new encodeURIComponent
                            figmaExportsDir url w).2
      = (slept w ++ waits)%list /\
    length reqs <= 20 /\ length waits <= 9 /\
    (total_wait waits <= 270000)%Z /\
    forall d,
      (fetchFigmaDesign fetch figmaConfig URL_new encodeURIComponent
                        figmaExportsDir url w).1 = Returns (Design d) ->
      length (design_images d) <= 8.
Proof.
  destruct (costs_fetchFigmaDesign fetch figmaConfig URL_new
              encodeURIComponent figmaExportsDir url w)
    as (reqs & ws & Hr & Hsl & Hlr & Hlw & Hall & Hp).
  exists reqs, ws. repeat split; try assumption.
  - change 270000%Z with (Z.of_nat 9 * 30000)%Z.
    apply sum_bounded; [lia | exact Hall | exact Hlw].
  - intros d Hd. rewrite Hd in Hp. exact Hp.
Qed.

(** X14.  When the file request of [fetchFigmaDesign] is refused, by a
    response that is neither ok nor a 429 or by a failure of the
    connection, the call ends after this one request, without waiting and
    without touching the disk, and returns an error: access denied for
    403, file not found for 404, the status for any other response, and
    the message of the failure for a connection error. *)
Theorem fetchFigmaDesign_refused
    (fetch : nat -> string -> fetch_result) (token : string)
    (URL_new : string -> option URL) (encodeURIComponent : string -> string)
    (figmaExportsDir url : string) (w : world) (ref : DesignRef) :
  parseFigmaUrl URL_new url = Returns (Some ref) ->
  refused (fetch (length (requested w)) (file_endpoint (fileKey ref))) ->
  fetchFigmaDesign fetch (Some token) URL_new encodeURIComponent
                   figmaExportsDir url w
  = (Returns (DesignError
       (refusal (fetch (length (requested w)) (file_endpoint (fileKey ref))))),
     World (requested w ++ [file_endpoint (fileKey ref)]) (slept w) (files w)
           (dirs w) (jira_log w)).
Proof.
  intros Hparse Hrefused. unfold fetchFigmaDesign. rewrite Hparse.
  unfold try_catch, fetchFigmaDesign_try, bind, figmaFetch, figmaFetchWithRetry.
  cbn [retry_loop]. unfold fetch_url. fold (file_endpoint (fileKey ref)).
  destruct (fetch (length (requested w)) (file_endpoint (fileKey ref)))
    as [r|e]; cbn [refused refusal] in *; [|reflexivity].
  destruct Hrefused as [Hok Hstatus]. rewrite Hok.
  apply Z.eqb_neq in Hstatus. rewrite Hstatus. cbn [negb]. rewrite Hok.
  cbn [negb]. destruct (status r =? 403)%Z; [reflexivity|].
  destruct (status r =? 404)%Z; reflexivity.
Qed.

Lemma fetchFigmaDesign_refused_witness :
  fetchFigmaDesign (script [MkResponse 404 Missing None ""]) (Some "figd_token")
                   URL_basic encodeURIComponent_latin1 exports shop_url
                   empty_world
  = (Returns (DesignError "Figma file not found. Check the URL."),
     World ["https://api.figma.com/v1/files/abc123?depth=1"] [] ∅ ∅ []).
Proof.
  apply (fetchFigmaDesign_refused (script [MkResponse 404 Missing None ""])
           "figd_token" URL_basic encodeURIComponent_latin1 exports shop_url
           empty_world (MkDesignRef "abc123" (Some "1:2"))).
  - reflexivity.
  - split; [reflexivity | discriminate].
Defined.

(** X15.  When the file request of [fetchFigmaDesign] is answered by a 429
    whose [retry-after] exceeds thirty seconds, the call ends at once,
    after this one request and without waiting, and returns the rate-limit
    error.  The error text is the estimate of [figmaFetchWithRetry], which
    already names its unit, followed by the word seconds: for 120 seconds
    it reads 120 seconds seconds. *)
Theorem fetchFigmaDesign_rate_limited
    (fetch : nat -> string -> fetch_result) (token : string)
    (URL_new : string -> option URL) (encodeURIComponent : string -> string)
    (figmaExportsDir url : string) (w : world) (ref : DesignRef)
    (r : response) :
  parseFigmaUrl URL_new url = Returns (Some ref) ->
  fetch (length (requested w)) (file_endpoint (fileKey ref)) = Responds r ->
  status r = 429%Z -> (30 < retryAfterSec r)%Z ->
  fetchFigmaDesign fetch (Some token) URL_new encodeURIComponent
                   figmaExportsDir url w
  = (Returns (DesignError
       ("Figma API rate limit exceeded. Try again in "
        ++ waitTime (retryAfterSec r) ++ " seconds.")),
     World (requested w ++ [file_endpoint (fileKey ref)]) (slept w) (files w)
           (dirs w) (jira_log w)).
Proof.
  intros Hparse Hfetch Hstatus Hlong. unfold fetchFigmaDesign. rewrite Hparse.
  unfold try_catch, fetchFigmaDesign_try, bind, figmaFetch, figmaFetchWithRetry.
  cbn [retry_loop]. unfold fetch_url. fold (file_endpoint (fileKey ref)).
  rewrite Hfetch. unfold ok. rewrite Hstatus.
  apply Z.ltb_lt in Hlong. rewrite Hlong. reflexivity.
Qed.

Lemma fetchFigmaDesign_rate_limited_witness :
  fetchFigmaDesign (script [resp429 (Numeric 120)]) (Some "figd_token")
                   URL_basic encodeURIComponent_latin1 exports shop_url
                   empty_world
  = (Returns (DesignError
       "Figma API rate limit exceeded. Try again in 120 seconds seconds."),
     World ["https://api.figma.com/v1/files/abc123?depth=1"] [] ∅ ∅ []).
Proof.
  apply (fetchFigmaDesign_rate_limited (script [resp429 (Numeric 120)])
           "figd_token" URL_basic encodeURIComponent_latin1 exports shop_url
           empty_world (MkDesignRef "abc123" (Some "1:2"))
           (resp429 (Numeric 120))).
  - reflexivity.
  - reflexivity.
  - reflexivity.
  - reflexivity.
Defined.

Section TicketOffline.

Variable fetch : nat -> string -> fetch_result.
Variable jira : nat -> jira_request -> outcome issue.
Variable figmaConfig : option string.
Variable URL_new : string -> option URL.
Variable encodeURIComponent : string -> string.
Variable toLocaleString : string -> string.
Variables attachmentDir figmaExportsDir : string.

Lemma offline_fetchJira r : preserves surroundings (fetchJira jira r).
Proof. intros w. reflexivity. Qed.

Lemma preserves_attempt {X A} (proj : world -> X) (m : IO A) :
  preserves proj m -> preserves proj (attempt m).
Proof.
  intros Hm w. specialize (Hm w). unfold attempt.
  now destruct (m w) as [o w1].
Qed.

Lemma offline_attempt_fetchJira r :
  preserves surroundings (attempt (fetchJira jira r)).
Proof. apply preserves_attempt, offline_fetchJira. Qed.

Lemma offline_parent_stage fields l :
  preserves surroundings (parent_stage jira toLocaleString fields l).
Proof.
  unfold parent_stage. destruct (parent fields); [|apply preserves_ret].
  apply preserves_bind; [apply offline_attempt_fetchJira|].
  intros [pf|e]; apply preserves_ret.
Qed.

Lemma offline_attachments_stage fields issueKey l :
  preserves surroundings
    (attachments_stage fetch attachmentDir fields issueKey false l).
Proof.
  unfold attachments_stage.
  destruct (nonempty (attachments fields)); [apply preserves_ret|].
  apply preserves_for_each. intros s att. cbn [andb]. apply preserves_ret.
Qed.

Lemma offline_subtasks_stage fields l :
  preserves surroundings (subtasks_stage jira fields l).
Proof.
  unfold subtasks_stage.
  destruct (nonempty (subtasks fields)); [apply preserves_ret|].
  apply preserves_for_each. intros s0 subtask.
  apply preserves_bind; [apply offline_attempt_fetchJira|].
  intros [sf|e]; apply preserves_ret.
Qed.

Lemma offline_linked_stage fields l :
  preserves surroundings (linked_stage jira toLocaleString fields l).
Proof.
  unfold linked_stage.
  destruct (nonempty (issuelinks fields)); [apply preserves_ret|].
  apply preserves_bind.
  - apply preserves_for_each. intros s0 linked.
    apply preserves_bind; [apply offline_attempt_fetchJira|].
    intros [lf|e]; apply preserves_ret.
  - intros l'. destruct (_ <? _)%nat; apply preserves_ret.
Qed.

Lemma offline_referenced_stage fields issueKey l :
  preserves surroundings
    (referenced_stage jira toLocaleString fields issueKey l).
Proof.
  unfold referenced_stage.
  destruct (ticketsToFetch fields issueKey (allText l)); [apply preserves_ret|].
  apply preserves_bind.
  - apply preserves_for_each. intros s0 refKey.
    apply preserves_bind; [apply offline_attempt_fetchJira|].
    intros [rf|e]; apply preserves_ret.
  - intros l'. destruct (_ <? _)%nat; apply preserves_ret.
Qed.

Lemma offline_figma_stage l :
  preserves surroundings
    (figma_stage fetch figmaConfig URL_new encodeURIComponent figmaExportsDir
                 false l).
Proof. unfold figma_stage. destruct figmaConfig; apply preserves_ret. Qed.

Lemma offline_getTicket issueKey :
  preserves surroundings
    (getTicket fetch jira figmaConfig URL_new encodeURIComponent toLocaleString
               attachmentDir figmaExportsDir issueKey false false).
Proof.
  unfold getTicket. apply preserves_bind; [apply offline_fetchJira|].
  intros fields. apply preserves_bind; [apply offline_parent_stage|].
  intros l1. apply preserves_bind; [apply offline_attachments_stage|].
  intros l2. apply preserves_bind; [apply offline_subtasks_stage|].
  intros l3. apply preserves_bind; [apply offline_linked_stage|].
  intros l4. apply preserves_bind; [apply offline_referenced_stage|].
  intros l5. apply preserves_bind; [apply offline_figma_stage|].
  intros l6. apply preserves_ret.
Qed.

End TicketOffline.

(** X16.  With [downloadImages] and [fetchFigma] both false, [getTicket]
    talks to the tracker only: whatever the ticket holds and whether the
    call returns or throws, it makes no other request, never waits, and
    leaves every file and directory as it is. *)
Theorem getTicket_offline
    (fetch : nat -> string -> fetch_result)
    (jira : nat -> jira_request -> outcome issue)
    (figmaConfig : option string) (URL_new : string -> option URL)
    (encodeURIComponent toLocaleString : string -> string)
    (attachmentDir figmaExportsDir issueKey : string) (w : world) :
  let w' := (getTicket fetch jira figmaConfig URL_new encodeURIComponent
                       toLocaleString attachmentDir figmaExportsDir issueKey
                       false false w).2 in
  requested w' = requested w /\ slept w' = slept w /\
  files w' = files w /\ dirs w' = dirs w.
Proof.
  pose proof (offline_getTicket fetch jira figmaConfig URL_new
                encodeURIComponent toLocaleString attachmentDir
                figmaExportsDir issueKey w) as H.
  unfold surroundings in H. cbn zeta.
  injection H as -> -> -> ->. now repeat split.
Qed.

(** [URL_basic] accepts the addresses that [findFigmaUrls] finds. *)
Lemma span_app_stop p a c rest :
  all_chars p a = true -> p c = false ->
  span p (a ++ String c rest) = (a, String c rest).
Proof.
  intros Ha Hc. induction a as [|x a IH].
  - rewrite append_empty_l. cbn [span]. now rewrite Hc.
  - cbn [all_chars] in Ha. apply andb_true_iff in Ha as [Hx Ha].
    rewrite append_cons. cbn [span]. now rewrite Hx, (IH Ha).
Qed.

Lemma strip_prefix_literal p s : strip_prefix p (p ++ s) = Some s.
Proof.
  induction p as [|a p IH]; [now rewrite append_empty_l; destruct s|].
  rewrite append_cons. cbn [strip_prefix]. now rewrite Ascii.eqb_refl.
Qed.

Lemma URL_basic_design_address url :
  design_address url -> is_Some (URL_basic url).
Proof.
  intros (www & kind & key & tail & -> & Hwww & _).
  set (rest := kind ++ "/" ++ key ++ "/" ++ tail).
  assert (E : "https://" ++ www ++ "figma.com/" ++ rest
              = "https" ++ String ":" ("//" ++ (www ++ "figma.com")
                                       ++ String "/" rest)).
  { rewrite (append_assoc www). reflexivity. }
  rewrite E. unfold URL_basic.
  rewrite (span_app_stop isSchemeChar "https" ":" _ eq_refl eq_refl).
  change (String ":" ("//" ++ (www ++ "figma.com") ++ String "/" rest))
    with ("://" ++ ((www ++ "figma.com") ++ String "/" rest)).
  rewrite strip_prefix_literal. cbv beta iota.
  change (isUpper "h" || isLower "h") with true. cbv beta iota.
  rewrite (span_app_stop (notIn "/?#") (www ++ "figma.com") "/" rest).
  - destruct (span (notIn "?#") (String "/" rest)) as [path rest3].
    replace (truthy (www ++ "figma.com")) with true
      by (destruct Hwww as [-> | ->]; reflexivity).
    now eexists.
  - destruct Hwww as [-> | ->]; reflexivity.
  - reflexivity.
Qed.

Section TicketFailures.

Variable fetch : nat -> string -> fetch_result.
Variable jira : nat -> jira_request -> outcome issue.
Variable figmaConfig : option string.
Variable URL_new : string -> option URL.
Variable encodeURIComponent : string -> string.
Variable toLocaleString : string -> string.
Variables attachmentDir figmaExportsDir : string.

Lemma findFigmaUrls_address text r :
  r ∈ findFigmaUrls text -> design_address r.
Proof.
  unfold findFigmaUrls. destruct (truthy text); [|intros H; inversion H].
  intros Hr%dedupe_elem.
  pose proof (exec_all_Forall (fun r => design_address r) figmaRegex
                (fun prev s c n H => proj1 (figmaRegex_shape prev s c n H))
                text None 0) as Hshape.
  rewrite Forall_forall in Hshape. now apply Hshape.
Qed.

(** The addresses the design stage goes through: those found in the
    text, and those among [allUrls] that contain figma.com. *)
Lemma allFigmaUrls_source l url :
  url ∈ allFigmaUrls l ->
  design_address url \/ (url ∈ allUrls l /\ includes "figma.com" url = true).
Proof.
  unfold allFigmaUrls. intros [Hin|Hin]%dedupe_elem%elem_of_app.
  - left. now apply findFigmaUrls_address in Hin.
  - right. apply list_elem_of_filter in Hin as [Hfig Hin]. split; [exact Hin|].
    apply Is_true_true in Hfig. now apply andb_true_iff in Hfig as [_ Hfig].
Qed.

Lemma urls_ret l l' : allUrls l' = allUrls l -> same_urls l (ret l').
Proof. intros E w l'' [= <-]. exact E. Qed.

Lemma urls_bind {A} l (m : IO A) (k : A -> IO locals) :
  (forall a, same_urls l (k a)) -> same_urls l (bind m k).
Proof.
  intros Hk w l'. unfold bind. destruct (m w) as [[a|e] w1]; [|discriminate].
  apply Hk.
Qed.

Lemma urls_then l (m : IO locals) (k : locals -> IO locals) :
  same_urls l m -> (forall l1, same_urls l1 (k l1)) -> same_urls l (bind m k).
Proof.
  intros Hm Hk w l'. unfold bind. specialize (Hm w).
  destruct (m w) as [[l1|e] w1]; [|discriminate].
  intros Hrun. rewrite (Hk l1 w1 l' Hrun). now apply Hm.
Qed.

Lemma urls_for_each {A} (body : locals -> A -> IO locals) xs :
  (forall l x, same_urls l (body l x)) ->
  forall l, same_urls l (for_each xs body l).
Proof.
  intros Hbody. induction xs as [|x xs IH]; intros l; cbn [for_each].
  - now apply urls_ret.
  - apply urls_then; [apply Hbody | apply IH].
Qed.

Lemma urls_start l0 l (m : IO locals) :
  allUrls l0 = allUrls l -> same_urls l0 m -> same_urls l m.
Proof. intros E Hm w l' Hrun. rewrite <- E. exact (Hm w l' Hrun). Qed.

Lemma urls_referenced_stage fields issueKey l :
  same_urls l (referenced_stage jira toLocaleString fields issueKey l).
Proof.
  unfold referenced_stage.
  destruct (ticketsToFetch fields issueKey (allText l)); [now apply urls_ret|].
  apply urls_then.
  - eapply urls_start; [|apply urls_for_each]; [reflexivity|].
    intros acc refKey. apply urls_bind. intros [rf|e]; apply urls_ret;
      [|reflexivity].
    cbn [print allUrls].
    destruct (findFigmaUrls _); cbn [pool print allUrls];
      rewrite ?app_nil_r, (proj2 (pool_foreign_details toLocaleString _ _));
      reflexivity.
  - intros acc. destruct (_ <? _)%nat; now apply urls_ret.
Qed.

Lemma returns_for_each_Forall {A S} (P : A -> Prop) (body : S -> A -> IO S) xs :
  Forall P xs -> (forall s x, P x -> returns (body s x)) ->
  forall s, returns (for_each xs body s).
Proof.
  intros Hxs Hbody. induction Hxs as [|x xs Hx _ IH]; intros s; cbn [for_each].
  - apply returns_ret.
  - apply returns_bind; [now apply Hbody | apply IH].
Qed.

Lemma returns_figma_stage_figma fetchFigma l :
  (forall url, url ∈ allFigmaUrls l -> is_Some (URL_new url)) ->
  returns (figma_stage fetch figmaConfig URL_new encodeURIComponent
                       figmaExportsDir fetchFigma l).
Proof.
  intros Hall. unfold figma_stage.
  destruct figmaConfig as [tok|] eqn:Hcfg; [|apply returns_ret].
  destruct fetchFigma; [|apply returns_ret].
  destruct (allFigmaUrls l) as [|u us]; [apply returns_ret|].
  apply (returns_for_each_Forall (fun url => is_Some (URL_new url))).
  { apply Forall_forall. exact Hall. }
  intros l' url Hurl. apply returns_bind.
  - rewrite <- Hcfg. now apply returns_fetchFigmaDesign.
  - intros [error|d]; [apply returns_ret|].
    destruct (truthy_opt (design_name d)); apply returns_ret.
Qed.

Lemma getTicket_survives issueKey downloadImages fetchFigma w fields :
  (forall url, design_address url -> is_Some (URL_new url)) ->
  (forall url,
     url ∈ accumulated_urls fields (parent_answer jira w fields) ->
     includes "figma.com" url = true -> is_Some (URL_new url)) ->
  jira (length (jira_log w)) (JiraGet issueKey true) = Returns fields ->
  exists t w',
    getTicket fetch jira figmaConfig URL_new encodeURIComponent toLocaleString
              attachmentDir figmaExportsDir issueKey downloadImages fetchFigma w
    = (Returns t, w').
Proof.
  intros Haddress Hembedded Hprimary. unfold getTicket.
  unfold bind at 1. unfold fetchJira at 1. rewrite Hprimary.
  set (w1 := World _ _ _ _ _). set (l0 := Locals _ _ _ _ _).
  unfold bind at 1.
  destruct (logs_parent_stage jira toLocaleString fields l0 w1)
    as (l1 & w2 & E2 & _). rewrite E2.
  unfold bind at 1.
  destruct (logs_attachments_stage fetch attachmentDir fields issueKey
              downloadImages (comments_stage toLocaleString fields l1) w2)
    as (l2 & w3 & E3 & _). rewrite E3.
  unfold bind at 1.
  destruct (logs_subtasks_stage jira fields l2 w3) as (l3 & w4 & E4 & _).
  rewrite E4. unfold bind at 1.
  destruct (logs_linked_stage jira toLocaleString fields l3 w4)
    as (l4 & w5 & E5 & _). rewrite E5.
  unfold bind at 1.
  destruct (logs_referenced_stage jira toLocaleString fields issueKey l4 w5)
    as (l5 & w6 & E6 & _). rewrite E6.
  destruct (getTicket_pool fetch jira toLocaleString attachmentDir fields
              issueKey downloadImages _ w1 l1 w2 l2 w3 l3 w4 l4 w5 E2 E3 E4 E5)
    as [_ Hurls].
  assert (Hanswer : match parent fields with
                    | Some p =>
                        Some (jira (length (jira_log w1))
                                   (JiraGet (ref_key p) true))
                    | None => None
                    end = parent_answer jira w fields).
  { unfold parent_answer. subst w1. cbn [jira_log]. rewrite length_app.
    cbn [length]. now rewrite Nat.add_1_r. }
  rewrite Hanswer in Hurls.
  pose proof (urls_referenced_stage fields issueKey l4 w5 l5) as Hurls5.
  rewrite E6 in Hurls5. specialize (Hurls5 eq_refl).
  destruct (returns_figma_stage_figma fetchFigma l5) with (w := w6)
    as (l6 & w7 & E7).
  { intros url [Hurl|[Hin Hfig]]%allFigmaUrls_source; [now apply Haddress|].
    apply Hembedded; [|exact Hfig]. now rewrite <- Hurls, <- Hurls5. }
  unfold bind. rewrite E7. now eexists _, _.
Qed.

End TicketFailures.

(** X17.  [getTicket] fails only with its first fetch.  Provided the URL
    constructor accepts the design addresses, which are those the call
    finds in the text, and the addresses containing figma.com among those
    embedded in the description of the ticket, in the description of its
    parent and in the comments of the ticket, the call returns a report
    whenever the ticket itself is fetched, whatever happens to the fetches
    of the parent, the subtasks, the linked and the referenced tickets, to
    the downloads and to the design service; and when the first fetch
    throws, the call throws the same error without any further call. *)
Theorem getTicket_fails_only_first
    (fetch : nat -> string -> fetch_result)
    (jira : nat -> jira_request -> outcome issue)
    (figmaConfig : option string) (URL_new : string -> option URL)
    (encodeURIComponent toLocaleString : string -> string)
    (attachmentDir figmaExportsDir issueKey : string)
    (downloadImages fetchFigma : bool) (w : world) :
  (forall url, design_address url -> is_Some (URL_new url)) ->
  (forall fields url,
     jira (length (jira_log w)) (JiraGet issueKey true) = Returns fields ->
     url ∈ accumulated_urls fields (parent_answer jira w fields) ->
     includes "figma.com" url = true -> is_Some (URL_new url)) ->
  match jira (length (jira_log w)) (JiraGet issueKey true) with
  | Returns _ =>
      exists t w',
        getTicket fetch jira figmaConfig URL_new encodeURIComponent
                  toLocaleString attachmentDir figmaExportsDir issueKey
                  downloadImages fetchFigma w = (Returns t, w')
  | Throws e =>
      getTicket fetch jira figmaConfig URL_new encodeURIComponent
                toLocaleString attachmentDir figmaExportsDir issueKey
                downloadImages fetchFigma w
      = (Throws e,
         World (requested w) (slept w) (files w) (dirs w)
               (jira_log w ++ [JiraGet issueKey true]))
  end.
Proof.
  intros Haddress Hembedded.
  destruct (jira (length (jira_log w)) (JiraGet issueKey true))
    as [fields|e] eqn:Hprimary.
  - apply (getTicket_survives fetch jira figmaConfig URL_new
             encodeURIComponent toLocaleString attachmentDir
             figmaExportsDir issueKey downloadImages fetchFigma w fields);
      [exact Haddress | | exact Hprimary].
    intros url. now apply Hembedded.
  - unfold getTicket, bind, fetchJira. now rewrite Hprimary.
Qed.

Lemma getTicket_fails_only_first_witness :
  exists t w',
    getTicket shop_service design_tracker (Some "figd_token") URL_basic
              encodeURIComponent_latin1 (fun created => created)
              attachmentsDir exports "PROJ-9" true true empty_world
    = (Returns t, w').
Proof.
  apply (getTicket_fails_only_first shop_service design_tracker
           (Some "figd_token") URL_basic encodeURIComponent_latin1
           (fun created => created) attachmentsDir exports "PROJ-9" true true
           empty_world).
  - apply URL_basic_design_address.
  - intros fields url [= <-] Hin _.
    assert (E : accumulated_urls design_issue
                  (parent_answer design_tracker empty_world design_issue)
                = [shop_url]) by (vm_compute; reflexivity).
    rewrite E in Hin. apply list_elem_of_singleton in Hin as ->.
    vm_compute. now eexists.
Defined.

Section Disk.

Variable fetch : nat -> string -> fetch_result.
Variable jira : nat -> jira_request -> outcome issue.
Variable figmaConfig : option string.
Variable URL_new : string -> option URL.
Variable encodeURIComponent : string -> string.
Variable toLocaleString : string -> string.
Variables attachmentDir figmaExportsDir : string.

Lemma keeps_unchanged {A} (m : IO A) :
  (forall w, files (m w).2 = files w /\ dirs (m w).2 = dirs w) ->
  keeps_disk m.
Proof.
  intros H w path. destruct (H w) as [Hf Hd]. rewrite Hf, Hd.
  split; intros Hp; exact Hp.
Qed.

Lemma keeps_ret {A} (a : A) : keeps_disk (ret a).
Proof. intros w path. split; intros Hp; exact Hp. Qed.

Lemma keeps_bind {A B} (m : IO A) (k : A -> IO B) :
  keeps_disk m -> (forall a, keeps_disk (k a)) -> keeps_disk (bind m k).
Proof.
  intros Hm Hk w path. unfold bind. specialize (Hm w path).
  destruct (m w) as [[a|e] w1]; cbn [snd] in *; [|exact Hm].
  destruct Hm as [Hf Hd]. destruct (Hk a w1 path) as [Hf1 Hd1].
  split; intros Hp; [apply Hf1, Hf, Hp | apply Hd1, Hd, Hp].
Qed.

Lemma keeps_try_catch {A} (m : IO A) h :
  keeps_disk m -> (forall e, keeps_disk (h e)) -> keeps_disk (try_catch m h).
Proof.
  intros Hm Hh w path. unfold try_catch. specialize (Hm w path).
  destruct (m w) as [[a|e] w1]; cbn [snd] in *; [exact Hm|].
  destruct Hm as [Hf Hd]. destruct (Hh e w1 path) as [Hf1 Hd1].
  split; intros Hp; [apply Hf1, Hf, Hp | apply Hd1, Hd, Hp].
Qed.

Lemma keeps_attempt {A} (m : IO A) : keeps_disk m -> keeps_disk (attempt m).
Proof.
  intros Hm w path. unfold attempt. specialize (Hm w path).
  destruct (m w) as [o w1]. exact Hm.
Qed.

Lemma keeps_for_each {A S} (body : S -> A -> IO S) xs :
  (forall s x, keeps_disk (body s x)) ->
  forall s, keeps_disk (for_each xs body s).
Proof.
  intros Hbody. induction xs as [|x xs IH]; intros s; cbn [for_each].
  - apply keeps_ret.
  - apply keeps_bind; [apply Hbody | apply IH].
Qed.

Lemma keeps_offline {A} (m : IO A) : preserves surroundings m -> keeps_disk m.
Proof.
  intros Hm. apply keeps_unchanged. intros w. specialize (Hm w).
  unfold surroundings in Hm. now injection Hm as _ _ -> ->.
Qed.

Lemma keeps_fetch_url url : keeps_disk (fetch_url fetch url).
Proof.
  apply keeps_unchanged. intros w. unfold fetch_url.
  now destruct (fetch (length (requested w)) url).
Qed.

Lemma keeps_existsSync path : keeps_disk (existsSync path).
Proof. apply keeps_unchanged. intros w. split; reflexivity. Qed.

Lemma keeps_mkdirSync path : keeps_disk (mkdirSync path).
Proof.
  intros w q.
  destruct (mkdirSync_cases path w) as [[e ->]| ->]; cbn [snd files dirs];
    split; intros Hq; try exact Hq.
  apply elem_of_union_r, Hq.
Qed.

Lemma keeps_writeFileSync path data : keeps_disk (writeFileSync path data).
Proof.
  intros w q.
  destruct (writeFileSync_cases path data w) as [[e ->]| ->];
    cbn [snd files dirs]; split; intros Hq; try exact Hq.
  destruct (decide (path = q)) as [->|Hne].
  - rewrite lookup_insert_eq. eauto.
  - rewrite lookup_insert_ne; [exact Hq | exact Hne].
Qed.

Lemma keeps_json_of r : keeps_disk (json_of r).
Proof.
  apply keeps_unchanged. intros w. unfold json_of. now destruct (json_body r).
Qed.

Lemma keeps_figmaFetch url : keeps_disk (figmaFetch fetch figmaConfig url).
Proof.
  apply keeps_unchanged. intros w. unfold figmaFetch, figmaFetchWithRetry.
  destruct (retry_loop_bounded fetch figmaConfig url 3 30 4 0 w)
    as (res & w' & Hrun & [_ _ Hf Hd _]); [lia | lia |].
  now rewrite Hrun.
Qed.

Lemma keeps_save_image fileKey id name imageUrl :
  keeps_disk (save_image fetch figmaExportsDir fileKey id name imageUrl).
Proof.
  unfold save_image. apply keeps_bind; [apply keeps_fetch_url|].
  intros r. destruct (ok r); [|apply keeps_ret].
  apply keeps_bind; [apply keeps_writeFileSync|]. intros _. apply keeps_ret.
Qed.

Lemma keeps_export_children fileKey exportable images childIds :
  keeps_disk (export_children fetch figmaExportsDir fileKey exportable images
                              childIds).
Proof.
  induction childIds as [|childId rest IH]; cbn [export_children].
  - apply keeps_ret.
  - apply keeps_bind.
    + destruct (image_url images childId); [|apply keeps_ret].
      apply keeps_try_catch; [apply keeps_save_image|].
      intros e. apply keeps_ret.
    + intros saved. apply keeps_bind; [exact IH|]. intros more.
      apply keeps_ret.
Qed.

Lemma keeps_export_node fileKey nodeId doc :
  keeps_disk (export_node fetch figmaConfig encodeURIComponent figmaExportsDir
                          fileKey nodeId doc).
Proof.
  unfold export_node. destruct (isLarge (absoluteBoundingBox doc) && _).
  - apply keeps_bind; [apply keeps_figmaFetch|].
    intros [r|ra]; [|apply keeps_ret].
    destruct (ok r); [|apply keeps_ret].
    apply keeps_bind; [apply keeps_json_of|]. intros imgData.
    apply keeps_export_children.
  - apply keeps_bind; [apply keeps_figmaFetch|].
    intros [r|ra]; [|apply keeps_ret].
    destruct (ok r); [|apply keeps_ret].
    apply keeps_bind; [apply keeps_json_of|]. intros imgData.
    destruct (image_url _ _); [apply keeps_save_image | apply keeps_ret].
Qed.

Lemma keeps_fetchFigmaDesign_try url fileKey nodeId :
  keeps_disk (fetchFigmaDesign_try fetch figmaConfig encodeURIComponent
                                   figmaExportsDir url fileKey nodeId).
Proof.
  unfold fetchFigmaDesign_try.
  apply keeps_bind; [apply keeps_figmaFetch|].
  intros [r|ra]; [|apply keeps_ret].
  destruct (negb (ok r)).
  { destruct (status r =? 403)%Z; [apply keeps_ret|].
    destruct (status r =? 404)%Z; apply keeps_ret. }
  apply keeps_bind; [apply keeps_json_of|]. intros fileData.
  apply keeps_bind; [apply keeps_existsSync|]. intros present.
  apply keeps_bind.
  { destruct present; [apply keeps_ret | apply keeps_mkdirSync]. }
  intros _. destruct nodeId as [id|]; [|apply keeps_ret].
  destruct (negb (truthy id)); [apply keeps_ret|].
  apply keeps_bind; [apply keeps_figmaFetch|].
  intros [nr|ra]; [|apply keeps_ret].
  destruct (ok nr); [|apply keeps_ret].
  apply keeps_bind; [apply keeps_json_of|]. intros nodeData.
  destruct (json_nodes nodeData) as [nodes|]; [|apply keeps_ret].
  destruct (nodes !! id) as [[doc|]|]; try apply keeps_ret.
  apply keeps_bind; [apply keeps_export_node|]. intros images.
  apply keeps_ret.
Qed.

Lemma keeps_fetchFigmaDesign url :
  keeps_disk (fetchFigmaDesign fetch figmaConfig URL_new encodeURIComponent
                               figmaExportsDir url).
Proof.
  unfold fetchFigmaDesign. destruct figmaConfig eqn:Hcfg; [|apply keeps_ret].
  destruct (parseFigmaUrl URL_new url) as [[parsed|]|e].
  - rewrite <- Hcfg. apply keeps_try_catch; [apply keeps_fetchFigmaDesign_try|].
    intros e. apply keeps_ret.
  - apply keeps_ret.
  - apply keeps_unchanged. intros w. split; reflexivity.
Qed.

Lemma keeps_figma_stage fetchFigma l :
  keeps_disk (figma_stage fetch figmaConfig URL_new encodeURIComponent
                          figmaExportsDir fetchFigma l).
Proof.
  unfold figma_stage. destruct figmaConfig eqn:Hcfg; [|apply keeps_ret].
  destruct fetchFigma; [|apply keeps_ret].
  destruct (allFigmaUrls l); [apply keeps_ret|].
  apply keeps_for_each. intros l' url. apply keeps_bind.
  - rewrite <- Hcfg. apply keeps_fetchFigmaDesign.
  - intros [error|d]; [apply keeps_ret|].
    destruct (truthy_opt (design_name d)); apply keeps_ret.
Qed.

Lemma keeps_downloadAttachment url filename issueKey :
  keeps_disk (downloadAttachment fetch attachmentDir url filename issueKey).
Proof.
  unfold downloadAttachment.
  apply keeps_bind; [apply keeps_existsSync|]. intros present.
  apply keeps_bind.
  { destruct present; [apply keeps_ret | apply keeps_mkdirSync]. }
  intros _. apply keeps_bind; [apply keeps_existsSync|]. intros cached.
  destruct cached; [apply keeps_ret|].
  apply keeps_bind; [apply keeps_fetch_url|]. intros r.
  destruct (negb (ok r)).
  { apply keeps_unchanged. intros w. split; reflexivity. }
  apply keeps_bind; [apply keeps_writeFileSync|]. intros _. apply keeps_ret.
Qed.

Lemma keeps_attachments_stage fields issueKey downloadImages l :
  keeps_disk (attachments_stage fetch attachmentDir fields issueKey
                                downloadImages l).
Proof.
  unfold attachments_stage.
  destruct (nonempty (attachments fields)); [apply keeps_ret|].
  apply keeps_for_each. intros l' att.
  destruct (downloadImages && _); [|apply keeps_ret].
  apply keeps_bind; [apply keeps_attempt, keeps_downloadAttachment|].
  intros [localPath|e]; apply keeps_ret.
Qed.

Lemma keeps_getTicket issueKey downloadImages fetchFigma :
  keeps_disk (getTicket fetch jira figmaConfig URL_new encodeURIComponent
                        toLocaleString attachmentDir figmaExportsDir issueKey
                        downloadImages fetchFigma).
Proof.
  unfold getTicket.
  apply keeps_bind; [apply keeps_offline, offline_fetchJira|].
  intros fields.
  apply keeps_bind; [apply keeps_offline, offline_parent_stage|].
  intros l1. apply keeps_bind; [apply keeps_attachments_stage|].
  intros l2.
  apply keeps_bind; [apply keeps_offline, offline_subtasks_stage|].
  intros l3.
  apply keeps_bind; [apply keeps_offline, offline_linked_stage|].
  intros l4.
  apply keeps_bind; [apply keeps_offline, offline_referenced_stage|].
  intros l5. apply keeps_bind; [apply keeps_figma_stage|].
  intros l6. apply keeps_ret.
Qed.

End Disk.

Lemma keeps_on_disk {A} (m : IO A) w path :
  keeps_disk m -> on_disk path w -> on_disk path (m w).2.
Proof.
  intros Hm [Hp|Hp]; [left | right]; now apply Hm.
Qed.

(** X18.  [getTicket] removes nothing: a file or directory that exists
    before the call exists after it, whatever the services answer and
    whether the call returns or throws.  The same holds for
    [fetchFigmaDesign] and for [downloadAttachment] on their own. *)
Theorem getTicket_removes_nothing
    (fetch : nat -> string -> fetch_result)
    (jira : nat -> jira_request -> outcome issue)
    (figmaConfig : option string) (URL_new : string -> option URL)
    (encodeURIComponent toLocaleString : string -> string)
    (attachmentDir figmaExportsDir issueKey url filename : string)
    (downloadImages fetchFigma : bool) (w : world) (path : string) :
  on_disk path w ->
  on_disk path (getTicket fetch jira figmaConfig URL_new encodeURIComponent
                          toLocaleString attachmentDir figmaExportsDir
                          issueKey downloadImages fetchFigma w).2 /\
  on_disk path (fetchFigmaDesign fetch figmaConfig URL_new encodeURIComponent
                                 figmaExportsDir url w).2 /\
  on_disk path (downloadAttachment fetch attachmentDir url filename issueKey
                                   w).2.
Proof.
  intros Hp. split; [|split].
  - apply keeps_on_disk; [apply keeps_getTicket | exact Hp].
  - apply keeps_on_disk; [apply keeps_fetchFigmaDesign | exact Hp].
  - apply keeps_on_disk; [apply keeps_downloadAttachment | exact Hp].
Qed.

Lemma getTicket_removes_nothing_witness :
  on_disk "/home/dev/.config/figma-mcp/exports/abc123_1_2.png"
          (getTicket shop_service tracker (Some "figd_token") URL_basic
                     encodeURIComponent_latin1 (fun created => created)
                     attachmentsDir exports "PROJ-1" true true
                     exported_world).2.
Proof.
  refine (proj1 (getTicket_removes_nothing shop_service tracker
    (Some "figd_token") URL_basic encodeURIComponent_latin1
    (fun created => created) attachmentsDir exports "PROJ-1" shop_url
    "shot.png" true true exported_world
    "/home/dev/.config/figma-mcp/exports/abc123_1_2.png" _)).
  left. vm_compute. now eexists.
Defined.

(** What exists stays, through a computation that removes nothing. *)
Lemma exists_kept {A} (m : IO A) w path :
  keeps_disk m -> (is_file w path || is_dir w path) = true ->
  (is_file (m w).2 path || is_dir (m w).2 path) = true.
Proof.
  intros Hm. unfold is_file, is_dir.
  intros [[Hend Hfile]%andb_true_iff|[Halways|Hdir]%orb_true_iff]%orb_true_iff.
  - rewrite Hend. cbn [andb]. apply bool_decide_eq_true_1 in Hfile.
    rewrite (bool_decide_eq_true_2 _ (proj1 (Hm w path) Hfile)). reflexivity.
  - rewrite Halways. cbn [orb]. apply orb_true_r.
  - apply bool_decide_eq_true_1 in Hdir.
    rewrite (bool_decide_eq_true_2 _ (proj2 (Hm w (entry path)) Hdir)).
    now rewrite !orb_true_r.
Qed.

Section DownloadedImages.

Variable fetch : nat -> string -> fetch_result.
Variable jira : nat -> jira_request -> outcome issue.
Variable figmaConfig : option string.
Variable URL_new : string -> option URL.
Variable encodeURIComponent : string -> string.
Variable toLocaleString : string -> string.
Variables attachmentDir figmaExportsDir : string.

Lemma same_ret l l' :
  downloadedImages l' = downloadedImages l -> same_images l (ret l').
Proof. intros E w l'' [= <-]. exact E. Qed.

Lemma same_bind {A} l (m : IO A) (k : A -> IO locals) :
  (forall a, same_images l (k a)) -> same_images l (bind m k).
Proof.
  intros Hk w l'. unfold bind. destruct (m w) as [[a|e] w1]; [|discriminate].
  apply Hk.
Qed.

Lemma same_then l (m : IO locals) (k : locals -> IO locals) :
  same_images l m -> (forall l1, same_images l1 (k l1)) ->
  same_images l (bind m k).
Proof.
  intros Hm Hk w l'. unfold bind. specialize (Hm w).
  destruct (m w) as [[l1|e] w1]; [|discriminate].
  intros Hrun. rewrite (Hk l1 w1 l' Hrun). now apply Hm.
Qed.

Lemma same_for_each {A} (body : locals -> A -> IO locals) xs :
  (forall l x, same_images l (body l x)) ->
  forall l, same_images l (for_each xs body l).
Proof.
  intros Hbody. induction xs as [|x xs IH]; intros l; cbn [for_each].
  - now apply same_ret.
  - apply same_then; [apply Hbody | apply IH].
Qed.

Lemma same_start l0 l (m : IO locals) :
  downloadedImages l0 = downloadedImages l -> same_images l0 m ->
  same_images l m.
Proof. intros E Hm w l' Hrun. rewrite <- E. exact (Hm w l' Hrun). Qed.

Lemma images_fold {A} (f : locals -> A -> locals) xs :
  (forall l x, downloadedImages (f l x) = downloadedImages l) ->
  forall l, downloadedImages (fold_left f xs l) = downloadedImages l.
Proof.
  intros Hf. induction xs as [|x xs IH]; intros l; [reflexivity|].
  cbn [fold_left]. now rewrite IH.
Qed.

Lemma images_foreign_comments cs l pooled :
  downloadedImages (foreign_comments toLocaleString l cs pooled)
  = downloadedImages l.
Proof.
  unfold foreign_comments. apply images_fold. intros l0 c. now destruct pooled.
Qed.

Lemma images_foreign_details l f :
  downloadedImages (foreign_details toLocaleString l f) = downloadedImages l.
Proof.
  unfold foreign_details. destruct (nonempty (comments f)).
  - now destruct (has_text _).
  - rewrite images_foreign_comments. now destruct (has_text _).
Qed.

Lemma images_comments_stage fields l :
  downloadedImages (comments_stage toLocaleString fields l)
  = downloadedImages l.
Proof.
  unfold comments_stage. destruct (nonempty (comments fields)) as [|c cs];
    [reflexivity|].
  now rewrite images_fold.
Qed.

Lemma same_parent_stage fields l :
  same_images l (parent_stage jira toLocaleString fields l).
Proof.
  unfold parent_stage. destruct (parent fields); [|now apply same_ret].
  apply same_bind. intros [pf|e]; apply same_ret; [|reflexivity].
  cbn [print downloadedImages].
  destruct (nonempty (comments pf)).
  - now destruct (has_text _).
  - rewrite images_foreign_comments. now destruct (has_text _).
Qed.

Lemma same_subtasks_stage fields l :
  same_images l (subtasks_stage jira fields l).
Proof.
  unfold subtasks_stage. destruct (nonempty (subtasks fields));
    [now apply same_ret|].
  eapply same_start; [|apply same_for_each]; [reflexivity|].
  intros acc subtask. apply same_bind. intros [sf|e]; apply same_ret;
    [|reflexivity].
  cbn [print downloadedImages].
  destruct (has_text _); now destruct (assignee sf).
Qed.

Lemma same_linked_stage fields l :
  same_images l (linked_stage jira toLocaleString fields l).
Proof.
  unfold linked_stage. destruct (nonempty (issuelinks fields));
    [now apply same_ret|].
  apply same_then.
  - eapply same_start; [|apply same_for_each]; [reflexivity|].
    intros acc linked. apply same_bind. intros [lf|e]; apply same_ret;
      [|reflexivity].
    cbn [print downloadedImages]. now rewrite images_foreign_details.
  - intros acc. destruct (_ <? _)%nat; now apply same_ret.
Qed.

Lemma same_referenced_stage fields issueKey l :
  same_images l (referenced_stage jira toLocaleString fields issueKey l).
Proof.
  unfold referenced_stage.
  destruct (ticketsToFetch fields issueKey (allText l)); [now apply same_ret|].
  apply same_then.
  - eapply same_start; [|apply same_for_each]; [reflexivity|].
    intros acc refKey. apply same_bind. intros [rf|e]; apply same_ret;
      [|reflexivity].
    cbn [print downloadedImages].
    destruct (findFigmaUrls _); cbn [pool print downloadedImages];
      now rewrite images_foreign_details.
  - intros acc. destruct (_ <? _)%nat; now apply same_ret.
Qed.

Lemma same_figma_stage fetchFigma l :
  same_images l (figma_stage fetch figmaConfig URL_new encodeURIComponent
                             figmaExportsDir fetchFigma l).
Proof.
  unfold figma_stage. destruct figmaConfig; [|now apply same_ret].
  destruct fetchFigma; [|now apply same_ret].
  destruct (allFigmaUrls l); [now apply same_ret|].
  eapply same_start; [|apply same_for_each]; [reflexivity|].
  intros acc url. apply same_bind. intros [error|d]; [now apply same_ret|].
  destruct (truthy_opt (design_name d)); [|now apply same_ret].
  apply same_ret. cbn [print downloadedImages].
  destruct (design_images d); [reflexivity|].
  cbn [downloadedImages]. now rewrite images_fold.
Qed.

(** What [downloadAttachment] returns is the joined path, and it exists
    on disk. *)
Lemma downloadAttachment_on_disk url filename issueKey w path w' :
  downloadAttachment fetch attachmentDir url filename issueKey w
  = (Returns path, w') ->
  path = path_join (path_join attachmentDir issueKey) filename /\
  (is_file w' path || is_dir w' path) = true.
Proof.
  unfold downloadAttachment. cbv zeta.
  set (issueDir := path_join attachmentDir issueKey).
  set (localPath := path_join issueDir filename).
  unfold bind at 1, existsSync at 1. unfold bind at 1.
  destruct ((if is_file w issueDir || is_dir w issueDir
             then ret tt else mkdirSync issueDir) w) as [[[]|e] w1];
    [|discriminate].
  unfold bind at 1, existsSync at 1.
  destruct (is_file w1 localPath || is_dir w1 localPath) eqn:Hcached.
  { cbn [ret]. intros [= <- <-]. now split. }
  unfold bind at 1, fetch_url.
  destruct (fetch (length (requested w1)) url) as [r|e]; [|discriminate].
  destruct (negb (ok r)); [discriminate|].
  unfold bind.
  match goal with
  | |- context [writeFileSync ?p ?data ?w0] =>
      pose proof (writeFileSync_cases p data w0) as Hwrite;
      assert (Hend : forall u w2, writeFileSync p data w0 = (Returns u, w2) ->
                                  ends_in "/" p = false);
      [|destruct Hwrite as [[e1 Hthrow]|Hwrite]]
  end.
  { unfold writeFileSync. destruct (localPath =? ""); [discriminate|].
    destruct (ends_in "/" localPath); [discriminate | reflexivity]. }
  { rewrite Hthrow. discriminate. }
  specialize (Hend _ _ Hwrite). rewrite Hwrite.
  cbn [ret]. intros [= <- <-]. split; [reflexivity|].
  unfold is_file. cbn [files]. rewrite Hend. cbn [negb andb].
  rewrite bool_decide_eq_true_2; [reflexivity|].
  rewrite lookup_insert_eq. now eexists.
Qed.

Lemma for_each_invariant {A} (I : world -> locals -> Prop) (P : A -> Prop)
    (body : locals -> A -> IO locals) xs :
  Forall P xs ->
  (forall l x w l', P x -> I w l -> (body l x w).1 = Returns l' ->
                    I (body l x w).2 l') ->
  forall l w l', I w l -> (for_each xs body l w).1 = Returns l' ->
                 I (for_each xs body l w).2 l'.
Proof.
  intros Hxs Hbody. induction Hxs as [|x xs Hx Hxs IH]; intros l w l' Hinv.
  { cbn. now intros [= <-]. }
  cbn [for_each]. unfold bind. specialize (Hbody l x w).
  destruct (body l x w) as [[l1|e] w1]; [|discriminate].
  cbn [fst snd] in Hbody. apply IH. now apply Hbody.
Qed.

Lemma attachments_stage_images fields issueKey downloadImages l w l' :
  Forall (downloaded attachmentDir issueKey (nonempty (attachments fields)) w)
         (downloadedImages l) ->
  (attachments_stage fetch attachmentDir fields issueKey downloadImages l w).1
    = Returns l' ->
  Forall (downloaded attachmentDir issueKey (nonempty (attachments fields))
            (attachments_stage fetch attachmentDir fields issueKey
                               downloadImages l w).2)
         (downloadedImages l') /\
  (downloadImages = false -> downloadedImages l' = downloadedImages l).
Proof.
  intros Hinv. unfold attachments_stage.
  destruct (nonempty (attachments fields)) as [|a atts] eqn:Eatts.
  { intros [= <-]. now split. }
  rewrite <- Eatts in Hinv |- *. clear Eatts a atts.
  apply (for_each_invariant
           (fun w0 l0 =>
              Forall (downloaded attachmentDir issueKey
                        (nonempty (attachments fields)) w0)
                     (downloadedImages l0) /\
              (downloadImages = false ->
               downloadedImages l0 = downloadedImages l))
           (fun att => att ∈ nonempty (attachments fields))).
  { now apply Forall_forall. }
  2:{ now split. }
  clear. intros acc att w acc' Hatt [Hinv Hoff]. cbv zeta.
  fold (is_image_attachment att).
  destruct (downloadImages && _) eqn:Hdl.
  - unfold bind, attempt.
    pose proof (downloadAttachment_on_disk (att_content att) (att_filename att)
                  issueKey w) as Hsaved.
    pose proof (fun p => exists_kept _ w p
                  (keeps_downloadAttachment fetch attachmentDir
                     (att_content att) (att_filename att) issueKey)) as Hkeeps.
    assert (Hon : downloadImages = false -> False).
    { intros ->. discriminate. }
    apply andb_true_iff in Hdl as [_ Himage].
    destruct (downloadAttachment fetch attachmentDir (att_content att)
                (att_filename att) issueKey w) as [[localPath|e] w1];
      cbn [fst snd ret] in *; intros [= <-]; cbn [print downloadedImages].
    + split; [|intros H; now destruct (Hon H)].
      apply Forall_app. split.
      * eapply Forall_impl; [exact Hinv|]. intros p [Hp Hname].
        split; [now apply Hkeeps | exact Hname].
      * destruct (Hsaved localPath w1 eq_refl) as [Epath Hexists].
        constructor; [|constructor]. split; [exact Hexists|]. now exists att.
    + split; [|intros H; now destruct (Hon H)].
      eapply Forall_impl; [exact Hinv|]. intros p [Hp Hname].
      split; [now apply Hkeeps | exact Hname].
  - cbn [ret fst snd]. intros [= <-]. now split.
Qed.

End DownloadedImages.

(** X19.  Every path of [jiraImages] that [getTicket] returns exists on
    disk when the call returns, whatever the later stages did, and is what
    [path.join] makes of the attachment directory, the key of the issue
    and the file name of an image attached to the ticket as fetched;
    without [downloadImages] the list is empty.  When the attachment
    directory is clean and the key and the file names of the attachments
    are plain segments of a path, every path has the form
    [attachmentDir/issueKey/filename]. *)
Theorem getTicket_images_on_disk
    (fetch : nat -> string -> fetch_result)
    (jira : nat -> jira_request -> outcome issue)
    (figmaConfig : option string) (URL_new : string -> option URL)
    (encodeURIComponent toLocaleString : string -> string)
    (attachmentDir figmaExportsDir issueKey : string)
    (downloadImages fetchFigma : bool) (w w' : world) (t : ticket) :
  getTicket fetch jira figmaConfig URL_new encodeURIComponent toLocaleString
            attachmentDir figmaExportsDir issueKey downloadImages fetchFigma w
  = (Returns t, w') ->
  exists fields,
    jira (length (jira_log w)) (JiraGet issueKey true) = Returns fields /\
    Forall (downloaded attachmentDir issueKey (nonempty (attachments fields)) w')
           (jiraImages t) /\
    (downloadImages = false -> jiraImages t = []) /\
    (clean_dir attachmentDir = true -> plain_segment issueKey = true ->
     Forall (fun att => plain_segment (att_filename att) = true)
            (nonempty (attachments fields)) ->
     Forall (fun path =>
               exists att,
                 att ∈ nonempty (attachments fields) /\
                 path = attachmentDir ++ "/" ++ issueKey ++ "/"
                        ++ att_filename att)
            (jiraImages t)).
Proof.
  unfold getTicket. unfold bind at 1, fetchJira at 1.
  destruct (jira (length (jira_log w)) (JiraGet issueKey true))
    as [fields|e] eqn:Hfields; [|discriminate].
  set (w1 := World _ _ _ _ _).
  set (l0 := Locals _ _ _ [] []).
  unfold bind at 1.
  pose proof (same_parent_stage jira toLocaleString fields l0 w1) as S1.
  destruct (parent_stage jira toLocaleString fields l0 w1) as [[l1|e] w2];
    [|discriminate].
  specialize (S1 l1 eq_refl). cbn [downloadedImages l0] in S1.
  unfold bind at 1.
  pose proof (attachments_stage_images fetch attachmentDir fields issueKey
                downloadImages (comments_stage toLocaleString fields l1) w2)
    as S2.
  destruct (attachments_stage fetch attachmentDir fields issueKey
              downloadImages (comments_stage toLocaleString fields l1) w2)
    as [[l2|e] w3]; [|discriminate].
  rewrite images_comments_stage, S1 in S2.
  destruct (S2 l2 (Forall_nil_2 _) eq_refl) as [D2 O2]. cbn [snd] in D2.
  unfold bind at 1.
  pose proof (same_subtasks_stage jira fields l2 w3) as S3.
  pose proof (fun p => exists_kept _ w3 p
                (keeps_offline _ (offline_subtasks_stage jira fields l2))) as K3.
  destruct (subtasks_stage jira fields l2 w3) as [[l3|e] w4]; [|discriminate].
  specialize (S3 l3 eq_refl). cbn [snd] in K3.
  unfold bind at 1.
  pose proof (same_linked_stage jira toLocaleString fields l3 w4) as S4.
  pose proof (fun p => exists_kept _ w4 p
                (keeps_offline _ (offline_linked_stage jira toLocaleString
                                    fields l3))) as K4.
  destruct (linked_stage jira toLocaleString fields l3 w4) as [[l4|e] w5];
    [|discriminate].
  specialize (S4 l4 eq_refl). cbn [snd] in K4.
  unfold bind at 1.
  pose proof (same_referenced_stage jira toLocaleString fields issueKey l4 w5)
    as S5.
  pose proof (fun p => exists_kept _ w5 p
                (keeps_offline _ (offline_referenced_stage jira toLocaleString
                                    fields issueKey l4))) as K5.
  destruct (referenced_stage jira toLocaleString fields issueKey l4 w5)
    as [[l5|e] w6]; [|discriminate].
  specialize (S5 l5 eq_refl). cbn [snd] in K5.
  unfold bind at 1.
  pose proof (same_figma_stage fetch figmaConfig URL_new encodeURIComponent
                figmaExportsDir fetchFigma l5 w6) as S6.
  pose proof (fun p => exists_kept _ w6 p
                (keeps_figma_stage fetch figmaConfig URL_new encodeURIComponent
                   figmaExportsDir fetchFigma l5)) as K6.
  destruct (figma_stage fetch figmaConfig URL_new encodeURIComponent
              figmaExportsDir fetchFigma l5 w6) as [[l6|e] w7]; [|discriminate].
  specialize (S6 l6 eq_refl). cbn [snd] in K6.
  intros [= <- <-]. cbn [jiraImages]. rewrite S6, S5, S4, S3.
  exists fields. split; [reflexivity|]. split; [|split].
  - eapply Forall_impl; [exact D2|]. intros p [Hp Hname].
    split; [|exact Hname]. now apply K6, K5, K4, K3.
  - intros Hoff. now rewrite (O2 Hoff).
  - intros Hclean Hkey Hnames. eapply Forall_impl; [exact D2|].
    intros p [_ (att & Hatt & _ & ->)]. exists att. split; [exact Hatt|].
    rewrite Forall_forall in Hnames.
    now destruct (attachment_path_join attachmentDir issueKey (att_filename att)
                    Hclean Hkey (Hnames att Hatt)) as (_ & -> & _).
Qed.

Lemma getTicket_images_on_disk_witness :
  Forall (downloaded attachmentsDir "PROJ-7" (nonempty (attachments photo_issue))
                     photo_run.2)
         ["/home/dev/.config/jira-mcp/attachments/PROJ-7/shot.png"].
Proof.
  destruct (getTicket_images_on_disk (script [resp200])
    (fun _ _ => Returns photo_issue) None URL_basic encodeURIComponent_latin1
    (fun created => created) attachmentsDir exports "PROJ-7" true true
    empty_world photo_run.2 (ticket_of photo_run.1))
    as (fields & Hfields & Himages & _).
  { vm_compute. reflexivity. }
  injection Hfields as <-. exact Himages.
Defined.

Section DescriptionUpdate.

Variable needle : string.

Lemma replace_first_absent : forall s,
  includes needle s = false -> replace_first needle s = s.
Proof.
  induction s as [|c s IH]; cbn [includes replace_first].
  - intros [H _]%orb_false_iff. now rewrite H.
  - intros [H Hs]%orb_false_iff. rewrite H. now rewrite (IH Hs).
Qed.

Lemma filter_kept_all (cs : list node) :
  forallb kept cs = true -> List.filter kept cs = cs.
Proof.
  induction cs as [|c cs IH]; [reflexivity|]. cbn [forallb List.filter].
  intros [Hc Hcs]%andb_true_iff. rewrite Hc. now rewrite (IH Hcs).
Qed.

Lemma clean_kept n : clean n = true -> kept n = true.
Proof. destruct n. cbn [clean]. now intros [H _]%andb_true_iff. Qed.

Lemma removeText_node_fixed : forall n,
  clean n = true -> needle_free needle n = true -> removeText_node needle n = n.
Proof.
  induction n as [t tx m a|t tx m a cs IH] using node_nested_ind;
    cbn [clean needle_free removeText_node node_text node_content];
    intros [Hkept Hclean]%andb_true_iff [Hfree Hbelow]%andb_true_iff.
  - destruct tx as [txt|]; [|reflexivity].
    destruct ((t =? "text") && truthy txt); [|reflexivity].
    apply negb_true_iff in Hfree. now rewrite (replace_first_absent _ Hfree).
  - assert (Hcs : List.filter kept (map (removeText_node needle) cs) = cs).
    { assert (Hmap : map (removeText_node needle) cs = cs).
      { clear Hkept. induction IH as [|c cs Hc _ IHcs]; [reflexivity|].
        cbn [forallb] in Hclean, Hbelow.
        apply andb_true_iff in Hclean as [Hc1 Hcs1].
        apply andb_true_iff in Hbelow as [Hc2 Hcs2].
        cbn [map]. now rewrite (Hc Hc1 Hc2), (IHcs Hcs1 Hcs2). }
      rewrite Hmap. apply filter_kept_all.
      clear -Hclean. induction cs as [|c cs IHcs]; [reflexivity|].
      cbn [forallb] in *. apply andb_true_iff in Hclean as [Hc Hcs].
      now rewrite (clean_kept _ Hc), (IHcs Hcs). }
    rewrite Hcs. destruct tx as [txt|]; [|reflexivity].
    destruct ((t =? "text") && truthy txt); [|reflexivity].
    apply negb_true_iff in Hfree. now rewrite (replace_first_absent _ Hfree).
Qed.

Lemma removeText_node_clean : forall n,
  kept (removeText_node needle n) = true ->
  clean (removeText_node needle n) = true.
Proof.
  induction n as [t tx m a|t tx m a cs IH] using node_nested_ind;
    intros Hkept.
  - cbn [removeText_node] in *. cbn [clean node_content].
    now rewrite Hkept.
  - cbn [removeText_node] in *. cbn [clean node_content]. rewrite Hkept.
    cbn [andb]. clear Hkept.
    induction IH as [|c cs Hc _ IHcs]; [reflexivity|].
    cbn [map List.filter].
    destruct (kept (removeText_node needle c)) eqn:Hk; [|exact IHcs].
    cbn [forallb]. now rewrite (Hc eq_refl), IHcs.
Qed.

End DescriptionUpdate.

(** X20.  What [removeText] returns is clean at every depth, whatever the
    document and the text to remove: no text node is left whose text is
    missing, empty or blank, and no paragraph without children. *)
Theorem removeText_clean (needle : string) (nodes : list node) :
  forallb clean (removeText needle nodes) = true.
Proof.
  unfold removeText. induction nodes as [|n nodes IH]; [reflexivity|].
  cbn [map List.filter].
  destruct (kept (removeText_node needle n)) eqn:Hk; [|exact IH].
  cbn [forallb]. now rewrite (removeText_node_clean needle n Hk), IH.
Qed.

(** X21.  [removeText] leaves a document as it is when the document is
    clean, with no blank text node and no empty paragraph at any depth,
    and none of its texts contains the text to remove. *)
Theorem removeText_fixed (needle : string) (nodes : list node) :
  forallb clean nodes = true ->
  forallb (needle_free needle) nodes = true ->
  removeText needle nodes = nodes.
Proof.
  unfold removeText. induction nodes as [|n nodes IH]; [reflexivity|].
  cbn [forallb map List.filter].
  intros [Hn Hnodes]%andb_true_iff [Fn Fnodes]%andb_true_iff.
  rewrite (removeText_node_fixed needle n Hn Fn), (clean_kept n Hn).
  now rewrite (IH Hnodes Fnodes).
Qed.

Lemma removeText_fixed_witness :
  removeText "TODO"
    [paragraph [text_node "Checkout fails" None; hardBreak];
     Node "bulletList" None None None
          (Some [Node "listItem" None None None
                      (Some [paragraph [text_node "on empty cart" None]])])]
  = [paragraph [text_node "Checkout fails" None; hardBreak];
     Node "bulletList" None None None
          (Some [Node "listItem" None None None
                      (Some [paragraph [text_node "on empty cart" None]])])].
Proof.
  apply (removeText_fixed "TODO"
    [paragraph [text_node "Checkout fails" None; hardBreak];
     Node "bulletList" None None None
          (Some [Node "listItem" None None None
                      (Some [paragraph [text_node "on empty cart" None]])])]).
  - reflexivity.
  - reflexivity.
Defined.

Lemma or_else_empty (s : string) : or_else (Some s) "" = s.
Proof. unfold or_else, truthy. now destruct s. Qed.

Lemma length_take_chars n s : String.length (take_chars n s) <= n.
Proof.
  revert s. induction n as [|n IH]; intros [|c s]; cbn; try lia.
  specialize (IH s). lia.
Qed.

(** X22.  What [jira_reply_comment] posts reads back, through
    [extractText], as the quote and the reply on a line each, after a line
    for the author when the original comment has an account: that line
    shows two at-signs, the one of the mention text and the one
    [extractText] adds.  The quote is the trimmed text of the original
    comment, cut to its first 200 characters and three dots when it is
    longer. *)
Theorem replyContent_reads_back
    (authorName originalAccountId : option string) (originalBody : adf)
    (reply : string) :
  extractTextSimple
    (AdfDoc (doc_of (replyContent authorName originalAccountId originalBody
                                  reply)))
  = (if truthy_opt originalAccountId
     then "@@" ++ or_else authorName "Unknown" ++ nl else "")
    ++ quote_of (trim (extractTextSimple originalBody)) ++ nl
    ++ reply ++ nl /\
  String.length (quote_of (trim (extractTextSimple originalBody))) <= 203 /\
  (String.length (trim (extractTextSimple originalBody)) <= 200 ->
   quote_of (trim (extractTextSimple originalBody))
   = trim (extractTextSimple originalBody)).
Proof.
  split; [|split].
  - unfold extractTextSimple at 1, replyContent, doc_of.
    cbn [extractText extractText_obj node_content].
    destruct (truthy_opt originalAccountId);
      cbn [app fold_left visit extractText_obj paragraph text_node node_content
           node_type node_text node_marks String.eqb Ascii.eqb Bool.eqb
           ex_text ex_urls link_hrefs isMedia isCard orb attr_text node_attrs
           attrs_text];
      rewrite ?or_else_empty.
    + change (or_else (Some ("@" ++ or_else authorName "Unknown")) "user")
        with ("@" ++ or_else authorName "Unknown").
      rewrite !append_empty_l, !append_assoc. reflexivity.
    + rewrite !append_empty_l, !append_assoc. reflexivity.
  - unfold quote_of. destruct (200 <? _)%nat eqn:Hlong.
    + rewrite length_append. pose proof (length_take_chars 200
        (trim (extractTextSimple originalBody))). cbn [String.length]. lia.
    + apply Nat.ltb_ge in Hlong. lia.
  - intros Hshort. unfold quote_of.
    now rewrite (proj2 (Nat.ltb_ge _ _) Hshort).
Qed.

Section TransitionTrace.

Variable service : nat -> tracker_call -> outcome (option (list transition)).
Variable arrow : string.
Variable lower : string.

Lemma offered_then_get : forall k calls,
  offered service lower k calls ->
  offered service lower k (calls ++ [GetTransitions]).
Proof.
  intros k calls H. induction H as [k|k rest _ IH|k id rest result t Hs Hin Hid Hl _ IH].
  - apply offered_get, offered_nil.
  - cbn [app]. now apply offered_get.
  - cbn [app]. now apply (offered_hop _ _ _ _ _ result t).
Qed.

(** The calls of the loop, and what a success rests on. *)
Lemma transition_loop_trace : forall attempts transitions log reached log',
  transition_loop service attempts lower transitions log = (reached, log') ->
  exists calls,
    log' = (log ++ calls)%list /\
    length calls <= 2 * attempts /\
    length (posts calls) <= attempts /\
    offered service lower (length log) calls /\
    match reached with
    | Returns (Some _) =>
        exists prefix t result done,
          log' = (prefix ++ [GetTransitions; PostTransition (tr_id t)])%list /\
          service (length prefix) GetTransitions = Returns result /\
          In t (nonempty result) /\ leads_to lower t = true /\
          service (S (length prefix)) (PostTransition (tr_id t)) = Returns done
    | _ => True
    end.
Proof.
  induction attempts as [|attempts IH]; intros transitions log reached log'.
  { intros [= <- <-]. exists []. rewrite app_nil_r.
    repeat split; cbn; try lia. constructor. }
  cbn [transition_loop]. unfold tbind at 1. unfold call at 1.
  destruct (service (length log) GetTransitions) as [result|e] eqn:Hget.
  2:{ intros [= <- <-]. exists [GetTransitions].
      repeat split; cbn; try lia. apply offered_get, offered_nil. }
  assert (Hnext : length (log ++ [GetTransitions]) = S (length log)).
  { rewrite length_app. cbn. lia. }
  destruct (find (leads_to lower) (nonempty result)) as [t|] eqn:Hdirect.
  { apply find_some in Hdirect as [Hin Hleads].
    assert (Hoff : offered service lower (length log)
                     [GetTransitions; PostTransition (tr_id t)]).
    { apply (offered_hop _ _ _ _ _ result t); auto. constructor. }
    unfold tbind, call. rewrite Hnext.
    destruct (service (S (length log)) (PostTransition (tr_id t)))
      as [done|e] eqn:Hpost; cbn [tret]; intros [= <- <-];
      exists [GetTransitions; PostTransition (tr_id t)];
      rewrite <- app_assoc; cbn [app];
      repeat split; cbn; try lia; try exact Hoff.
    exists log, t, result, done. now repeat split. }
  destruct (find (leads_to "in progress") (nonempty result)) as [t|] eqn:Hstep.
  2:{ cbn [tret]. intros [= <- <-]. exists [GetTransitions].
      repeat split; cbn; try lia. apply offered_get, offered_nil. }
  apply find_some in Hstep as [Hin Hleads].
  unfold tbind at 1. unfold call at 1. rewrite Hnext.
  destruct (service (S (length log)) (PostTransition (tr_id t)))
    as [done|e] eqn:Hpost.
  2:{ intros [= <- <-]. exists [GetTransitions; PostTransition (tr_id t)].
      rewrite <- app_assoc. cbn [app]. repeat split; cbn; try lia.
      apply (offered_hop _ _ _ _ _ result t); auto. constructor. }
  intros Hrun. apply IH in Hrun as (calls & Hlog & Hlen & Hposts & Hoff & Hres).
  exists (GetTransitions :: PostTransition (tr_id t) :: calls).
  rewrite Hlog. rewrite <- !app_assoc. cbn [app].
  split; [reflexivity|]. split; [cbn [length]; lia|].
  split; [unfold posts in *; cbn [flat_map app length]; lia|]. split.
  - apply (offered_hop _ _ _ _ _ result t); auto.
    rewrite !length_app in Hoff. cbn [length] in Hoff.
    now replace (length log + 1 + 1) with (S (S (length log))) in Hoff by lia.
  - destruct reached as [[names|]|e]; try exact I.
    destruct Hres as (prefix & t' & result' & done' & E & Hrest).
    exists prefix, t', result', done'. split; [|exact Hrest].
    rewrite <- E, Hlog, <- !app_assoc. reflexivity.
Qed.

End TransitionTrace.

(** X23.  [jira_transition] with a target status makes at most seven
    calls, at most three of which execute a transition, and never executes
    a transition blindly: each execution directly follows a listing that
    offers the transition, and the transition leads to the target status or
    to In Progress, by the name of its destination or its own, up to case.
    This holds whatever the tracker answers and whether the call returns or
    throws. *)
Theorem transition_to_trace
    (service : nat -> tracker_call -> outcome (option (list transition)))
    (arrow issueKey targetStatus : string) (log : list tracker_call) :
  exists calls,
    (transition_to service arrow issueKey targetStatus log).2
      = (log ++ calls)%list /\
    length calls <= 7 /\ length (posts calls) <= 3 /\
    offered service (toLowerCase targetStatus) (length log) calls.
Proof.
  unfold transition_to, tbind.
  destruct (transition_loop service 3 (toLowerCase targetStatus) [] log)
    as [reached log1] eqn:Hrun.
  apply transition_loop_trace in Hrun
    as (calls & Hlog & Hlen & Hposts & Hoff & _).
  destruct reached as [[names|]|e]; subst log1.
  - exists calls. cbn [tret snd]. repeat split; try lia; assumption.
  - exists (calls ++ [GetTransitions])%list. unfold call.
    destruct (service (length (log ++ calls)) GetTransitions);
      cbn [tret snd]; rewrite app_assoc; (split; [reflexivity|]);
      rewrite length_app; unfold posts in *; rewrite flat_map_app, length_app;
      cbn [length flat_map app]; repeat split; try lia;
      now apply offered_then_get.
  - exists calls. repeat split; try lia; assumption.
Qed.

(** X24.  [jira_transition] reports success only after the tracker has
    executed the right transition: when the text returned starts with
    Transitioned, the last two calls are a listing and the execution of a
    transition that this listing offers and that leads to the target
    status, and the tracker has accepted the execution. *)
Theorem transition_to_success
    (service : nat -> tracker_call -> outcome (option (list transition)))
    (arrow issueKey targetStatus : string) (log log' : list tracker_call)
    (message : string) :
  transition_to service arrow issueKey targetStatus log
    = (Returns message, log') ->
  startsWith "Transitioned " message = true ->
  exists prefix t result done,
    log' = (prefix ++ [GetTransitions; PostTransition (tr_id t)])%list /\
    service (length prefix) GetTransitions = Returns result /\
    In t (nonempty result) /\
    leads_to (toLowerCase targetStatus) t = true /\
    service (S (length prefix)) (PostTransition (tr_id t)) = Returns done.
Proof.
  unfold transition_to, tbind.
  destruct (transition_loop service 3 (toLowerCase targetStatus) [] log)
    as [reached log1] eqn:Hrun.
  apply transition_loop_trace in Hrun as (calls & Hlog & _ & _ & _ & Hres).
  destruct reached as [[names|]|e].
  - intros [= _ <-] _. exact Hres.
  - unfold call.
    destruct (service (length log1) GetTransitions); [|discriminate].
    cbn [tret]. intros [= <- _] Hstart. discriminate Hstart.
  - discriminate.
Qed.

Lemma transition_to_success_witness :
  exists prefix t result done,
    [GetTransitions; PostTransition "21"; GetTransitions; PostTransition "31"]
      = (prefix ++ [GetTransitions; PostTransition (tr_id t)])%list /\
    board (length prefix) GetTransitions = Returns result /\
    In t (nonempty result) /\
    leads_to (toLowerCase "DONE") t = true /\
    board (S (length prefix)) (PostTransition (tr_id t)) = Returns done.
Proof.
  apply (transition_to_success board " > " "PROJ-1" "DONE" []
           [GetTransitions; PostTransition "21";
            GetTransitions; PostTransition "31"]
           "Transitioned PROJ-1 to In Progress > Done.").
  - reflexivity.
  - reflexivity.
Defined.
